(** * TinyTuya API server: discovery registry, retry resolver, command gateway

    A shallow embedding of [server/server.py].  Python dictionaries whose
    iteration order is observable (the device registry, the retry table, the
    DPS mapping of a credential record) are insertion-ordered association
    lists; JSON-like values are the inductive [pyval]; the global variables
    of the module are the fields of [state]; the Device Client, the Cloud
    Client and the clock are an environment [Env] that answers each call;
    handlers run in a small state-and-exception monad that also records the
    calls made to those collaborators. *)

From Stdlib Require Import ZArith Ascii String List Bool Lia.
From stdpp Require Import base option list strings gmap.
Import ListNotations.
Local Open Scope Z_scope.
Set Warnings "-register-all,-clear-no-such-hyp".

(** ** Python values *)

(** The values that travel through the handlers: what [json.loads] produces
    and [json.dumps] accepts.  Strings are sequences of characters below 256,
    which is what [http.server] hands to the handler (the request line is
    decoded as iso-8859-1).  Percent-decoding can produce text with a code
    point above 255; such a text is a [PWide], the list of its code
    points. *)
Inductive pyval : Type :=
| PNone
| PBool (b : bool)
| PInt (z : Z)
| PStr (s : string)
| PWide (cps : list N)
| PList (l : list pyval)
| PDict (d : list (string * pyval)).

(** Truth value of an object, as tested by [if x:]. *)
Definition truthy (v : pyval) : bool :=
  match v with
  | PNone => false
  | PBool b => b
  | PInt z => negb (z =? 0)
  | PStr s => negb (String.eqb s EmptyString)
  | PWide cps => match cps with [] => false | _ => true end
  | PList l => match l with [] => false | _ => true end
  | PDict d => match d with [] => false | _ => true end
  end.

(** [x == s] and [x != s] for a string [s] and an object [x] that is a
    string or [False]. *)
Definition py_eq_str (v : pyval) (s : string) : bool :=
  match v with
  | PStr t => String.eqb t s
  | _ => false
  end.

(** An outcome of a computation that may raise.  All handlers of the server
    are bare [except:] clauses, so the exception carries no payload. *)
Inductive exc (A : Type) : Type :=
| Ret (a : A)
| Raise.
Arguments Ret {A} a.
Arguments Raise {A}.

(** ** String methods *)

Module Str.

(** [s.startswith(p)] *)
Fixpoint startswith (s p : string) {struct p} : bool :=
  match p, s with
  | EmptyString, _ => true
  | String a p', String b s' => Ascii.eqb a b && startswith s' p'
  | String _ _, EmptyString => false
  end.

(** [c in s] for a one-character string [c]. *)
Fixpoint contains_char (c : ascii) (s : string) : bool :=
  match s with
  | EmptyString => false
  | String b s' => Ascii.eqb b c || contains_char c s'
  end.

(** [s.split(sep)] for a non-empty separator: the pieces between the
    non-overlapping occurrences of [sep], scanned from the left.  [skip]
    counts the characters of an occurrence still to be passed over and
    [cur] is the piece being collected. *)
Fixpoint split_aux (sep : string) (skip : nat) (cur s : string) : list string :=
  match s with
  | EmptyString => [cur]
  | String c s' =>
      match skip with
      | S k => split_aux sep k cur s'
      | O =>
          if startswith s sep
          then cur :: split_aux sep (String.length sep - 1) EmptyString s'
          else split_aux sep O (cur +:+ String c EmptyString) s'
      end
  end.

Definition split (s sep : string) : list string := split_aux sep O EmptyString s.

(** One character of [s.lower()]: the upper-case letters of ASCII and of
    Latin-1 (0xC0..0xDE without the multiplication sign 0xD7) move up by
    32; every other character below 256 is its own lower case. *)
Definition lower_char (c : ascii) : ascii :=
  let n := N_of_ascii c in
  if ((65 <=? n) && (n <=? 90) ||
      (192 <=? n) && (n <=? 222) && negb (n =? 215))%N
  then ascii_of_N (n + 32)
  else c.

Fixpoint lower (s : string) : string :=
  match s with
  | EmptyString => EmptyString
  | String c s' => String (lower_char c) (lower s')
  end.

(** The decimal digits, and the characters below 256 that [isnumeric]
    accepts: the digits, superscript two, three and one (0xB2, 0xB3,
    0xB9) and the vulgar fractions (0xBC..0xBE). *)
Definition is_decimal_char (c : ascii) : bool :=
  let n := N_of_ascii c in ((48 <=? n) && (n <=? 57))%N.

Definition is_numeric_char (c : ascii) : bool :=
  let n := N_of_ascii c in
  (is_decimal_char c || (n =? 178) || (n =? 179) || (n =? 185) ||
   (188 <=? n) && (n <=? 190))%N.

Fixpoint all_chars (p : ascii -> bool) (s : string) : bool :=
  match s with
  | EmptyString => true
  | String c s' => p c && all_chars p s'
  end.

(** [s.isnumeric()]: at least one character and all of them numeric. *)
Definition isnumeric (s : string) : bool :=
  match s with
  | EmptyString => false
  | _ => all_chars is_numeric_char s
  end.

(** Value of a run of decimal digits, most significant first. *)
Fixpoint decimal_value (acc : Z) (s : string) : Z :=
  match s with
  | EmptyString => acc
  | String c s' => decimal_value (10 * acc + (Z.of_N (N_of_ascii c) - 48)) s'
  end.

(** The default of [sys.get_int_max_str_digits()]. *)
Definition int_max_str_digits : Z := 4300.

(** [int(s)] on a string that passed [isnumeric]: the value when every
    character is a decimal digit and there are at most
    [int_max_str_digits] of them, [ValueError] otherwise (a superscript or
    a fraction is numeric but is no digit of a literal; a longer run of
    digits, leading zeros included, exceeds the limit for integer string
    conversion). *)
Definition int (s : string) : exc Z :=
  match s with
  | EmptyString => Raise
  | _ =>
      if all_chars is_decimal_char s
         && (Z.of_nat (String.length s) <=? int_max_str_digits)
      then Ret (decimal_value 0 s)
      else Raise
  end.

End Str.

(** ** Dictionaries in insertion order *)

Section Dict.
Context {V : Type}.

(** [d.get(k)]; the keys of a dictionary are pairwise different, so the
    first binding is the only one. *)
Fixpoint dict_get (k : string) (d : list (string * V)) : option V :=
  match d with
  | [] => None
  | (k', v) :: d' => if String.eqb k' k then Some v else dict_get k d'
  end.

(** [k in d] *)
Definition dict_has (k : string) (d : list (string * V)) : bool :=
  match dict_get k d with Some _ => true | None => false end.

(** [d[k] = v]: an existing key keeps its position, a new key goes last. *)
Fixpoint dict_set (k : string) (v : V) (d : list (string * V)) : list (string * V) :=
  match d with
  | [] => [(k, v)]
  | (k', v') :: d' =>
      if String.eqb k' k then (k', v) :: d' else (k', v') :: dict_set k v d'
  end.

(** [del d[k]] for a key that is present. *)
Fixpoint dict_del (k : string) (d : list (string * V)) : list (string * V) :=
  match d with
  | [] => []
  | (k', v') :: d' =>
      if String.eqb k' k then d' else (k', v') :: dict_del k d'
  end.

Definition dict_keys (d : list (string * V)) : list string := map fst d.

End Dict.

(** [k in d] for an object [k] that is a string or [False]; the keys of the
    registry are strings, so [False] is never a member. *)
Definition py_in_dict {V : Type} (k : pyval) (d : list (string * V)) : bool :=
  match k with
  | PStr s => dict_has s d
  | _ => false
  end.

(** ** Data model *)

(** One entry of a DPS mapping: the human-readable [code] of a data point
    and whatever else the cloud reported about it. *)
Record DpsEntry : Type := {
  code : string;
  dps_other : list (string * pyval) }.

(** A device of [tuyadevices] (devices.json, or the cloud's device list):
    [id], [name] and [key], an optional [mac] and an optional [mapping]
    from data-point index to its entry. *)
Record CredentialRecord : Type := {
  c_id : string;
  c_name : string;
  c_key : string;
  c_mac : option string;
  c_mapping : option (list (string * DpsEntry));
  c_other : list (string * pyval) }.

(** A value that is no dict. *)
Inductive nondict : Type :=
| NNone
| NBool (b : bool)
| NInt (z : Z)
| NStr (s : string)
| NList (l : list pyval).

(** An item of [tuyadevices] is a dict of that shape or, since the list is
    whatever [json.load] returned, a value that is no dict. *)
Inductive tuyadev : Type :=
| TDict (r : CredentialRecord)
| TOther (v : nondict).

(** An entry of [deviceslist]: the decoded announcement ([ip], an optional
    [version], the remaining fields) with [name], [mac], [key] and [id] set
    by the listener. *)
Record RegistryEntry : Type := {
  e_ip : string;
  e_version : option string;
  e_other : list (string * pyval);
  e_name : string;
  e_mac : string;
  e_key : string;
  e_id : string }.

Record CloudConfig : Type := {
  apiKey : string;
  apiSecret : string;
  apiRegion : string;
  apiDeviceID : string }.

(** The global variables of the module. *)
Record state : Type := {
  tuyadevices : list tuyadev;
  deviceslist : list (string * RegistryEntry);
  newdevices : list string;
  retrydevices : list (string * Z);
  retrytimer : Z;
  cloudconfig : CloudConfig }.

Definition RETRYTIME : Z := 30.
Definition RETRYCOUNT : Z := 5.

Definition set_tuyadevices (l : list tuyadev) (st : state) : state :=
  {| tuyadevices := l; deviceslist := deviceslist st;
     newdevices := newdevices st; retrydevices := retrydevices st;
     retrytimer := retrytimer st; cloudconfig := cloudconfig st |}.

Definition set_deviceslist (d : list (string * RegistryEntry)) (st : state) : state :=
  {| tuyadevices := tuyadevices st; deviceslist := d;
     newdevices := newdevices st; retrydevices := retrydevices st;
     retrytimer := retrytimer st; cloudconfig := cloudconfig st |}.

Definition set_newdevices (l : list string) (st : state) : state :=
  {| tuyadevices := tuyadevices st; deviceslist := deviceslist st;
     newdevices := l; retrydevices := retrydevices st;
     retrytimer := retrytimer st; cloudconfig := cloudconfig st |}.

Definition set_retrydevices (d : list (string * Z)) (st : state) : state :=
  {| tuyadevices := tuyadevices st; deviceslist := deviceslist st;
     newdevices := newdevices st; retrydevices := d;
     retrytimer := retrytimer st; cloudconfig := cloudconfig st |}.

Definition set_retrytimer (t : Z) (st : state) : state :=
  {| tuyadevices := tuyadevices st; deviceslist := deviceslist st;
     newdevices := newdevices st; retrydevices := retrydevices st;
     retrytimer := t; cloudconfig := cloudconfig st |}.

Definition set_cloudconfig (c : CloudConfig) (st : state) : state :=
  {| tuyadevices := tuyadevices st; deviceslist := deviceslist st;
     newdevices := newdevices st; retrydevices := retrydevices st;
     retrytimer := retrytimer st; cloudconfig := c |}.

(** ** Static assets *)

Module Static.

(** The file system as [get_static] sees it: [os.path.exists], and
    [open(path, 'rb').read()], which raises for a directory or for a file
    that cannot be read. *)
Record FS : Type := {
  exists_ : string → bool;
  read : string → exc string }.

(** [s.endswith(p)]: some suffix of [s] is [p]. *)
Fixpoint endswith (s p : string) : bool :=
  String.eqb s p
  || match s with
     | EmptyString => false
     | String _ s' => endswith s' p
     end.

(** [s.split('?')[0]] *)
Definition before_query (s : string) : string :=
  match Str.split s "?" with
  | x :: _ => x
  | [] => EmptyString
  end.

(** [s[1:]] *)
Definition tail (s : string) : string :=
  match s with
  | EmptyString => EmptyString
  | String _ s' => s'
  end.

(** [os.path.join(a, b)] of [posixpath]. *)
Definition join (a b : string) : string :=
  if Str.startswith b "/" then b
  else if String.eqb a EmptyString || endswith a "/" then a +:+ b
  else a +:+ "/" +:+ b.

(** The file [get_static] looks for. *)
Definition resolve (web_root fpath : string) : string :=
  let fpath := if String.eqb (before_query fpath) "/" then "index.html" else fpath in
  let fpath := if Str.startswith fpath "/" then tail fpath else fpath in
  let fpath := before_query fpath in
  join web_root fpath.

Definition content_type (freq : string) : string :=
  if endswith (Str.lower freq) ".js" then "application/javascript"
  else if endswith (Str.lower freq) ".css" then "text/css"
  else if endswith (Str.lower freq) ".png" then "image/png"
  else if endswith (Str.lower freq) ".html" then "text/html"
  else "text/plain".

(** [get_static(web_root, fpath)]: the content and the type of the file,
    or [None] (for [(None, None)]) when there is no such path. *)
Definition get_static (fs : FS) (web_root fpath : string) : exc (option (string * string)) :=
  let freq := resolve web_root fpath in
  if exists_ fs freq then
    match read fs freq with
    | Ret content => Ret (Some (content, content_type freq))
    | Raise => Raise
    end
  else Ret None.

End Static.

(** ** Collaborators *)

(** The calls a handler makes on a Device Client; [set_value], [turn_on]
    and [turn_off] are always called with [nowait=True]. *)
Inductive dev_call : Type :=
| Call_OutletDevice (id ip key : string)
| Call_set_version (version : string)
| Call_status
| Call_set_value (index value : pyval)
| Call_turn_on (switch : pyval)
| Call_turn_off (switch : pyval)
| Call_close.

(** What the handlers and the retry loop do to the outside, in order:
    calls on a Device Client; the entry into [tuyaCloudRefresh] (its first
    statement, the debug line "Calling Cloud Refresh"); the construction of
    a Cloud Client and its [getdevices]; the write of the device file; the
    start of a timer. *)
Inductive event : Type :=
| EvDevice (c : dev_call)
| EvCloudRefresh
| EvCloud (cfg : CloudConfig)
| EvGetDevices
| EvSaveJson (l : list tuyadev)
| EvTimer (delay : pyval) (switch : pyval).

(** A [tinytuya.Cloud] object: its [error] attribute and what
    [getdevices(False)] returns. *)
Record CloudObj : Type := {
  cloud_error : pyval;
  cloud_getdevices : exc (list tuyadev) }.

(** The surroundings of one request or one iteration of the retry loop:
    the library functions whose definition lies outside the server
    ([urllib.parse.unquote]; whether [float] accepts a string; [int] on
    an arbitrary string), the answer of the Device Client to each call, the
    answer of the Cloud Client, two readings of [time.time()], the second
    one taken after a cloud refresh inside the retry loop, the file system
    and the web root of the static assets, and the dump of [serverstats],
    whose counters are not modelled.

    [wide_value] speaks for the value token of [/set] when its
    percent-decoding holds a code point above 255: the decoded text is
    then no [string], and what [lower], [isnumeric] and [int] make of it is
    a matter of the Unicode database; [wide_value token] is [Some] of the
    outcome of the coercion in that case (a boolean, an integer, a text,
    narrow or wide, or the exception of [int]), and [None] for every other
    token, whose decoding is [unquote token]. *)
Record Env : Type := {
  unquote : string -> string;
  wide_value : string -> option (exc pyval);
  float_ok : string -> bool;
  int_of_str : string -> exc Z;
  device : dev_call -> exc pyval;
  cloud : CloudConfig -> exc CloudObj;
  clock : Z;
  clock_late : Z;
  fs : Static.FS;
  web_root : string;
  stats : pyval }.

(** ** The monad of handlers *)

Record world : Type := {
  w_state : state;
  w_trace : list event }.

Definition M (A : Type) : Type := Env -> world -> exc A * world.

Definition ret {A : Type} (a : A) : M A := fun _ w => (Ret a, w).

Definition bind {A B : Type} (m : M A) (k : A -> M B) : M B :=
  fun env w =>
    match m env w with
    | (Ret a, w') => k a env w'
    | (Raise, w') => (Raise, w')
    end.

Definition raise {A : Type} : M A := fun _ w => (Raise, w).

(** [try: body  except: handler] *)
Definition try_except {A : Type} (body handler : M A) : M A :=
  fun env w =>
    match body env w with
    | (Ret a, w') => (Ret a, w')
    | (Raise, w') => handler env w'
    end.

Definition lift {A : Type} (r : exc A) : M A := fun _ w => (r, w).

Definition ask : M Env := fun env w => (Ret env, w).

Definition get : M state := fun _ w => (Ret (w_state w), w).

Definition modify (f : state -> state) : M unit :=
  fun _ w => (Ret tt, {| w_state := f (w_state w); w_trace := w_trace w |}).

Definition emit (e : event) : M unit :=
  fun _ w => (Ret tt, {| w_state := w_state w; w_trace := w_trace w ++ [e] |}).

(** A call on the Device Client: it is recorded, then it returns or raises
    as the environment says. *)
Definition call_device (c : dev_call) : M pyval :=
  fun env w =>
    (device env c, {| w_state := w_state w; w_trace := w_trace w ++ [EvDevice c] |}).

Declare Scope py_scope.
Delimit Scope py_scope with py.
Notation "x <- m ;; k" := (bind m (fun x => k))
  (at level 100, m at next level, right associativity) : py_scope.
Notation "m ;;; k" := (bind m (fun _ => k))
  (at level 100, right associativity) : py_scope.
Local Open Scope py_scope.

(** ** Helpful functions *)

Definition mac_or_empty (r : CredentialRecord) : string :=
  match c_mac r with Some m => m | None => EmptyString end.

(** [tuyaLookup(deviceid)]: name, key and mac of the first device of
    [tuyadevices] with this id, three empty strings when there is none.
    Subscripting an item that is no dict raises. *)
Fixpoint tuyaLookup (devs : list tuyadev) (deviceid : pyval) : exc (string * string * string) :=
  match devs with
  | [] => Ret (EmptyString, EmptyString, EmptyString)
  | TOther _ :: _ => Raise
  | TDict i :: rest =>
      if py_eq_str deviceid (c_id i)
      then Ret (c_name i, c_key i, mac_or_empty i)
      else tuyaLookup rest deviceid
  end.

(** [try: (dname, dkey, mac) = tuyaLookup(id)] with [except: pass], the
    three names being empty strings beforehand. *)
Definition lookup_credentials (devs : list tuyadev) (id : string) : string * string * string :=
  match tuyaLookup devs (PStr id) with
  | Ret t => t
  | Raise => (EmptyString, EmptyString, EmptyString)
  end.

(** [appenddevice(newdevice, devices)]: [True] and no change when the id is
    already a key, otherwise the entry is stored and [False] returned. *)
Definition appenddevice (newdevice : RegistryEntry) (devices : list (string * RegistryEntry))
  : bool * list (string * RegistryEntry) :=
  if dict_has (e_id newdevice) devices
  then (true, devices)
  else (false, dict_set (e_id newdevice) newdevice devices).

(** The value stored under an id by [offlineDevices]. *)
Definition offline_entry (d : CredentialRecord) : pyval :=
  PDict (("name", PStr (c_name d)) ::
         match c_mac d with Some m => [("mac", PStr m)] | None => [] end).

(** The loop of [offlineDevices()]; items that are no dict are skipped. *)
Fixpoint offlineDevices_loop (devs : list tuyadev) (registry : list (string * RegistryEntry))
    (offline : list (string * pyval)) : list (string * pyval) :=
  match devs with
  | [] => offline
  | TOther _ :: rest => offlineDevices_loop rest registry offline
  | TDict d :: rest =>
      if negb (dict_has (c_id d) registry)
      then offlineDevices_loop rest registry (dict_set (c_id d) (offline_entry d) offline)
      else offlineDevices_loop rest registry offline
  end.

Definition offlineDevices (st : state) : list (string * pyval) :=
  offlineDevices_loop (tuyadevices st) (deviceslist st) [].

(** The body of a response: the literal text the handler starts from, or
    the object handed to [json.dumps]. *)
Inductive message : Type :=
| Text (s : string)
| Json (v : pyval).

Definition formatreturn (value : pyval) : message :=
  match value with
  | PNone => Json (PDict [("status", PStr "OK")])
  | PDict _ => Json value
  | _ => Json (PDict [("status", value)])
  end.

(** The loop of [getDeviceIdByName]: the id of the first registry entry
    with the given name, [False] when there is none. *)
Fixpoint getDeviceIdByName_loop (nameuq : string) (registry : list (string * RegistryEntry)) : pyval :=
  match registry with
  | [] => PBool false
  | (_, e) :: rest =>
      if String.eqb (e_name e) nameuq then PStr (e_id e)
      else getDeviceIdByName_loop nameuq rest
  end.

Definition getDeviceIdByName (name : string) : M pyval :=
  env <- ask ;;
  st <- get ;;
  ret (getDeviceIdByName_loop (unquote env name) (deviceslist st)).

(** JSON views of the records, for the responses that dump them. *)
Definition opt_field (k : string) (o : option pyval) : list (string * pyval) :=
  match o with Some v => [(k, v)] | None => [] end.

Definition mapping_json (m : list (string * DpsEntry)) : pyval :=
  PDict (map (fun ie => (fst ie, PDict (("code", PStr (code (snd ie))) :: dps_other (snd ie)))) m).

Definition record_json (r : CredentialRecord) : pyval :=
  PDict ([("id", PStr (c_id r)); ("name", PStr (c_name r)); ("key", PStr (c_key r))]
         ++ opt_field "mac" (PStr <$> c_mac r)
         ++ opt_field "mapping" (mapping_json <$> c_mapping r)
         ++ c_other r).

Definition nondict_json (v : nondict) : pyval :=
  match v with
  | NNone => PNone
  | NBool b => PBool b
  | NInt z => PInt z
  | NStr s => PStr s
  | NList l => PList l
  end.

Definition tuyadev_json (d : tuyadev) : pyval :=
  match d with
  | TDict r => record_json r
  | TOther v => nondict_json v
  end.

Definition entry_json (e : RegistryEntry) : pyval :=
  PDict ([("ip", PStr (e_ip e))]
         ++ opt_field "version" (PStr <$> e_version e)
         ++ e_other e
         ++ [("name", PStr (e_name e)); ("mac", PStr (e_mac e));
             ("key", PStr (e_key e)); ("id", PStr (e_id e))]).

(** ** Cloud Sync Bridge *)

(** [tuyaSaveJson()]: the list is written to the device file; the caller
    ignores whether that worked. *)
Definition tuyaSaveJson : M unit :=
  st <- get ;;
  emit (EvSaveJson (tuyadevices st)).

Definition cloud_config_missing : pyval :=
  PDict [("Error", PStr "Cloud API config missing")].

Definition tuyaCloudRefresh : M pyval :=
  emit EvCloudRefresh ;;;
  st <- get ;;
  let cfg := cloudconfig st in
  if String.eqb (apiKey cfg) EmptyString || String.eqb (apiSecret cfg) EmptyString
     || String.eqb (apiRegion cfg) EmptyString || String.eqb (apiDeviceID cfg) EmptyString
  then ret cloud_config_missing
  else
    env <- ask ;;
    emit (EvCloud cfg) ;;;
    c <- lift (cloud env cfg) ;;
    if truthy (cloud_error c) then ret (cloud_error c)
    else
      emit EvGetDevices ;;;
      devs <- lift (cloud_getdevices c) ;;
      modify (set_tuyadevices devs) ;;;
      tuyaSaveJson ;;;
      ret (PDict [("devices", PList (map tuyadev_json devs))]).

(** ** Discovery listener *)

(** What the listener makes of a datagram after framing, decryption and
    [json.loads]: an object with ["ip"] and ["gwId"] ([a_other] holds its
    members other than ["ip"], ["gwId"] and ["version"]); an object with
    ["ip"] and no ["gwId"]; or anything else. *)
Record Announcement : Type := {
  a_ip : string;
  a_gwId : string;
  a_version : option string;
  a_other : list (string * pyval) }.

Inductive payload : Type :=
| Announce (a : Announcement)
| OnlyIp (ip : string)
| Undecodable.

(** [x in l] for a list of strings. *)
Fixpoint list_has (x : string) (l : list string) : bool :=
  match l with
  | [] => false
  | y :: l' => String.eqb y x || list_has x l'
  end.

(** The entry built from a datagram received from [addr], before the
    credential fields are filled in, and the id it announces.  The
    decoded object is stored as it is, so the entry of an announcement
    keeps the ["gwId"] member among its other fields. *)
Definition decode_result (addr : string) (p : payload) : RegistryEntry * string :=
  match p with
  | Announce a =>
      ({| e_ip := a_ip a; e_version := a_version a;
          e_other := ("gwId", PStr (a_gwId a)) :: a_other a;
          e_name := EmptyString; e_mac := EmptyString; e_key := EmptyString;
          e_id := EmptyString |}, a_gwId a)
  | OnlyIp ip =>
      ({| e_ip := ip; e_version := None; e_other := [];
          e_name := EmptyString; e_mac := EmptyString; e_key := EmptyString;
          e_id := EmptyString |}, EmptyString)
  | Undecodable =>
      ({| e_ip := addr; e_version := None; e_other := [];
          e_name := EmptyString; e_mac := EmptyString; e_key := EmptyString;
          e_id := EmptyString |}, EmptyString)
  end.

(** One pass through the [while(running)] loop of [tuyalisten] for a
    datagram that arrived. *)
Definition tuyalisten_packet (addr : string) (p : payload) (st : state) : state :=
  let '(result0, gwId) := decode_result addr p in
  let '(dname, dkey, mac) := lookup_credentials (tuyadevices st) gwId in
  let result :=
    {| e_ip := e_ip result0; e_version := e_version result0;
       e_other := e_other result0;
       e_name := dname; e_mac := mac; e_key := dkey; e_id := gwId |} in
  let '(known, devices) := appenddevice result (deviceslist st) in
  let st1 := set_deviceslist devices st in
  if negb known then
    if String.eqb dname EmptyString && String.eqb dkey EmptyString
       && negb (list_has (e_id result) (newdevices st1))
    then
      let st2 := set_retrydevices (dict_set (e_id result) RETRYCOUNT (retrydevices st1)) st1 in
      set_newdevices (newdevices st2 ++ [e_id result]) st2
    else st1
  else st1.

(** ** Retry resolver *)

(** [l.remove(x)]: the first occurrence goes, [ValueError] without one. *)
Fixpoint list_remove (x : string) (l : list string) : exc (list string) :=
  match l with
  | [] => Raise
  | y :: l' =>
      if String.eqb y x then Ret l'
      else match list_remove x l' with
           | Ret r => Ret (y :: r)
           | Raise => Raise
           end
  end.

(** The three item assignments on [deviceslist[devid]]. *)
Definition set_credentials (dname dkey mac : string) (e : RegistryEntry) : RegistryEntry :=
  {| e_ip := e_ip e; e_version := e_version e; e_other := e_other e;
     e_name := dname; e_mac := mac; e_key := dkey; e_id := e_id e |}.

(** [for devid in newdevices: ...], collecting [found]. *)
Fixpoint resolve_loop (pending found : list string) : M (list string) :=
  match pending with
  | [] => ret found
  | devid :: rest =>
      st <- get ;;
      let '(dname, dkey, mac) := lookup_credentials (tuyadevices st) devid in
      if negb (String.eqb dname EmptyString) || negb (String.eqb dkey EmptyString)
      then
        match dict_get devid (deviceslist st) with
        | None => raise
        | Some e =>
            modify (set_deviceslist
                      (dict_set devid (set_credentials dname dkey mac e) (deviceslist st))) ;;;
            (if dict_has devid (retrydevices st)
             then modify (set_retrydevices (dict_del devid (retrydevices st)))
             else ret tt) ;;;
            resolve_loop rest (found ++ [devid])
        end
      else resolve_loop rest found
  end.

(** [for devid in found: newdevices.remove(devid)] *)
Fixpoint remove_found (found : list string) : M unit :=
  match found with
  | [] => ret tt
  | devid :: rest =>
      st <- get ;;
      l <- lift (list_remove devid (newdevices st)) ;;
      modify (set_newdevices l) ;;;
      remove_found rest
  end.

(** [for devid in retrydevices: retrydevices[devid] -= 1], the ids whose
    count fell below one, and their deletion. *)
Definition decrement (retry : list (string * Z)) : list (string * Z) :=
  map (fun kv => (fst kv, snd kv - 1)) retry.

Definition expired_ids (retry : list (string * Z)) : list string :=
  map fst (List.filter (fun kv => snd kv <? 1) retry).

Definition delete_all (ids : list string) (retry : list (string * Z)) : list (string * Z) :=
  fold_left (fun d k => dict_del k d) ids retry.

Definition wildcard : string := "*".

(** One iteration of the [while(True)] loop of the main thread, without the
    two-second sleep. *)
Definition main_loop_body : M unit :=
  env <- ask ;;
  st <- get ;;
  if (retrytimer st <=? clock env) || dict_has wildcard (retrydevices st) then
    if (0 <? Z.of_nat (length (retrydevices st))) then
      (if negb (dict_has wildcard (retrydevices st))
       then tuyaCloudRefresh ;;; modify (set_retrytimer (clock_late env + RETRYTIME))
       else ret tt) ;;;
      st1 <- get ;;
      found <- resolve_loop (newdevices st1) [] ;;
      remove_found found ;;;
      modify (fun s =>
                let retry := decrement (retrydevices s) in
                set_retrydevices (delete_all (expired_ids retry) retry) s)
    else ret tt
  else ret tt.

(** ** Command gateway *)

Definition dquote : string := String (ascii_of_N 34) EmptyString.
Definition slash : ascii := ascii_of_N 47.

(** [l[1]] *)
Definition index1 (l : list string) : exc string :=
  match l with
  | _ :: x :: _ => Ret x
  | _ => Raise
  end.

Definition error_id (text : string) (id : pyval) : message :=
  Json (PDict [("Error", PStr text); ("id", id)]).

Definition error_url (text path : string) : message :=
  Json (PDict [("Error", PStr text); ("url", PStr path)]).

Definition not_found (id : pyval) : message := error_id "Device ID not found." id.

(** [if(id not in deviceslist): id = getDeviceIdByName(id)] *)
Definition resolve_id (id : string) : M pyval :=
  st <- get ;;
  if negb (dict_has id (deviceslist st)) then getDeviceIdByName id else ret (PStr id).

(** [id in deviceslist], with the key and [deviceslist[id]] when it holds. *)
Definition registry_entry (id : pyval) (registry : list (string * RegistryEntry))
  : option (string * RegistryEntry) :=
  match id with
  | PStr s => match dict_get s registry with Some e => Some (s, e) | None => None end
  | _ => None
  end.

(** [d = tinytuya.OutletDevice(id, deviceslist[id]["ip"], deviceslist[id]["key"])]
    followed by [d.set_version(float(deviceslist[id]["version"]))]; an entry
    without ["version"] and a version that is no number raise before
    [set_version] is called. *)
Definition open_device (id : string) (e : RegistryEntry) : M unit :=
  call_device (Call_OutletDevice id (e_ip e) (e_key e)) ;;;
  match e_version e with
  | None => raise
  | Some v =>
      env <- ask ;;
      if float_ok env v then call_device (Call_set_version v) ;;; ret tt else raise
  end.

(** The coercion of the decoded value token of [/set]. *)
Definition coerce (dpsValue : string) : exc pyval :=
  if String.eqb (Str.lower dpsValue) "true" then Ret (PBool true)
  else if String.eqb (Str.lower dpsValue) "false" then Ret (PBool false)
  else if Str.startswith dpsValue dquote then
    match index1 (Str.split dpsValue dquote) with
    | Ret s => Ret (PStr s)
    | Raise => Raise
    end
  else if Str.isnumeric dpsValue then
    match Str.int dpsValue with
    | Ret z => Ret (PInt z)
    | Raise => Raise
    end
  else Ret (PStr dpsValue).

(** [dpsValue = urllib.parse.unquote(dpsValue)] and the coercion. *)
Definition coerce_value (token : string) : M pyval :=
  env <- ask ;;
  match wide_value env token with
  | Some outcome => lift outcome
  | None => lift (coerce (unquote env token))
  end.

(** [for i in x['mapping']: if x['mapping'][i]['code'] == str(dpsKey): ...]:
    the index of the first entry with this code. *)
Fixpoint find_code (mapping : list (string * DpsEntry)) (dpsKey : string) : option string :=
  match mapping with
  | [] => None
  | (i, entry) :: rest =>
      if String.eqb (code entry) dpsKey then Some i else find_code rest dpsKey
  end.

(** [for x in tuyadevices: if x['id'] == id: ...] of [/set]; the loop goes
    on after a device matched, with the key it may have replaced. *)
Fixpoint map_dps_key (devs : list tuyadev) (id : pyval) (dpsKey : string) : exc string :=
  match devs with
  | [] => Ret dpsKey
  | TOther _ :: _ => Raise
  | TDict x :: rest =>
      if py_eq_str id (c_id x) then
        match c_mapping x with
        | Some mapping =>
            map_dps_key rest id
              (match find_code mapping dpsKey with Some i => i | None => dpsKey end)
        | None => map_dps_key rest id dpsKey
        end
      else map_dps_key rest id dpsKey
  end.

Definition do_set (path : string) : M message :=
  try_except
    (match Str.split path "/" with
     | [_; _; id; dpsKey; dpsValue] =>
         dpsValue <- coerce_value dpsValue ;;
         id <- resolve_id id ;;
         st <- get ;;
         dpsKey <- (if negb (Str.isnumeric dpsKey)
                    then lift (map_dps_key (tuyadevices st) id dpsKey)
                    else ret dpsKey) ;;
         match registry_entry id (deviceslist st) with
         | Some (s, e) =>
             open_device s e ;;;
             r <- call_device (Call_set_value (PStr dpsKey) dpsValue) ;;
             call_device Call_close ;;;
             ret (formatreturn r)
         | None => ret (not_found id)
         end
     | _ => raise
     end)
    (ret (error_url "Syntax error in set command URL." path)).

Definition do_device (path : string) : M message :=
  id <- lift (index1 (Str.split path "/device/")) ;;
  id <- resolve_id id ;;
  st <- get ;;
  match registry_entry id (deviceslist st) with
  | Some (_, e) => ret (Json (entry_json e))
  | None =>
      t <- lift (tuyaLookup (tuyadevices st) id) ;;
      let '(name, key, mac) := t in
      if negb (String.eqb name EmptyString)
      then ret (Json (PDict [("name", PStr name); ("mac", PStr mac);
                             ("key", PStr key); ("id", id)]))
      else ret (not_found id)
  end.

(** The optional switch number of [/turnoff] and [/turnon]: the id, the
    switch and the message after [if "/" in id: ...]. *)
Definition split_switch (command path id : string) : string * pyval * message :=
  if Str.contains_char slash id then
    match Str.split id "/" with
    | [a; b] => (a, PStr b, Text "Error")
    | _ => (EmptyString, PInt 1,
            error_url ("Invalid syntax in " +:+ command +:+ " command.") path)
    end
  else (id, PInt 1, Text "Error").

Definition do_turnoff (path : string) : M message :=
  id <- lift (index1 (Str.split path "/turnoff/")) ;;
  let '(id, sw, message) := split_switch "turnoff" path id in
  id <- resolve_id id ;;
  st <- get ;;
  match registry_entry id (deviceslist st) with
  | Some (s, e) =>
      try_except
        (open_device s e ;;;
         r <- call_device (Call_turn_off sw) ;;
         call_device Call_close ;;;
         ret (formatreturn r))
        (ret (error_id "Error sending command to device." id))
  | None =>
      if negb (py_eq_str id EmptyString) then ret (not_found id) else ret message
  end.

Definition do_turnon (path : string) : M message :=
  id <- lift (index1 (Str.split path "/turnon/")) ;;
  let '(id, sw, message) := split_switch "turnon" path id in
  id <- resolve_id id ;;
  st <- get ;;
  match registry_entry id (deviceslist st) with
  | Some (s, e) =>
      try_except
        (open_device s e ;;;
         r <- call_device (Call_turn_on sw) ;;
         call_device Call_close ;;;
         ret (formatreturn r))
        (ret (error_id "Error sending command to device." id))
  | None =>
      if negb (py_eq_str id EmptyString) then ret (not_found id) else ret message
  end.

(** The action a timer runs for [/delayoff]. *)
Definition delayoff (sw : pyval) : M unit :=
  call_device (Call_turn_off sw) ;;;
  call_device Call_close ;;;
  ret tt.

(** [int(delay)] and the text of [%s] for the default [10] or a token. *)
Definition delay_seconds (delay : pyval) : M Z :=
  match delay with
  | PInt z => ret z
  | PStr s => env <- ask ;; lift (int_of_str env s)
  | _ => raise
  end.

Definition delay_text (delay : pyval) : string :=
  match delay with
  | PStr s => s
  | _ => "10"
  end.

Definition do_delayoff (path : string) : M message :=
  id <- lift (index1 (Str.split path "/delayoff/")) ;;
  let '(id, sw, delay, message) :=
    if Str.contains_char slash id then
      match Str.split id "/" with
      | [a; b; c] => (a, PStr b, PStr c, Text "Error")
      | _ => (EmptyString, PInt 1, PInt 10,
              error_url "Invalid syntax in delayoff command." path)
      end
    else (id, PInt 1, PInt 10, Text "Error") in
  id <- resolve_id id ;;
  st <- get ;;
  match registry_entry id (deviceslist st) with
  | Some (s, e) =>
      try_except
        (open_device s e ;;;
         seconds <- delay_seconds delay ;;
         emit (EvTimer (PInt seconds) sw) ;;;
         ret (Json (PDict [("OK", PStr ("Turning of in " +:+ delay_text delay +:+ " seconds."));
                           ("url", PStr path)])))
        (ret (error_id "Error sending command to device." id))
  | None =>
      if negb (py_eq_str id EmptyString) then ret (not_found id) else ret message
  end.

(** [for x in tuyadevices: if x['id'] == id: ... break] of [/status]: the
    mapping of the first device with this id is stored in the response. *)
Fixpoint status_mapping (devs : list tuyadev) (id : string) (response : pyval) : exc pyval :=
  match devs with
  | [] => Ret response
  | TOther _ :: _ => Raise
  | TDict x :: rest =>
      if String.eqb (c_id x) id then
        match response with
        | PDict d =>
            Ret (PDict (dict_set "dps_mapping"
                          (match c_mapping x with
                           | Some mapping => mapping_json mapping
                           | None => PList []
                           end) d))
        | _ => Raise
        end
      else status_mapping rest id response
  end.

Definition do_status (path : string) : M message :=
  id <- lift (index1 (Str.split path "/status/")) ;;
  id <- resolve_id id ;;
  st <- get ;;
  match registry_entry id (deviceslist st) with
  | Some (s, e) =>
      try_except
        (open_device s e ;;;
         response <- call_device Call_status ;;
         response <- lift (status_mapping (tuyadevices st) s response) ;;
         call_device Call_close ;;;
         ret (formatreturn response))
        (ret (error_id "Error polling device." id))
  | None => ret (not_found id)
  end.

(** [retrytimer = time.time() + RETRYTIME] and [retrydevices['*'] = 1] *)
Definition force_resolve : M unit :=
  env <- ask ;;
  modify (set_retrytimer (clock env + RETRYTIME)) ;;;
  modify (fun s => set_retrydevices (dict_set wildcard 1 (retrydevices s)) s).

Definition do_sync : M message :=
  r <- tuyaCloudRefresh ;;
  force_resolve ;;;
  ret (Json r).

Definition do_cloudconfig (path : string) : M message :=
  cfgstr <- lift (index1 (Str.split path "/cloudconfig/")) ;;
  match Str.split cfgstr "/" with
  | [k; s; r; d] =>
      modify (set_cloudconfig
                {| apiKey := k; apiSecret := s; apiRegion := r; apiDeviceID := d |}) ;;;
      r <- tuyaCloudRefresh ;;
      force_resolve ;;;
      ret (Json r)
  | _ => ret (Json (PDict [("Error", PStr "Syntax error in cloud config command URL.")]))
  end.

Definition help_cmds : pyval :=
  PList (map (fun c => PList [PStr (fst c); PStr (snd c)])
    [("/devices", "List all devices discovered with metadata");
     ("/device/{DeviceID}|{DeviceName}", "List specific device metadata");
     ("/numdevices", "List current number of devices discovered");
     ("/status/{DeviceID}|{DeviceName}", "List current device status");
     ("/set/{DeviceID}|{DeviceName}/{Key}|{Code}/{Value}", "Set DPS {Key} or {Code} with {Value}");
     ("/turnon/{DeviceID}|{DeviceName}/{SwitchNo}", "Turn on device, optional {SwtichNo}");
     ("/turnoff/{DeviceID}|{DeviceName}/{SwitchNo}", "Turn off device, optional {SwtichNo}");
     ("/delayoff/{DeviceID}|{DeviceName}/{SwitchNo}/{Time}", "Turn off device with delay of 10 secs, optional {SwitchNo}/{Time}");
     ("/sync", "Fetches the device list and local keys from the Tuya Cloud API");
     ("/cloudconfig/{apiKey}/{apiSecret}/{apiRegion}/{apiDeviceID}", "Sets the Tuya Cloud API login info");
     ("/offline", "List of registered devices that are offline")]).

(** What [do_GET] writes: a JSON message, or a static asset with its type. *)
Inductive response : Type :=
| Body (m : message)
| Asset (content ftype : string).

Definition body (m : M message) : M response :=
  x <- m ;; ret (Body x).

(** [do_GET]: the dispatch on [self.path]. *)
Definition do_GET (path : string) : M response :=
  if String.eqb path "/devices" then
    st <- get ;;
    ret (Body (Json (PDict (map (fun ke => (fst ke, entry_json (snd ke))) (deviceslist st)))))
  else if String.eqb path "/help" then ret (Body (Json help_cmds))
  else if String.eqb path "/stats" then env <- ask ;; ret (Body (Json (stats env)))
  else if Str.startswith path "/set/" then body (do_set path)
  else if Str.startswith path "/device/" then body (do_device path)
  else if Str.startswith path "/turnoff/" then body (do_turnoff path)
  else if Str.startswith path "/delayoff/" then body (do_delayoff path)
  else if Str.startswith path "/turnon/" then body (do_turnon path)
  else if String.eqb path "/numdevices" then
    st <- get ;;
    ret (Body (Json (PDict [("found", PInt (Z.of_nat (length (deviceslist st))));
                            ("registered", PInt (Z.of_nat (length (tuyadevices st))))])))
  else if Str.startswith path "/status/" then body (do_status path)
  else if String.eqb path "/sync" then body do_sync
  else if Str.startswith path "/cloudconfig/" then body (do_cloudconfig path)
  else if String.eqb path "/offline" then
    st <- get ;;
    ret (Body (Json (PDict (offlineDevices st))))
  else
    env <- ask ;;
    found <- lift (Static.get_static (fs env) (web_root env) path) ;;
    match found with
    | Some (fcontent, ftype) =>
        if negb (String.eqb fcontent EmptyString) then ret (Asset fcontent ftype)
        else ret (Body (Text "Error"))
    | None => ret (Body (Text "Error"))
    end.

(** Running a handler from a state with an empty record of calls. *)
Definition run {A : Type} (m : M A) (env : Env) (st : state) : exc A * world :=
  m env {| w_state := st; w_trace := [] |}.

(** ** Notions of the specification *)

(** The ids of the Credential Store: those of the items that are dicts. *)
Definition credential_ids (devs : list tuyadev) : list string :=
  flat_map (fun d => match d with TDict r => [c_id r] | TOther _ => [] end) devs.

(** "Last write wins": after a sighting of an id, the registry entry of
    that id carries the ip of this sighting. *)
Definition last_write_wins (addr : string) (a : Announcement) (st : state) : Prop :=
  e_ip <$> dict_get (a_gwId a) (deviceslist (tuyalisten_packet addr (Announce a) st))
  = Some (a_ip a).

Definition config_incomplete (cfg : CloudConfig) : Prop :=
  apiKey cfg = EmptyString ∨ apiSecret cfg = EmptyString
  ∨ apiRegion cfg = EmptyString ∨ apiDeviceID cfg = EmptyString.

(** The characters of [s] before the first [c]. *)
Fixpoint until_char (c : ascii) (s : string) : string :=
  match s with
  | EmptyString => EmptyString
  | String b s' => if Ascii.eqb b c then EmptyString else String b (until_char c s')
  end.

(** The string literal a quoted token encloses: what stands between its
    first character and the next double quote, or the end. *)
Definition enclosed (v : string) : string :=
  match v with
  | EmptyString => EmptyString
  | String _ rest => until_char (ascii_of_N 34) rest
  end.

(** A non-empty run of decimal digits. *)
Definition is_decimal (v : string) : bool :=
  match v with
  | EmptyString => false
  | _ => Str.all_chars Str.is_decimal_char v
  end.

(** The integer a run of decimal digits denotes: every digit counts with
    the power of ten of its place. *)
Fixpoint denoted (v : string) : Z :=
  match v with
  | EmptyString => 0
  | String c rest =>
      (Z.of_N (N_of_ascii c) - 48) * 10 ^ Z.of_nat (String.length rest) + denoted rest
  end.

(** The coercion of the value token as the specification words it: the
    token "true" or "false" is a boolean, a token that begins with a double
    quote is the enclosed literal, a numeric-looking token is an integer,
    any other token is passed through unchanged. *)
Definition coerce_spec (token : string) : pyval :=
  if String.eqb token "true" then PBool true
  else if String.eqb token "false" then PBool false
  else if Str.startswith token dquote then PStr (enclosed token)
  else if Str.isnumeric token then PInt (denoted token)
  else PStr token.

(** The coercion as amended, on the decoded token: "true" and "false" in
    any letter case; digits mean decimal digits, at most 4300 of them;
    nothing is said ([None]) about a longer run of digits, which is not
    coerced at all, and about a token that [isnumeric] accepts and that is
    no run of decimal digits. *)
Definition coerce_cases (v : string) : option pyval :=
  if String.eqb (Str.lower v) "true" then Some (PBool true)
  else if String.eqb (Str.lower v) "false" then Some (PBool false)
  else if Str.startswith v dquote then Some (PStr (enclosed v))
  else if is_decimal v then
    if Z.of_nat (String.length v) <=? 4300 then Some (PInt (denoted v)) else None
  else if Str.isnumeric v then None
  else Some (PStr v).

(** The path [/set/{id}/{key}/{value}]. *)
Definition set_path (id key value : string) : string :=
  "/set/" +:+ id +:+ "/" +:+ key +:+ "/" +:+ value.

(** The calls of a record of events that set a data point. *)
Definition set_value_calls (tr : list event) : list (pyval * pyval) :=
  flat_map (fun e => match e with
                     | EvDevice (Call_set_value index value) => [(index, value)]
                     | _ => []
                     end) tr.

(** "The value token is coerced as specified": every [set_value] call of
    the request carries the value the specification gives for the token. *)
Definition coerced_as_specified (env : Env) (st : state) (id key token : string) : Prop :=
  ∀ c, In c (set_value_calls
               (w_trace (snd (run (do_GET (set_path id key token)) env st)))) →
       snd c = coerce_spec token.

(** The calls on a Device Client in a record of events. *)
Definition device_calls (tr : list event) : list dev_call :=
  flat_map (fun e => match e with EvDevice c => [c] | _ => [] end) tr.

Definition is_open (c : dev_call) : bool :=
  match c with Call_OutletDevice _ _ _ => true | _ => false end.

Definition is_close (c : dev_call) : bool :=
  match c with Call_close => true | _ => false end.

(** The one operation of a control or status request. *)
Definition is_operation (c : dev_call) : bool :=
  match c with
  | Call_status | Call_set_value _ _ | Call_turn_on _ | Call_turn_off _ => true
  | _ => false
  end.

Definition opened (tr : list event) : bool := existsb is_open (device_calls tr).
Definition closed (tr : list event) : bool := existsb is_close (device_calls tr).

(** The requests that open a session and close it themselves. *)
Definition control_prefixes : list string :=
  ["/status/"; "/set/"; "/turnon/"; "/turnoff/"].

(** "The session is closed on every exit path": a request that opened a
    session has closed it when the handler is done. *)
Definition released_on_exit (env : Env) (st : state) (path : string) : Prop :=
  let tr := w_trace (snd (run (do_GET path) env st)) in
  opened tr = true → closed tr = true.

(** A response that is a JSON object with an ["Error"] member first. *)
Definition is_error (r : exc response) : Prop :=
  ∃ text rest, r = Ret (Body (Json (PDict (("Error", PStr text) :: rest)))).

Definition is_dict (v : pyval) : Prop :=
  match v with PDict _ => True | _ => False end.

Definition is_record (d : tuyadev) : Prop :=
  match d with TDict _ => True | TOther _ => False end.

(** What [/status] needs between the answer of the device and [close]: an
    answer that is a dict and a credential list of dicts. *)
Definition operation_result_ok (st : state) (op : dev_call) (v : pyval) : Prop :=
  match op with
  | Call_status => is_dict v ∧ Forall is_record (tuyadevices st)
  | _ => True
  end.

(** An item of the credential list that is a dict with another id. *)
Definition other_device (id : string) (d : tuyadev) : Prop :=
  match d with
  | TDict x => c_id x ≠ id
  | TOther _ => False
  end.

(** Two entries that differ at most in the credentials. *)
Definition same_device (e e' : RegistryEntry) : Prop :=
  e_ip e' = e_ip e ∧ e_version e' = e_version e
  ∧ e_other e' = e_other e ∧ e_id e' = e_id e.

(** The record of the Credential Store for an id: the first item of the
    list with that id, the items before it being dicts with other ids. *)
Definition first_record (devs : list tuyadev) (id : string) (r : CredentialRecord) : Prop :=
  ∃ before after,
    devs = before ++ TDict r :: after
    ∧ Forall (other_device id) before ∧ c_id r = id.

(** "Name, key and mac are attached": [e'] is the entry [e] with the name
    and the key of the record [r] and with its mac, or with an empty mac
    when the record has none. *)
Definition attached (r : CredentialRecord) (e e' : RegistryEntry) : Prop :=
  e_name e' = c_name r ∧ e_key e' = c_key r
  ∧ e_mac e' = match c_mac r with Some m => m | None => EmptyString end
  ∧ same_device e e'.

(** The state of the module after its import, with the given device file. *)
Definition initial (devs : list tuyadev) (cfg : CloudConfig) : state :=
  {| tuyadevices := devs; deviceslist := []; newdevices := [];
     retrydevices := []; retrytimer := 0; cloudconfig := cfg |}.

(** *** The retry resolver *)

(** The gate of the main loop: the timer has run out or the wildcard is in
    the retry table, and the table is not empty. *)
Definition pass_runs (env : Env) (st : state) : bool :=
  ((retrytimer st <=? clock env) || dict_has wildcard (retrydevices st))
  && (0 <? Z.of_nat (length (retrydevices st))).

(** A resolution pass: an iteration of the main loop that passes the gate
    and runs to its end. *)
Definition pass (env : Env) (st st' : state) : Prop :=
  pass_runs env st = true
  ∧ ∃ tr, run main_loop_body env st = (Ret tt, {| w_state := st'; w_trace := tr |}).

(** What the other threads do between two iterations of the main loop: a
    listener handles a datagram, or the API server handles a request. *)
Inductive other_step : state → state → Prop :=
| listener_step addr p st :
    other_step st (tuyalisten_packet addr p st)
| request_step path env st :
    other_step st (w_state (snd (run (do_GET path) env st))).

(** Executions with a given number of resolution passes. *)
Inductive run_passes : nat → state → state → Prop :=
| passes_done st : run_passes 0 st st
| passes_other n st st1 st2 :
    other_step st st1 → run_passes n st1 st2 → run_passes n st st2
| passes_pass n env st st1 st2 :
    pass env st st1 → run_passes n st1 st2 → run_passes (S n) st st2.

(** The credential list resolves an id when it has a name or a key for it. *)
Definition resolves (devs : list tuyadev) (devid : string) : bool :=
  let '(dname, dkey, _) := lookup_credentials devs devid in
  negb (String.eqb dname EmptyString) || negb (String.eqb dkey EmptyString).

(** A registry entry with the credentials of the list attached. *)
Definition with_credentials (devs : list tuyadev) (devid : string) (e : RegistryEntry)
  : RegistryEntry :=
  let '(dname, dkey, mac) := lookup_credentials devs devid in
  set_credentials dname dkey mac e.

(** The effect of one round of the resolution loop on the registry and on
    the retry table. *)
Definition attach (devs : list tuyadev) (devid : string)
    (registry : list (string * RegistryEntry)) : list (string * RegistryEntry) :=
  match dict_get devid registry with
  | Some e => dict_set devid (with_credentials devs devid e) registry
  | None => registry
  end.

Definition forget (devid : string) (retry : list (string * Z)) : list (string * Z) :=
  if dict_has devid retry then dict_del devid retry else retry.

(** The state after one round of the resolution loop for an id that
    resolves. *)
Definition resolved_state (devid : string) (st : state) : state :=
  set_retrydevices (forget devid (retrydevices st))
    (set_deviceslist (attach (tuyadevices st) devid (deviceslist st)) st).

(** The retry table after the countdown of a pass. *)
Definition countdown (retry : list (string * Z)) : list (string * Z) :=
  delete_all (expired_ids (decrement retry)) (decrement retry).

(** The state a resolution pass ends in, given the state after the refresh
    of the credential list (if there was one). *)
Definition pass_outcome (st : state) : state :=
  let devs := tuyadevices st in
  let found := List.filter (resolves devs) (newdevices st) in
  let retry := fold_left (fun d id => forget id d) found (retrydevices st) in
  {| tuyadevices := devs;
     deviceslist := fold_left (fun d id => attach devs id d) found (deviceslist st);
     newdevices := List.filter (fun y => negb (list_has y found)) (newdevices st);
     retrydevices := countdown retry;
     retrytimer := retrytimer st;
     cloudconfig := cloudconfig st |}.

(** What holds of the tables between the steps of the threads: they have
    no duplicates; an id that awaits resolution has a registry entry
    without name and key; an id of the retry table other than the wildcard
    awaits resolution; the counts lie between 1 and [RETRYCOUNT]. *)
Record consistent (st : state) : Prop := {
  retry_nodup : NoDup (dict_keys (retrydevices st));
  new_nodup : NoDup (newdevices st);
  new_unresolved :
    ∀ id, In id (newdevices st) →
          ∃ e, dict_get id (deviceslist st) = Some e
               ∧ e_name e = EmptyString ∧ e_key e = EmptyString;
  retry_is_new :
    ∀ id n, dict_get id (retrydevices st) = Some n → id ≠ wildcard →
            In id (newdevices st);
  retry_bounds :
    ∀ id n, dict_get id (retrydevices st) = Some n → 1 ≤ n ≤ RETRYCOUNT }.

(** What a request may change: not the registry, not the list of new
    devices, and of the retry table only the wildcard, which it sets to 1. *)
Definition frame (st st' : state) : Prop :=
  deviceslist st' = deviceslist st
  ∧ newdevices st' = newdevices st
  ∧ (retrydevices st' = retrydevices st
     ∨ retrydevices st' = dict_set wildcard 1 (retrydevices st)).

(** A computation that changes the state within the frame. *)
Definition framed {A : Type} (m : M A) : Prop :=
  ∀ env w, frame (w_state w) (w_state (snd (m env w))).

(** The retries an id has left. *)
Definition budget (id : string) (st : state) : Z :=
  match dict_get id (retrydevices st) with Some n => n | None => 0 end.

(** A state the server can be in: reached from the state after import by
    steps of the listeners, requests and resolution passes. *)
Definition reachable (st : state) : Prop :=
  ∃ devs cfg n, run_passes n (initial devs cfg) st.

(** The entries into [tuyaCloudRefresh] in a record of events. *)
Definition cloud_refreshes (tr : list event) : nat :=
  length (List.filter (fun e => match e with EvCloudRefresh => true | _ => false end) tr).

(** "A forced pass invokes the Cloud Sync Bridge exactly once." *)
Definition forced_pass_refreshes_once (env : Env) (st : state) : Prop :=
  cloud_refreshes (w_trace (snd (run main_loop_body env st))) = 1%nat.

(** ** Sample data *)

(** A file system without files. *)
Definition no_files : Static.FS :=
  {| Static.exists_ := fun _ => false; Static.read := fun _ => Raise |}.

(** An environment for the examples: no percent escape occurs in their
    paths, on which [unquote] returns its argument; every version is a
    number; the device answers [None] to every call. *)
Definition plain_env : Env := {|
  unquote := fun s => s;
  wide_value := fun _ => None;
  float_ok := fun _ => true;
  int_of_str := fun _ => Raise;
  device := fun _ => Ret PNone;
  cloud := fun _ => Raise;
  clock := 0;
  clock_late := 0;
  fs := no_files;
  web_root := "web";
  stats := PNone |}.

Definition no_cloudconfig : CloudConfig :=
  {| apiKey := EmptyString; apiSecret := EmptyString;
     apiRegion := EmptyString; apiDeviceID := EmptyString |}.

(** A device that does not answer: [turn_off] raises (a timeout). *)
Definition silent_env : Env := {|
  unquote := fun s => s;
  wide_value := fun _ => None;
  float_ok := fun _ => true;
  int_of_str := fun _ => Raise;
  device := fun c => match c with Call_turn_off _ => Raise | _ => Ret PNone end;
  cloud := fun _ => Raise;
  clock := 0;
  clock_late := 0;
  fs := no_files;
  web_root := "web";
  stats := PNone |}.

Definition plug1 : CredentialRecord :=
  {| c_id := "abc123"; c_name := "Plug1"; c_key := "K"; c_mac := None;
     c_mapping := Some [("1", {| code := "switch_1"; dps_other := [] |})];
     c_other := [] |}.

(** A device without credentials: [zzz] is seen while the credential list
    is empty; then [/sync] is requested, without cloud configuration. *)
Definition unknown_seen : state :=
  tuyalisten_packet "10.0.0.6"
    (Announce {| a_ip := "10.0.0.6"; a_gwId := "zzz"; a_version := Some "3.3";
                 a_other := [] |})
    (initial [] no_cloudconfig).

Definition sync_requested : state :=
  w_state (snd (run (do_GET "/sync") plain_env unknown_seen)).

(** The environment at clock reading [t], without cloud configuration in
    use: the Cloud Client answers with the given device list. *)
Definition env_at (t : Z) (devs : list tuyadev) : Env := {|
  unquote := fun s => s;
  wide_value := fun _ => None;
  float_ok := fun _ => true;
  int_of_str := fun _ => Raise;
  device := fun _ => Ret PNone;
  cloud := fun _ => Ret {| cloud_error := PNone; cloud_getdevices := Ret devs |};
  clock := t;
  clock_late := t;
  fs := no_files;
  web_root := "web";
  stats := PNone |}.

(** The state a handler or an iteration of the main loop ends in. *)
Definition after {A : Type} (m : M A) (env : Env) (st : state) : state :=
  w_state (snd (run m env st)).

(** The device [zzz] after five passes without credentials: its retries
    are used up. *)
Definition zzz_expired : state :=
  after main_loop_body (env_at 120 [])
    (after main_loop_body (env_at 90 [])
       (after main_loop_body (env_at 60 [])
          (after main_loop_body (env_at 30 [])
             (after main_loop_body (env_at 0 []) unknown_seen)))).

Definition zzz_record : CredentialRecord :=
  {| c_id := "zzz"; c_name := "Lamp"; c_key := "Z"; c_mac := Some "aa:bb";
     c_mapping := None; c_other := [] |}.

Definition full_cloudconfig : CloudConfig :=
  {| apiKey := "k"; apiSecret := "s"; apiRegion := "eu"; apiDeviceID := "d" |}.

(** Later the cloud knows [zzz]: the configuration is set by a
    [/cloudconfig] request, which refreshes the credential list and arms
    the wildcard. *)
Definition zzz_known : state :=
  after (do_GET "/cloudconfig/k/s/eu/d") (env_at 200 [TDict zzz_record]) zzz_expired.

Definition plug1_announcement (ip : string) : Announcement :=
  {| a_ip := ip; a_gwId := "abc123"; a_version := Some "3.3"; a_other := [] |}.

(** The registry after the device [abc123] was seen at 10.0.0.5. *)
Definition plug1_seen : state :=
  tuyalisten_packet "10.0.0.5" (Announce (plug1_announcement "10.0.0.5"))
    (initial [TDict plug1] no_cloudconfig).

(** ** Further notions *)

(** The entry the listener stores at the first sighting of an announcement,
    with the credentials it looked up. *)
Definition sighted_entry (a : Announcement) (dname dkey mac : string) : RegistryEntry :=
  {| e_ip := a_ip a; e_version := a_version a;
     e_other := ("gwId", PStr (a_gwId a)) :: a_other a;
     e_name := dname; e_mac := mac; e_key := dkey; e_id := a_gwId a |}.

(** A registry whose keys are pairwise different and whose entries carry
    their key as id. *)
Definition registry_keyed (registry : list (string * RegistryEntry)) : Prop :=
  NoDup (dict_keys registry)
  ∧ ∀ k e, dict_get k registry = Some e → e_id e = k.

(** What a computation keeps: a relation between the world before it and
    the world after it, whatever the environment answers. *)
Definition keeps (R : world → world → Prop) {A : Type} (m : M A) : Prop :=
  ∀ env w, R w (snd (m env w)).

Definition same_state (w w' : world) : Prop := w_state w' = w_state w.

Definition same_calls (w w' : world) : Prop :=
  device_calls (w_trace w') = device_calls (w_trace w).

(** A computation that returns, whatever the environment answers. *)
Definition answers {A : Type} (m : M A) : Prop :=
  ∀ env w, ∃ a, fst (m env w) = Ret a.

(** The requests that talk to a device. *)
Definition device_prefixes : list string :=
  ["/set/"; "/turnoff/"; "/delayoff/"; "/turnon/"; "/status/"].

(** The timers started, and the lists written to the device file, in a
    record of events. *)
Definition timers (tr : list event) : list (pyval * pyval) :=
  flat_map (fun e => match e with EvTimer delay sw => [(delay, sw)] | _ => [] end) tr.

Definition saves (tr : list event) : list (list tuyadev) :=
  flat_map (fun e => match e with EvSaveJson l => [l] | _ => [] end) tr.

(** A call that sets a session up: the constructor or [set_version]. *)
Definition is_setup (c : dev_call) : bool :=
  match c with
  | Call_OutletDevice _ _ _ | Call_set_version _ => true
  | _ => false
  end.

(** An item of the credential list that is no dict with the given id. *)
Definition not_record_of (id : string) (d : tuyadev) : Prop :=
  match d with
  | TDict x => c_id x ≠ id
  | TOther _ => True
  end.

(** A registry entry with a name other than the given one. *)
Definition other_name (name : string) (ke : string * RegistryEntry) : Prop :=
  e_name (snd ke) ≠ name.

(** ** More sample data *)

(** The cloud knows the device [abc123] under another name. *)
Definition plug1_renamed : CredentialRecord :=
  {| c_id := "abc123"; c_name := "Heater"; c_key := "K2"; c_mac := None;
     c_mapping := None; c_other := [] |}.

(** [abc123] was seen with the credentials of the device file; then a
    [/cloudconfig] request brings the other credentials and arms the
    wildcard, and a resolution pass runs. *)
Definition plug1_synced : state :=
  after (do_GET "/cloudconfig/k/s/eu/d") (env_at 0 [TDict plug1_renamed]) plug1_seen.

Definition plug1_resolved_again : state :=
  after main_loop_body (env_at 2 [TDict plug1_renamed]) plug1_synced.

(** While [zzz] has all its retries, a [/cloudconfig] request brings its
    credentials and arms the wildcard; the pass that follows resolves it. *)
Definition zzz_synced : state :=
  after (do_GET "/cloudconfig/k/s/eu/d") (env_at 0 [TDict zzz_record]) unknown_seen.

Definition zzz_resolved : state :=
  after main_loop_body (env_at 2 [TDict zzz_record]) zzz_synced.

(** A token of 4301 digits. *)
Definition long_digits : string :=
  Nat.iter 4301 (String "7") EmptyString.

(** The device file knows [zzz] twice; the second record has a mac. *)
Definition zzz_old_record : CredentialRecord :=
  {| c_id := "zzz"; c_name := "Old lamp"; c_key := "Y"; c_mac := None;
     c_mapping := None; c_other := [] |}.

(** [zzz] is seen without credentials while the cloud configuration is
    complete. *)
Definition unknown_seen_configured : state :=
  tuyalisten_packet "10.0.0.6"
    (Announce {| a_ip := "10.0.0.6"; a_gwId := "zzz"; a_version := Some "3.3";
                 a_other := [] |})
    (initial [] full_cloudconfig).

(** A file system with one file outside the web root. *)
Definition sample_fs : Static.FS :=
  {| Static.exists_ := fun p => String.eqb p "/etc/passwd";
     Static.read := fun p => if String.eqb p "/etc/passwd" then Ret "root" else Raise |}.

Local Arguments String.append !s1 s2 : simpl nomatch.

(** * Facts about the containers *)

Section DictFacts.
Context {V : Type}.
Implicit Types (d : list (string * V)) (k : string) (v : V).

Lemma dict_get_set_eq k v d : dict_get k (dict_set k v d) = Some v.
Proof.
  induction d as [|[k' v'] d IH]; simpl.
  - by rewrite String.eqb_refl.
  - destruct (String.eqb k' k) eqn:E; simpl; rewrite E; done.
Qed.

Lemma dict_get_set_ne k k' v d :
  k ≠ k' → dict_get k' (dict_set k v d) = dict_get k' d.
Proof.
  intros Hne. induction d as [|[k0 v0] d IH]; simpl.
  - destruct (String.eqb_spec k k'); done.
  - destruct (String.eqb_spec k0 k) as [->|]; simpl.
    + destruct (String.eqb_spec k k'); done.
    + destruct (String.eqb_spec k0 k'); done.
Qed.

Lemma dict_has_set_eq k v d : dict_has k (dict_set k v d) = true.
Proof. unfold dict_has. by rewrite dict_get_set_eq. Qed.

Lemma dict_has_In k d : dict_has k d = true ↔ In k (dict_keys d).
Proof.
  unfold dict_has, dict_keys. induction d as [|[k' v'] d IH]; simpl.
  - split; [done|tauto].
  - destruct (String.eqb_spec k' k) as [->|Hne].
    + split; [intros _; by left | done].
    + rewrite IH. split; [tauto|]. intros [H|H]; [congruence|done].
Qed.

Lemma dict_has_elem k d :
  dict_has k d = true ↔ k ∈ list_to_set (C:=gset string) (dict_keys d).
Proof. by rewrite dict_has_In, elem_of_list_to_set, list_elem_of_In. Qed.

Lemma dict_keys_set k v d :
  list_to_set (C:=gset string) (dict_keys (dict_set k v d))
  = {[k]} ∪ list_to_set (dict_keys d).
Proof.
  unfold dict_keys. induction d as [|[k' v'] d IH]; simpl.
  - set_solver.
  - destruct (String.eqb_spec k' k) as [->|Hne]; simpl.
    + set_solver.
    + rewrite IH. set_solver.
Qed.

End DictFacts.

(** * Facts about [split] *)

Module StrFacts.
Import Str.

(** [split] on the strings that show its corners: an empty piece between
    two separators and after the last one, and no overlapping occurrences. *)
Example split_corners :
  split "a//b/" "/" = ["a"; EmptyString; "b"; EmptyString]
  ∧ split "aXXXb" "XX" = ["a"; "Xb"]
  ∧ split "/turnoff/a/turnoff/b" "/turnoff/" = [EmptyString; "a"; "b"]
  ∧ split "abc" "/" = ["abc"].
Proof. repeat split. Qed.

Lemma append_nil_r s : s +:+ EmptyString = s.
Proof. induction s; simpl; congruence. Qed.

Lemma append_snoc cur c t :
  (cur +:+ String c EmptyString) +:+ t = cur +:+ String c t.
Proof. induction cur as [|a cur IH]; simpl; [done|]. by rewrite IH. Qed.

Lemma startswith_app p s : startswith (p +:+ s) p = true.
Proof. induction p as [|c p IH]; simpl; [done|]. by rewrite Ascii.eqb_refl. Qed.

Lemma startswith_inv s p : startswith s p = true → ∃ r, s = p +:+ r.
Proof.
  revert s. induction p as [|c p IH]; intros s H; simpl in *.
  - by exists s.
  - destruct s as [|b s]; [done|].
    apply andb_prop in H as [Hc Hs]. apply Ascii.eqb_eq in Hc as ->.
    destruct (IH _ Hs) as [r ->]. by exists r.
Qed.

(** Passing over the rest of an occurrence of the separator. *)
Lemma split_aux_skip sep u cur s :
  split_aux sep (String.length u) cur (u +:+ s) = split_aux sep 0 cur s.
Proof.
  induction u as [|c u IH]; simpl; [|exact IH].
  destruct s; reflexivity.
Qed.

(** An occurrence of the separator closes the current piece. *)
Lemma split_aux_sep c sep' cur s :
  split_aux (String c sep') 0 cur (String c sep' +:+ s)
  = cur :: split_aux (String c sep') 0 EmptyString s.
Proof.
  pose proof (startswith_app (String c sep') s) as Hp.
  change (String c sep' +:+ s) with (String c (sep' +:+ s)) in *.
  cbn [split_aux]. rewrite Hp. cbn [String.length].
  replace (S (String.length sep') - 1)%nat with (String.length sep') by lia.
  f_equal. apply split_aux_skip.
Qed.

(** Characters other than the first one of the separator join the piece. *)
Lemma split_aux_piece c sep' cur t s :
  contains_char c t = false →
  split_aux (String c sep') 0 cur (t +:+ s)
  = split_aux (String c sep') 0 (cur +:+ t) s.
Proof.
  revert cur. induction t as [|b t IH]; intros cur Hc; simpl.
  - by rewrite append_nil_r.
  - simpl in Hc. apply orb_false_elim in Hc as [Hb Ht].
    rewrite Ascii.eqb_sym in Hb. rewrite Hb. simpl.
    rewrite IH by done. by rewrite append_snoc.
Qed.

Lemma split_aux_last c sep' cur t :
  contains_char c t = false →
  split_aux (String c sep') 0 cur t = [cur +:+ t].
Proof.
  intros Hc. rewrite <- (append_nil_r t) at 1.
  by rewrite split_aux_piece.
Qed.

(** [(sep + t).split(sep)] for a [t] free of the first character of [sep]. *)
Lemma split_prefix_token c sep' t :
  contains_char c t = false →
  split (String c sep' +:+ t) (String c sep') = [EmptyString; t].
Proof.
  intros Hc. unfold split. rewrite split_aux_sep.
  by rewrite split_aux_last.
Qed.

End StrFacts.

(** * The registry and the credential store *)

Lemma set_deviceslist_same st : set_deviceslist (deviceslist st) st = st.
Proof. by destruct st. Qed.

(** C1, as amended.  A datagram that announces an id which is already a key
    of the registry changes nothing: [appenddevice] returns [True] without
    storing the new entry, so the registry entry keeps the ip (and every
    other field) of the first sighting, and the retry table and the list of
    new devices stay as they are.  Repeated sightings are idempotent
    because the first write wins. *)
Theorem known_sighting_changes_nothing addr p st :
  dict_has (snd (decode_result addr p)) (deviceslist st) = true →
  tuyalisten_packet addr p st = st.
Proof.
  intros Hknown. unfold tuyalisten_packet.
  destruct (decode_result addr p) as [result0 gwId]; simpl in Hknown.
  destruct (lookup_credentials (tuyadevices st) gwId) as [[dname dkey] mac].
  unfold appenddevice; simpl. rewrite Hknown. simpl.
  apply set_deviceslist_same.
Qed.

Lemma known_sighting_changes_nothing_witness :
  dict_has (snd (decode_result "10.0.0.9" (Announce (plug1_announcement "10.0.0.9"))))
    (deviceslist plug1_seen) = true
  ∧ tuyalisten_packet "10.0.0.9" (Announce (plug1_announcement "10.0.0.9")) plug1_seen
    = plug1_seen.
Proof.
  split; [reflexivity|].
  apply known_sighting_changes_nothing. reflexivity.
Defined.

(** C1, as stated, fails: the device [abc123] was seen at 10.0.0.5 and is
    seen again at 10.0.0.9; its registry entry still says 10.0.0.5. *)
Lemma repeated_sighting_keeps_first_ip :
  dict_has "abc123" (deviceslist plug1_seen) = true
  ∧ ¬ last_write_wins "10.0.0.9" (plug1_announcement "10.0.0.9") plug1_seen.
Proof.
  split; [reflexivity|].
  unfold last_write_wins. vm_compute. discriminate.
Qed.

Lemma offlineDevices_loop_keys devs registry offline :
  list_to_set (C:=gset string) (dict_keys (offlineDevices_loop devs registry offline))
  = list_to_set (dict_keys offline)
    ∪ (list_to_set (credential_ids devs) ∖ list_to_set (dict_keys registry)).
Proof.
  revert offline. induction devs as [|[d|v] devs IH]; intros offline; simpl.
  - set_solver.
  - destruct (dict_has (c_id d) registry) eqn:E; simpl; rewrite IH.
    + apply dict_has_elem in E. set_solver.
    + assert (c_id d ∉ list_to_set (C:=gset string) (dict_keys registry)) as Hn.
      { intros H. apply dict_has_elem in H. congruence. }
      rewrite dict_keys_set. set_solver.
  - apply IH.
Qed.

(** C6.  [GET /offline] answers with an object whose set of keys is the set
    of the ids of the credential store minus the set of the ids of the
    registry; the request changes no state and calls no collaborator. *)
Theorem offline_keys_are_set_difference env st :
  ∃ obj,
    run (do_GET "/offline") env st
      = (Ret (Body (Json (PDict obj))), {| w_state := st; w_trace := [] |})
    ∧ list_to_set (C:=gset string) (dict_keys obj)
      = list_to_set (credential_ids (tuyadevices st))
        ∖ list_to_set (dict_keys (deviceslist st)).
Proof.
  exists (offlineDevices st). split; [reflexivity|].
  unfold offlineDevices. rewrite offlineDevices_loop_keys. set_solver.
Qed.

(** C7.  With an empty [apiKey], [apiSecret], [apiRegion] or [apiDeviceID],
    [tuyaCloudRefresh] returns the error object "Cloud API config missing";
    its only trace is its own entry: no Cloud Client is built, nothing is
    saved, and the state, [tuyadevices] included, is what it was. *)
Theorem cloud_refresh_config_missing env w :
  config_incomplete (cloudconfig (w_state w)) →
  tuyaCloudRefresh env w
  = (Ret cloud_config_missing,
     {| w_state := w_state w; w_trace := w_trace w ++ [EvCloudRefresh] |}).
Proof.
  intros H. unfold tuyaCloudRefresh, bind, get, emit. simpl.
  assert ((String.eqb (apiKey (cloudconfig (w_state w))) EmptyString
           || String.eqb (apiSecret (cloudconfig (w_state w))) EmptyString
           || String.eqb (apiRegion (cloudconfig (w_state w))) EmptyString
           || String.eqb (apiDeviceID (cloudconfig (w_state w))) EmptyString)
          = true) as ->.
  { destruct H as [H|[H|[H|H]]]; rewrite H; simpl;
      rewrite ?orb_true_r; reflexivity. }
  reflexivity.
Qed.

Lemma cloud_refresh_config_missing_witness :
  config_incomplete (cloudconfig (initial [TDict plug1] no_cloudconfig))
  ∧ run tuyaCloudRefresh plain_env (initial [TDict plug1] no_cloudconfig)
    = (Ret cloud_config_missing,
       {| w_state := initial [TDict plug1] no_cloudconfig;
          w_trace := [EvCloudRefresh] |}).
Proof.
  split; [by left|].
  apply (cloud_refresh_config_missing plain_env
           {| w_state := initial [TDict plug1] no_cloudconfig; w_trace := [] |}).
  by left.
Defined.

(** * The command gateway *)

Lemma getDeviceIdByName_loop_none nameuq registry :
  (∀ k e, In (k, e) registry → e_name e ≠ nameuq) →
  getDeviceIdByName_loop nameuq registry = PBool false.
Proof.
  induction registry as [|[k e] registry IH]; intros H; simpl; [done|].
  destruct (String.eqb_spec (e_name e) nameuq) as [Heq|_].
  - exfalso. apply (H k e); [by left | done].
  - apply IH. intros k' e' Hin. apply (H k' e'). by right.
Qed.

(** C3, what the code does.  For a token without a slash that is no key of
    the registry and, percent-decoded, no name of a registry entry,
    [GET /turnoff/{token}] answers "Device ID not found." with the id
    [false]: the failed name lookup has replaced the token by [False]
    before the error object is built. *)
Theorem turnoff_unknown_reports_false env st token :
  Str.contains_char slash token = false →
  dict_has token (deviceslist st) = false →
  (∀ k e, In (k, e) (deviceslist st) → e_name e ≠ unquote env token) →
  run (do_GET ("/turnoff/" +:+ token)) env st
  = (Ret (Body (Json (PDict [("Error", PStr "Device ID not found.");
                             ("id", PBool false)]))),
     {| w_state := st; w_trace := [] |}).
Proof.
  intros Hslash Hid Hname.
  assert (Str.split ("/turnoff/" +:+ token) "/turnoff/" = [EmptyString; token])
    as Hsplit.
  { apply (StrFacts.split_prefix_token slash "turnoff/" token Hslash). }
  set (path := "/turnoff/" +:+ token) in *.
  assert (do_GET path = body (do_turnoff path)) as -> by reflexivity.
  unfold run, body, do_turnoff, bind, lift. rewrite Hsplit.
  cbn [index1]. unfold split_switch. rewrite Hslash.
  unfold resolve_id, bind, get. cbn [w_state]. rewrite Hid. cbn [negb].
  unfold getDeviceIdByName, bind, ask, get, ret. cbn [w_state].
  rewrite (getDeviceIdByName_loop_none _ _ Hname).
  reflexivity.
Qed.

Lemma turnoff_unknown_reports_false_witness :
  Str.contains_char slash "unknownid" = false
  ∧ dict_has "unknownid" (deviceslist plug1_seen) = false
  ∧ (∀ k e, In (k, e) (deviceslist plug1_seen) → e_name e ≠ "unknownid")
  ∧ run (do_GET "/turnoff/unknownid") plain_env plug1_seen
    = (Ret (Body (Json (PDict [("Error", PStr "Device ID not found.");
                               ("id", PBool false)]))),
       {| w_state := plug1_seen; w_trace := [] |}).
Proof.
  assert (∀ k e, In (k, e) (deviceslist plug1_seen) → e_name e ≠ "unknownid")
    as Hname.
  { intros k e [[= <- <-]|[]]. vm_compute. discriminate. }
  split; [reflexivity|]. split; [reflexivity|]. split; [exact Hname|].
  apply (turnoff_unknown_reports_false plain_env plug1_seen "unknownid");
    [reflexivity | reflexivity | exact Hname].
Defined.

(** ** The coercion of the value token *)

Lemma split_aux_head c cur s :
  ∃ tl, Str.split_aux (String c EmptyString) 0 cur s = (cur +:+ until_char c s) :: tl.
Proof.
  revert cur. induction s as [|b s IH]; intros cur; simpl.
  - exists []. by rewrite StrFacts.append_nil_r.
  - rewrite Ascii.eqb_sym. destruct (Ascii.eqb b c); simpl.
    + eexists. by rewrite StrFacts.append_nil_r.
    + destruct (IH (cur +:+ String b EmptyString)) as [tl ->].
      exists tl. by rewrite StrFacts.append_snoc.
Qed.

Lemma split_quoted v :
  Str.startswith v dquote = true →
  index1 (Str.split v dquote) = Ret (enclosed v).
Proof.
  intros H. destruct v as [|q rest]; [done|].
  unfold Str.split, dquote. cbn [Str.split_aux].
  unfold dquote in H. rewrite H. cbn [String.length Nat.sub].
  destruct (split_aux_head (ascii_of_N 34) EmptyString rest) as [tl ->].
  reflexivity.
Qed.

Lemma decimal_char_facts c :
  Str.is_decimal_char c = true →
  Str.lower_char c = c ∧ Str.is_numeric_char c = true
  ∧ Ascii.eqb c "t" = false ∧ Ascii.eqb c "f" = false
  ∧ Ascii.eqb (ascii_of_N 34) c = false.
Proof.
  destruct c as [[] [] [] [] [] [] [] []]; vm_compute; intros H;
    first [discriminate H | repeat split].
Qed.

Lemma all_decimal_numeric v :
  Str.all_chars Str.is_decimal_char v = true →
  Str.all_chars Str.is_numeric_char v = true.
Proof.
  induction v as [|c v IH]; simpl; [done|].
  intros [Hc Hv]%andb_prop.
  destruct (decimal_char_facts c Hc) as (_ & -> & _). simpl. by apply IH.
Qed.

Lemma decimal_value_denoted s : ∀ acc,
  Str.decimal_value acc s = acc * 10 ^ Z.of_nat (String.length s) + denoted s.
Proof.
  induction s as [|c s IH]; intros acc.
  - simpl. lia.
  - cbn [Str.decimal_value denoted String.length]. rewrite IH.
    rewrite Nat2Z.inj_succ, Z.pow_succ_r by lia. lia.
Qed.

(** What [coerce] makes of a run of decimal digits: the integer it denotes
    when it has at most 4300 digits, the exception of [int] otherwise. *)
Lemma coerce_decimal v :
  is_decimal v = true →
  coerce v = if Z.of_nat (String.length v) <=? 4300
             then Ret (PInt (denoted v)) else Raise.
Proof.
  intros H. destruct v as [|c v]; [done|].
  unfold is_decimal in H. pose proof H as H0. simpl in H0.
  apply andb_prop in H0 as [Hc Hv].
  destruct (decimal_char_facts c Hc) as (Hl & Hn & Ht & Hf & Hq).
  unfold coerce. cbn [Str.lower]. rewrite Hl.
  cbn [String.eqb]. rewrite Ht, Hf. cbn [Str.startswith dquote]. rewrite Hq.
  cbn [andb]. unfold Str.isnumeric, Str.int, Str.int_max_str_digits. rewrite H.
  rewrite (all_decimal_numeric _ H). cbn [andb].
  destruct (Z.of_nat (String.length (String c v)) <=? 4300).
  - by rewrite decimal_value_denoted.
  - done.
Qed.

Lemma coerce_refines v value :
  coerce_cases v = Some value → coerce v = Ret value.
Proof.
  destruct (is_decimal v) eqn:Hd.
  - rewrite (coerce_decimal v Hd). unfold coerce_cases. rewrite Hd.
    destruct v as [|c v]; [done|].
    unfold is_decimal in Hd. pose proof Hd as H0. simpl in H0.
    apply andb_prop in H0 as [Hc Hv].
    destruct (decimal_char_facts c Hc) as (Hl & Hn & Ht & Hf & Hq).
    cbn [Str.lower]. rewrite Hl. cbn [String.eqb]. rewrite Ht, Hf.
    cbn [Str.startswith dquote]. rewrite Hq. cbn [andb].
    destruct (Z.of_nat (String.length (String c v)) <=? 4300); congruence.
  - unfold coerce_cases, coerce. rewrite Hd.
    destruct (String.eqb (Str.lower v) "true"); [congruence|].
    destruct (String.eqb (Str.lower v) "false"); [congruence|].
    destruct (Str.startswith v dquote) eqn:Hq.
    + rewrite (split_quoted v Hq). congruence.
    + destruct (Str.isnumeric v); congruence.
Qed.

(** ** Running a handler *)

Ltac exec :=
  repeat (unfold bind, ret, raise, lift, ask, get, modify, emit, call_device,
            try_except, body in *;
          cbn [w_state w_trace fst snd] in *).

Ltac break_match :=
  match goal with
  | |- context [match ?x with _ => _ end] =>
      lazymatch x with
      | context [match _ with _ => _ end] => fail
      | _ => destruct x eqn:?
      end
  end.

Lemma coerce_value_run token env w :
  coerce_value token env w
  = (match wide_value env token with
     | Some outcome => outcome
     | None => coerce (unquote env token)
     end, w).
Proof. unfold coerce_value. exec. by destruct (wide_value env token). Qed.

Lemma split_set_path id key tok :
  Str.contains_char slash id = false →
  Str.contains_char slash key = false →
  Str.contains_char slash tok = false →
  Str.split (set_path id key tok) "/" = [EmptyString; "set"; id; key; tok].
Proof.
  intros Hi Hk Ht. unfold Str.split, set_path.
  change (Str.split_aux "/" 0 EmptyString
            ("/set/" +:+ id +:+ "/" +:+ key +:+ "/" +:+ tok))
    with (Str.split_aux (String slash EmptyString) 0 EmptyString
            (String slash EmptyString +:+ "set" +:+ String slash EmptyString
             +:+ id +:+ String slash EmptyString +:+ key
             +:+ String slash EmptyString +:+ tok)).
  rewrite (StrFacts.split_aux_sep slash EmptyString).
  rewrite (StrFacts.split_aux_piece slash EmptyString EmptyString "set") by reflexivity.
  rewrite (StrFacts.split_aux_sep slash EmptyString).
  rewrite (StrFacts.split_aux_piece slash EmptyString EmptyString id) by done.
  rewrite (StrFacts.split_aux_sep slash EmptyString).
  rewrite (StrFacts.split_aux_piece slash EmptyString EmptyString key) by done.
  rewrite (StrFacts.split_aux_sep slash EmptyString).
  rewrite (StrFacts.split_aux_last slash EmptyString EmptyString tok) by done.
  reflexivity.
Qed.

Lemma do_GET_set id key tok : do_GET (set_path id key tok) = body (do_set (set_path id key tok)).
Proof. reflexivity. Qed.


Lemma set_value_carries_coerced env st id key token value :
  Str.contains_char slash id = false →
  Str.contains_char slash key = false →
  Str.contains_char slash token = false →
  wide_value env token = None →
  coerce (unquote env token) = Ret value →
  ∀ c, In c (set_value_calls
               (w_trace (snd (run (do_GET (set_path id key token)) env st)))) →
       snd c = value.
Proof.
  intros Hi Hk Ht Hw Hc c.
  rewrite do_GET_set. unfold run, do_set.
  rewrite (split_set_path id key token Hi Hk Ht).
  unfold coerce_value, resolve_id, getDeviceIdByName, open_device. exec.
  rewrite Hw. exec. rewrite Hc.
  repeat (break_match; exec; simplify_eq; try (simpl; tauto)).
  all: simpl; intros [<-|[]]; reflexivity.
Qed.

Lemma set_value_not_coerced env st id key token :
  Str.contains_char slash id = false →
  Str.contains_char slash key = false →
  Str.contains_char slash token = false →
  wide_value env token = None →
  coerce (unquote env token) = Raise →
  run (do_GET (set_path id key token)) env st
  = (Ret (Body (error_url "Syntax error in set command URL." (set_path id key token))),
     {| w_state := st; w_trace := [] |}).
Proof.
  intros Hi Hk Ht Hw Hc.
  rewrite do_GET_set. unfold run, body, do_set.
  rewrite (split_set_path id key token Hi Hk Ht).
  unfold coerce_value. exec. rewrite Hw. exec. by rewrite Hc.
Qed.

(** C8, as amended.  The value token of [/set/{id}/{key}/{value}] is
    percent-decoded and then coerced.  For a token whose decoding has no
    code point above 255: "true" and "false" in any letter case become the
    boolean; a token that begins with a double quote becomes the text up to
    its next double quote; a token of at most 4300 decimal digits becomes
    the integer they denote; a token that is none of these and that
    [isnumeric] rejects is passed on as the decoded string.  The coercion
    returns that value, and every [set_value] call the request makes
    carries it.  A run of more than 4300 decimal digits is not coerced:
    [int] raises, and the request answers "Syntax error in set command
    URL." without calling a device. *)
Theorem set_value_coercion env st id key token :
  Str.contains_char slash id = false →
  Str.contains_char slash key = false →
  Str.contains_char slash token = false →
  wide_value env token = None →
  (∀ value, coerce_cases (unquote env token) = Some value →
     (∀ w, coerce_value token env w = (Ret value, w))
     ∧ ∀ c, In c (set_value_calls
                    (w_trace (snd (run (do_GET (set_path id key token)) env st)))) →
            snd c = value)
  ∧ (is_decimal (unquote env token) = true →
     4300 < Z.of_nat (String.length (unquote env token)) →
     (∀ w, coerce_value token env w = (Raise, w))
     ∧ run (do_GET (set_path id key token)) env st
       = (Ret (Body (error_url "Syntax error in set command URL."
                       (set_path id key token))),
          {| w_state := st; w_trace := [] |})).
Proof.
  intros Hi Hk Ht Hw. split.
  - intros value Hc. apply coerce_refines in Hc. split.
    + intros w. unfold coerce_value. exec. rewrite Hw. exec. by rewrite Hc.
    + by apply set_value_carries_coerced.
  - intros Hd Hlen.
    assert (coerce (unquote env token) = Raise) as Hc.
    { rewrite (coerce_decimal _ Hd).
      destruct (Z.leb_spec (Z.of_nat (String.length (unquote env token))) 4300);
        [lia|done]. }
    split.
    + intros w. unfold coerce_value. exec. rewrite Hw. exec. by rewrite Hc.
    + by apply set_value_not_coerced.
Qed.

Lemma set_value_coercion_witness :
  Str.contains_char slash "Plug1" = false
  ∧ Str.contains_char slash "1" = false
  ∧ Str.contains_char slash "TRUE" = false
  ∧ wide_value plain_env "TRUE" = None
  ∧ coerce_cases (unquote plain_env "TRUE") = Some (PBool true)
  ∧ coerce_cases (unquote plain_env "042") = Some (PInt 42)
  ∧ (∀ w, coerce_value "TRUE" plain_env w = (Ret (PBool true), w))
  ∧ (∀ c, In c (set_value_calls
                  (w_trace (snd (run (do_GET (set_path "Plug1" "1" "TRUE"))
                                     plain_env plug1_seen)))) →
          snd c = PBool true)
  ∧ (∀ c, In c (set_value_calls
                  (w_trace (snd (run (do_GET (set_path "Plug1" "1" "042"))
                                     plain_env plug1_seen)))) →
          snd c = PInt 42).
Proof.
  split; [reflexivity|]. split; [reflexivity|]. split; [reflexivity|].
  split; [reflexivity|]. split; [reflexivity|]. split; [reflexivity|].
  destruct (set_value_coercion plain_env plug1_seen "Plug1" "1" "TRUE"
              eq_refl eq_refl eq_refl eq_refl) as [Htrue _].
  destruct (set_value_coercion plain_env plug1_seen "Plug1" "1" "042"
              eq_refl eq_refl eq_refl eq_refl) as [Hnum _].
  split; [exact (proj1 (Htrue (PBool true) eq_refl))|].
  split; [exact (proj2 (Htrue (PBool true) eq_refl))|].
  exact (proj2 (Hnum (PInt 42) eq_refl)).
Defined.

(** A token of 4301 digits is a syntax error. *)
Example long_digits_not_coerced :
  is_decimal long_digits = true
  ∧ String.length long_digits = 4301%nat
  ∧ fst (run (do_GET (set_path "Plug1" "1" long_digits)) plain_env plug1_seen)
    = Ret (Body (error_url "Syntax error in set command URL."
                   (set_path "Plug1" "1" long_digits))).
Proof. vm_compute. done. Qed.

(** C8, as stated, fails: the token [TRUE] is neither "true" nor "false",
    begins with no quote and is not numeric, so it should be passed through
    as the string "TRUE"; the device is sent the boolean [True]. *)
Lemma upper_case_true_is_boolean :
  coerce_spec "TRUE" = PStr "TRUE"
  ∧ set_value_calls
      (w_trace (snd (run (do_GET (set_path "Plug1" "1" "TRUE")) plain_env plug1_seen)))
    = [(PStr "1", PBool true)]
  ∧ ¬ coerced_as_specified plain_env plug1_seen "Plug1" "1" "TRUE".
Proof.
  split; [reflexivity|]. split; [reflexivity|].
  intros H. specialize (H (PStr "1", PBool true)).
  assert (snd (PStr "1", PBool true) = coerce_spec "TRUE") as Habs.
  { apply H. vm_compute. by left. }
  vm_compute in Habs. discriminate Habs.
Qed.

(** ** Codes of data points *)

Lemma find_code_In mapping key i :
  find_code mapping key = Some i →
  ∃ entry, In (i, entry) mapping ∧ code entry = key.
Proof.
  induction mapping as [|[j entry] mapping IH]; simpl; [done|].
  destruct (String.eqb_spec (code entry) key) as [Heq|Hne].
  - intros [= <-]. exists entry. split; [by left|done].
  - intros H. destruct (IH H) as (entry' & Hin & Hc).
    exists entry'. split; [by right|done].
Qed.

Lemma find_code_Some mapping key i entry :
  In (i, entry) mapping → code entry = key →
  ∃ j, find_code mapping key = Some j.
Proof.
  intros Hin Hc.
  induction mapping as [|[j entry'] mapping IH]; simpl; [done|].
  destruct (String.eqb_spec (code entry') key) as [Heq|Hne]; [by eexists|].
  destruct Hin as [[= -> ->]|Hin]; [done|by apply IH].
Qed.

Lemma map_dps_key_others devs s key :
  Forall (other_device s) devs → map_dps_key devs (PStr s) key = Ret key.
Proof.
  induction 1 as [|[x|] devs Hx Hd IH]; simpl; [done| |done].
  simpl in Hx. destruct (String.eqb_spec s (c_id x)); [congruence|done].
Qed.

Lemma map_dps_key_unique before after r s mapping key i :
  Forall (other_device s) before → Forall (other_device s) after →
  c_id r = s → c_mapping r = Some mapping → find_code mapping key = Some i →
  map_dps_key (before ++ TDict r :: after) (PStr s) key = Ret i.
Proof.
  intros Hb Ha Hid Hm Hf.
  induction Hb as [|[x|] before Hx Hb IH]; simpl.
  - rewrite Hid, String.eqb_refl, Hm, Hf. by apply map_dps_key_others.
  - simpl in Hx. destruct (String.eqb_spec s (c_id x)); [congruence|done].
  - done.
Qed.

(** C9.  [/set/{id}/{key}/{value}] with a key token that is not numeric:
    when the id token resolves to a registry entry, the credential list
    holds dicts only and exactly one of them has the id of that entry, and
    its mapping contains an entry whose code equals the key token, then the
    request calls [set_value] once, with the index of such an entry (the
    first one with that code, as a string) and the coerced value.  The
    session must open: the entry has a version that [float] accepts, and
    the constructor and [set_version] return. *)
Theorem set_code_resolves_to_index
    env st id key token s e r before after mapping i entry value ver :
  Str.contains_char slash id = false →
  Str.contains_char slash key = false →
  Str.contains_char slash token = false →
  Str.isnumeric key = false →
  fst (run (resolve_id id) env st) = Ret (PStr s) →
  dict_get s (deviceslist st) = Some e →
  tuyadevices st = before ++ TDict r :: after →
  Forall (other_device s) before → Forall (other_device s) after →
  c_id r = s → c_mapping r = Some mapping →
  In (i, entry) mapping → code entry = key →
  fst (run (coerce_value token) env st) = Ret value →
  e_version e = Some ver → float_ok env ver = true →
  device env (Call_OutletDevice s (e_ip e) (e_key e)) ≠ Raise →
  device env (Call_set_version ver) ≠ Raise →
  ∃ j entry',
    find_code mapping key = Some j ∧ In (j, entry') mapping ∧ code entry' = key
    ∧ set_value_calls
        (w_trace (snd (run (do_GET (set_path id key token)) env st)))
      = [(PStr j, value)].
Proof.
  intros Hi Hk Ht Hnum Hres He Hdevs Hb Ha Hid Hm Hin Hcode Hval Hver Hfl Hopen Hsv.
  destruct (find_code_Some mapping key i entry Hin Hcode) as [j Hj].
  destruct (find_code_In mapping key j Hj) as (entry' & Hin' & Hcode').
  exists j, entry'. split; [done|]. split; [done|]. split; [done|].
  rewrite do_GET_set. unfold run, do_set in *.
  rewrite (split_set_path id key token Hi Hk Ht).
  unfold resolve_id, getDeviceIdByName, open_device in *. exec.
  rewrite coerce_value_run in *. cbn [fst] in Hval. rewrite Hval. exec.
  assert ((if negb (dict_has id (deviceslist st))
           then getDeviceIdByName_loop (unquote env id) (deviceslist st)
           else PStr id) = PStr s) as Hid'.
  { destruct (negb (dict_has id (deviceslist st))); simpl in Hres; congruence. }
  destruct (negb (dict_has id (deviceslist st))); simpl in Hid' |- *.
  2: injection Hid' as ->.
  1: rewrite Hid'.
  all: rewrite Hnum; simpl; rewrite Hdevs.
  all: rewrite (map_dps_key_unique before after r s mapping key j Hb Ha Hid Hm Hj).
  all: unfold registry_entry; rewrite He; exec; rewrite Hver, Hfl.
  all: destruct (device env (Call_OutletDevice s (e_ip e) (e_key e))); [|done].
  all: destruct (device env (Call_set_version ver)); [|done].
  all: repeat (break_match; exec; simplify_eq); reflexivity.
Qed.

Lemma set_code_resolves_to_index_witness :
  Str.isnumeric "switch_1" = false
  ∧ fst (run (resolve_id "Plug1") plain_env plug1_seen) = Ret (PStr "abc123")
  ∧ c_mapping plug1 = Some [("1", {| code := "switch_1"; dps_other := [] |})]
  ∧ fst (run (coerce_value "true") plain_env plug1_seen) = Ret (PBool true)
  ∧ ∃ j entry',
      find_code [("1", {| code := "switch_1"; dps_other := [] |})] "switch_1" = Some j
      ∧ In (j, entry') [("1", {| code := "switch_1"; dps_other := [] |})]
      ∧ code entry' = "switch_1"
      ∧ set_value_calls
          (w_trace (snd (run (do_GET (set_path "Plug1" "switch_1" "true"))
                             plain_env plug1_seen)))
        = [(PStr j, PBool true)].
Proof.
  split; [reflexivity|]. split; [reflexivity|]. split; [reflexivity|].
  split; [reflexivity|].
  apply (set_code_resolves_to_index plain_env plug1_seen "Plug1" "switch_1" "true"
           "abc123"
           {| e_ip := "10.0.0.5"; e_version := Some "3.3";
              e_other := [("gwId", PStr "abc123")];
              e_name := "Plug1"; e_mac := EmptyString; e_key := "K";
              e_id := "abc123" |}
           plug1 [] [] [("1", {| code := "switch_1"; dps_other := [] |})]
           "1" {| code := "switch_1"; dps_other := [] |} (PBool true) "3.3");
    try reflexivity; try (by constructor); try (by left); try discriminate.
Defined.

(** The scenario of C9: [/set/Plug1/switch_1/true] sets data point 1 of the
    device [abc123] to the boolean [True], between opening and closing the
    session. *)
Example set_plug1_switch_1 :
  w_trace (snd (run (do_GET "/set/Plug1/switch_1/true") plain_env plug1_seen))
  = [EvDevice (Call_OutletDevice "abc123" "10.0.0.5" "K");
     EvDevice (Call_set_version "3.3");
     EvDevice (Call_set_value (PStr "1") (PBool true));
     EvDevice Call_close].
Proof. reflexivity. Qed.

(** ** Sessions *)

Lemma status_mapping_ok devs s v :
  is_dict v → Forall is_record devs → status_mapping devs s v ≠ Raise.
Proof.
  intros Hv Hd. induction Hd as [|[x|] devs Hx Hd IH]; simpl; [done| |done].
  destruct (String.eqb (c_id x) s); [|done].
  destruct v; done.
Qed.

Ltac session_cases path :=
  exec;
  repeat (break_match; exec; simplify_eq);
  cbn -[path operation_result_ok];
  (split; [intros op v Hin Hop Hret Hok | intros c Hin Hne Hraise]);
  try tauto;
  try (exfalso;
       match goal with
       | H : status_mapping _ _ ?a = Raise,
         Hok : operation_result_ok _ ?op ?v,
         Hi : _ = ?op ∨ _ |- _ =>
           assert (op = Call_status ∧ v = a) as [-> ->]
             by (cbn in Hi; intuition (subst; cbn in *; try discriminate; congruence));
           revert H; apply status_mapping_ok; apply Hok
       end);
  try (unfold closed, is_error; cbn -[path] in *;
       intuition (try congruence); subst; try discriminate; try congruence;
       eauto).

(** C2, as amended.  A control or status request ([/status], [/set],
    [/turnon], [/turnoff]) closes its session after the device operation
    has returned (for [/status]: returned a dict, the credential list
    holding dicts only), and [close] is then the last call.  There is no
    [finally]: when a call on the Device Client raises or times out, the
    handler makes no [close] call and answers with its error object. *)
Theorem session_closed_after_operation env st prefix rest :
  In prefix control_prefixes →
  let r := run (do_GET (prefix +:+ rest)) env st in
  let calls := device_calls (w_trace (snd r)) in
  (∀ op v, In op calls → is_operation op = true → device env op = Ret v →
           operation_result_ok st op v → last calls = Some Call_close)
  ∧ (∀ c, In c calls → c ≠ Call_close → device env c = Raise →
          closed (w_trace (snd r)) = false ∧ is_error (fst r)).
Proof.
  intros [<-|[<-|[<-|[<-|[]]]]].
  - set (path := "/status/" +:+ rest).
    assert (do_GET path = body (do_status path)) as -> by reflexivity.
    unfold run, do_status, resolve_id, getDeviceIdByName, open_device.
    session_cases path.
  - set (path := "/set/" +:+ rest).
    assert (do_GET path = body (do_set path)) as -> by reflexivity.
    unfold run, do_set, coerce_value, resolve_id, getDeviceIdByName, open_device.
    session_cases path.
  - set (path := "/turnon/" +:+ rest).
    assert (do_GET path = body (do_turnon path)) as -> by reflexivity.
    unfold run, do_turnon, split_switch, resolve_id, getDeviceIdByName, open_device.
    session_cases path.
  - set (path := "/turnoff/" +:+ rest).
    assert (do_GET path = body (do_turnoff path)) as -> by reflexivity.
    unfold run, do_turnoff, split_switch, resolve_id, getDeviceIdByName, open_device.
    session_cases path.
Qed.


(** A request that goes well: open, set the version, operate, close. *)
Example turnoff_plug1_closes :
  run (do_GET "/turnoff/abc123") plain_env plug1_seen
  = (Ret (Body (Json (PDict [("status", PStr "OK")]))),
     {| w_state := plug1_seen;
        w_trace := [EvDevice (Call_OutletDevice "abc123" "10.0.0.5" "K");
                    EvDevice (Call_set_version "3.3");
                    EvDevice (Call_turn_off (PInt 1));
                    EvDevice Call_close] |}).
Proof. reflexivity. Qed.

Lemma session_closed_after_operation_witness :
  In "/turnoff/" control_prefixes
  ∧ let r := run (do_GET ("/turnoff/" +:+ "abc123")) plain_env plug1_seen in
    let calls := device_calls (w_trace (snd r)) in
    (∀ op v, In op calls → is_operation op = true → device plain_env op = Ret v →
             operation_result_ok plug1_seen op v → last calls = Some Call_close)
    ∧ (∀ c, In c calls → c ≠ Call_close → device plain_env c = Raise →
            closed (w_trace (snd r)) = false ∧ is_error (fst r)).
Proof.
  assert (In "/turnoff/" control_prefixes) as Hin by (vm_compute; tauto).
  split; [exact Hin|].
  exact (session_closed_after_operation plain_env plug1_seen "/turnoff/" "abc123" Hin).
Defined.

(** C2, as stated, fails: the device [abc123] does not answer [turn_off];
    [/turnoff/abc123] has opened a session and ends without closing it. *)
Lemma timeout_leaves_session_open :
  w_trace (snd (run (do_GET "/turnoff/abc123") silent_env plug1_seen))
  = [EvDevice (Call_OutletDevice "abc123" "10.0.0.5" "K");
     EvDevice (Call_set_version "3.3");
     EvDevice (Call_turn_off (PInt 1))]
  ∧ ¬ released_on_exit silent_env plug1_seen "/turnoff/abc123".
Proof.
  split; [reflexivity|].
  intros H. unfold released_on_exit in H.
  assert (true = false) as Habs; [|discriminate Habs].
  symmetry. apply H. reflexivity.
Qed.

(** * The tables of the retry resolver *)

Section TableFacts.
Context {V : Type}.
Implicit Types (d : list (string * V)) (k : string) (v : V).

Lemma dict_get_In k v d : dict_get k d = Some v → In (k, v) d.
Proof.
  induction d as [|[k' v'] d IH]; simpl; [done|].
  destruct (String.eqb_spec k' k) as [->|_].
  - intros [= ->]. by left.
  - intros H. right. by apply IH.
Qed.

Lemma dict_get_None k d : dict_get k d = None ↔ ¬ In k (dict_keys d).
Proof.
  rewrite <- dict_has_In. unfold dict_has.
  destruct (dict_get k d); split; try done.
  all: intros H; by destruct H.
Qed.

Lemma dict_keys_set_present k v d :
  dict_has k d = true → dict_keys (dict_set k v d) = dict_keys d.
Proof.
  unfold dict_has, dict_keys.
  induction d as [|[k' v'] d IH]; simpl; [done|].
  destruct (String.eqb_spec k' k) as [->|_]; simpl; [done|].
  intros H. by rewrite IH.
Qed.

Lemma dict_keys_set_new k v d :
  dict_has k d = false → dict_keys (dict_set k v d) = dict_keys d ++ [k].
Proof.
  unfold dict_has, dict_keys.
  induction d as [|[k' v'] d IH]; simpl; [done|].
  destruct (String.eqb_spec k' k) as [->|_]; simpl; [done|].
  intros H. by rewrite IH.
Qed.

Lemma dict_set_nodup k v d :
  NoDup (dict_keys d) → NoDup (dict_keys (dict_set k v d)).
Proof.
  intros Hd. destruct (dict_has k d) eqn:E.
  - by rewrite dict_keys_set_present.
  - rewrite dict_keys_set_new by done.
    apply NoDup_app. split; [done|]. split; [|apply NoDup_singleton].
    intros x Hx [->|[]]%list_elem_of_In. apply list_elem_of_In in Hx.
    apply dict_has_In in Hx. congruence.
Qed.

Lemma dict_set_twice k v d : dict_set k v (dict_set k v d) = dict_set k v d.
Proof.
  induction d as [|[k' v'] d IH]; simpl.
  - by rewrite String.eqb_refl.
  - destruct (String.eqb k' k) eqn:E; simpl; rewrite E; [done|]. by rewrite IH.
Qed.

Lemma dict_keys_del k d : ∀ x, In x (dict_keys (dict_del k d)) → In x (dict_keys d).
Proof.
  unfold dict_keys.
  induction d as [|[k' v'] d IH]; simpl; [done|].
  intros x. destruct (String.eqb k' k); simpl; [tauto|].
  intros [H|H]; [by left|right; by apply IH].
Qed.

Lemma dict_del_nodup k d : NoDup (dict_keys d) → NoDup (dict_keys (dict_del k d)).
Proof.
  unfold dict_keys.
  induction d as [|[k' v'] d IH]; simpl; [done|].
  intros [Hn Hd]%NoDup_cons. destruct (String.eqb k' k); simpl; [done|].
  apply NoDup_cons. split; [|by apply IH].
  intros Hin%list_elem_of_In. apply Hn, list_elem_of_In.
  by apply (dict_keys_del k d).
Qed.

Lemma dict_get_del_eq k d : NoDup (dict_keys d) → dict_get k (dict_del k d) = None.
Proof.
  unfold dict_keys.
  induction d as [|[k' v'] d IH]; simpl; [done|].
  intros [Hn Hd]%NoDup_cons.
  destruct (String.eqb_spec k' k) as [->|Hne]; simpl.
  - apply dict_get_None. by rewrite <- list_elem_of_In.
  - destruct (String.eqb_spec k' k); [done|]. by apply IH.
Qed.

Lemma dict_get_del_ne k k' d : k ≠ k' → dict_get k' (dict_del k d) = dict_get k' d.
Proof.
  intros Hne. induction d as [|[k0 v0] d IH]; simpl; [done|].
  destruct (String.eqb_spec k0 k) as [->|]; simpl.
  - destruct (String.eqb_spec k k'); done.
  - destruct (String.eqb_spec k0 k'); done.
Qed.

End TableFacts.

Lemma list_has_In x l : list_has x l = true ↔ In x l.
Proof.
  induction l as [|y l IH]; simpl; [done|].
  destruct (String.eqb_spec y x) as [->|Hne]; simpl.
  - split; [by left|done].
  - rewrite IH. split; [tauto|]. intros [H|H]; [congruence|done].
Qed.

(** ** Counting down and expiring *)

Lemma decrement_keys retry : dict_keys (decrement retry) = dict_keys retry.
Proof. unfold decrement, dict_keys. rewrite map_map. by apply map_ext. Qed.

Lemma dict_get_decrement id retry :
  dict_get id (decrement retry) = (λ n, n - 1) <$> dict_get id retry.
Proof.
  induction retry as [|[k n] retry IH]; simpl; [done|].
  destruct (String.eqb k id); done.
Qed.

Lemma delete_all_cons_other k n ids retry :
  ¬ In k ids →
  delete_all ids ((k, n) :: retry) = (k, n) :: delete_all ids retry.
Proof.
  revert retry. induction ids as [|i ids IH]; intros retry Hn; simpl; [done|].
  destruct (String.eqb_spec k i) as [->|Hne].
  - exfalso. apply Hn. by left.
  - apply IH. intros H. apply Hn. by right.
Qed.

(** On a table without duplicate keys, deleting the expired ids keeps the
    bindings whose count is still positive. *)
Lemma delete_expired retry :
  NoDup (dict_keys retry) →
  delete_all (expired_ids retry) retry
  = List.filter (λ kv, negb (snd kv <? 1)) retry.
Proof.
  unfold expired_ids, dict_keys.
  induction retry as [|[k n] retry IH]; simpl; [done|].
  intros [Hn Hd]%NoDup_cons. destruct (n <? 1) eqn:E; simpl.
  - rewrite String.eqb_refl. by apply IH.
  - rewrite delete_all_cons_other; [by rewrite IH|].
    intros Hin. apply Hn, list_elem_of_In.
    apply in_map_iff in Hin as ([k' n'] & <- & Hin).
    apply filter_In in Hin as [Hin _]. apply in_map_iff. by exists (k', n').
Qed.

Lemma dict_get_filter (P : Z → bool) id retry :
  NoDup (dict_keys retry) →
  dict_get id (List.filter (λ kv, P (snd kv)) retry)
  = match dict_get id retry with
    | Some n => if P n then Some n else None
    | None => None
    end.
Proof.
  unfold dict_keys.
  induction retry as [|[k n] retry IH]; simpl; [done|].
  intros [Hn Hd]%NoDup_cons.
  destruct (String.eqb_spec k id) as [->|Hne].
  - destruct (P n); simpl; [by rewrite String.eqb_refl|].
    rewrite IH by done.
    assert (dict_get id retry = None) as ->; [|done].
    apply dict_get_None. by rewrite <- list_elem_of_In.
  - destruct (P n); simpl; [|by apply IH].
    destruct (String.eqb_spec k id); [done|]. by apply IH.
Qed.

Lemma filter_keys_nodup (P : string * Z → bool) retry :
  NoDup (dict_keys retry) → NoDup (dict_keys (List.filter P retry)).
Proof.
  unfold dict_keys.
  induction retry as [|[k n] retry IH]; simpl; [done|].
  intros [Hn Hd]%NoDup_cons. destruct (P (k, n)); simpl; [|by apply IH].
  apply NoDup_cons. split; [|by apply IH].
  intros Hin%list_elem_of_In. apply Hn, list_elem_of_In.
  apply in_map_iff in Hin as ([k' n'] & Hk & Hin).
  apply filter_In in Hin as [Hin _]. apply in_map_iff. by exists (k', n').
Qed.

Lemma countdown_get id retry :
  NoDup (dict_keys retry) →
  dict_get id (countdown retry)
  = match dict_get id retry with
    | Some n => if n - 1 <? 1 then None else Some (n - 1)
    | None => None
    end.
Proof.
  intros Hd. unfold countdown.
  rewrite delete_expired by (by rewrite decrement_keys).
  rewrite (dict_get_filter (λ n, negb (n <? 1))) by (by rewrite decrement_keys).
  rewrite dict_get_decrement. destruct (dict_get id retry) as [n|]; simpl; [|done].
  by destruct (n - 1 <? 1).
Qed.

Lemma countdown_nodup retry :
  NoDup (dict_keys retry) → NoDup (dict_keys (countdown retry)).
Proof.
  intros Hd. unfold countdown.
  rewrite delete_expired by (by rewrite decrement_keys).
  apply filter_keys_nodup. by rewrite decrement_keys.
Qed.

(** * The resolution pass *)

Lemma cloud_refresh_frame env w r w' :
  tuyaCloudRefresh env w = (r, w') →
  deviceslist (w_state w') = deviceslist (w_state w)
  ∧ newdevices (w_state w') = newdevices (w_state w)
  ∧ retrydevices (w_state w') = retrydevices (w_state w)
  ∧ retrytimer (w_state w') = retrytimer (w_state w)
  ∧ cloudconfig (w_state w') = cloudconfig (w_state w).
Proof.
  unfold tuyaCloudRefresh, tuyaSaveJson. exec.
  repeat (break_match; exec; simplify_eq); intros [= <- <-]; done.
Qed.

Lemma resolve_loop_cons env devid rest found w :
  resolve_loop (devid :: rest) found env w
  = if resolves (tuyadevices (w_state w)) devid then
      match dict_get devid (deviceslist (w_state w)) with
      | Some _ =>
          resolve_loop rest (found ++ [devid]) env
            {| w_state := resolved_state devid (w_state w); w_trace := w_trace w |}
      | None => (Raise, w)
      end
    else resolve_loop rest found env w.
Proof.
  cbn [resolve_loop]. unfold resolved_state, resolves, attach, with_credentials, forget.
  exec.
  destruct (lookup_credentials (tuyadevices (w_state w)) devid) as [[dname dkey] mac].
  destruct (negb (String.eqb dname EmptyString) || negb (String.eqb dkey EmptyString));
    [|done].
  destruct (dict_get devid (deviceslist (w_state w))) as [e|]; [|done].
  exec. destruct (dict_has devid (retrydevices (w_state w))); exec; [done|].
  destruct w as [[] ?]; reflexivity.
Qed.

Lemma attach_keys devs devid registry :
  dict_keys (attach devs devid registry) = dict_keys registry.
Proof.
  unfold attach. destruct (dict_get devid registry) eqn:E; [|done].
  apply dict_keys_set_present. unfold dict_has. by rewrite E.
Qed.

Lemma attach_has devs devid registry id :
  dict_has id (attach devs devid registry) = dict_has id registry.
Proof.
  destruct (dict_has id registry) eqn:E.
  - apply dict_has_In. rewrite attach_keys. by apply dict_has_In.
  - destruct (dict_has id (attach devs devid registry)) eqn:E'; [|done].
    apply dict_has_In in E'. rewrite attach_keys in E'.
    apply dict_has_In in E'. congruence.
Qed.

(** The resolution loop attaches the credentials of every pending id that
    resolves, and forgets its retry count. *)
Lemma resolve_loop_run env pending : ∀ found w,
  (∀ id, In id pending → dict_has id (deviceslist (w_state w)) = true) →
  let devs := tuyadevices (w_state w) in
  let hits := List.filter (resolves devs) pending in
  resolve_loop pending found env w
  = (Ret (found ++ hits),
     {| w_state :=
          set_retrydevices
            (fold_left (λ d id, forget id d) hits (retrydevices (w_state w)))
            (set_deviceslist
               (fold_left (λ d id, attach devs id d) hits (deviceslist (w_state w)))
               (w_state w));
        w_trace := w_trace w |}).
Proof.
  induction pending as [|devid rest IH]; intros found w Hin.
  - simpl. unfold ret. rewrite app_nil_r. destruct w as [[] ?]; reflexivity.
  - rewrite resolve_loop_cons. cbn [List.filter].
    destruct (resolves (tuyadevices (w_state w)) devid) eqn:Hr.
    + pose proof (Hin devid (or_introl eq_refl)) as Hhas. unfold dict_has in Hhas.
      destruct (dict_get devid (deviceslist (w_state w))) as [e|] eqn:He; [|done].
      rewrite IH.
      * cbn [w_state w_trace fold_left]. rewrite <- app_assoc.
        destruct w as [[] ?]; reflexivity.
      * intros id Hid. cbn [w_state]. unfold resolved_state. cbn.
        rewrite attach_has. apply Hin. by right.
    + apply IH. intros id Hid. apply Hin. by right.
Qed.

Lemma list_remove_nodup x l :
  NoDup l → In x l →
  list_remove x l = Ret (List.filter (λ y, negb (String.eqb y x)) l).
Proof.
  induction l as [|y l IH]; simpl; [done|].
  intros [Hn Hd]%NoDup_cons Hin.
  destruct (String.eqb_spec y x) as [->|Hne]; simpl.
  - f_equal. symmetry. apply forallb_filter_id, forallb_forall.
    intros z Hz. destruct (String.eqb_spec z x) as [->|]; [|done].
    exfalso. by apply Hn, list_elem_of_In.
  - rewrite IH; [done|done|]. destruct Hin; [congruence|done].
Qed.

Lemma filter_nodup (P : string → bool) l : NoDup l → NoDup (List.filter P l).
Proof.
  induction l as [|y l IH]; simpl; [done|].
  intros [Hn Hd]%NoDup_cons. destruct (P y); [|by apply IH].
  apply NoDup_cons. split; [|by apply IH].
  intros Hin%list_elem_of_In. apply filter_In in Hin as [Hin _].
  by apply Hn, list_elem_of_In.
Qed.

Lemma filter_without_cons x found l :
  List.filter (λ y, negb (list_has y found))
    (List.filter (λ y, negb (String.eqb y x)) l)
  = List.filter (λ y, negb (list_has y (x :: found))) l.
Proof.
  induction l as [|y l IHl]; simpl; [done|].
  rewrite (String.eqb_sym x y).
  destruct (String.eqb y x); simpl; [exact IHl|].
  destruct (list_has y found); simpl; [exact IHl|]. by rewrite IHl.
Qed.

(** Removing the found ids from a list that has each of them once. *)
Lemma remove_found_run env found : ∀ w,
  NoDup (newdevices (w_state w)) → NoDup found →
  (∀ id, In id found → In id (newdevices (w_state w))) →
  remove_found found env w
  = (Ret tt,
     {| w_state :=
          set_newdevices
            (List.filter (λ y, negb (list_has y found)) (newdevices (w_state w)))
            (w_state w);
        w_trace := w_trace w |}).
Proof.
  induction found as [|x found IH]; intros w Hnd Hnf Hsub.
  - simpl. unfold ret. f_equal.
    rewrite forallb_filter_id by (by apply forallb_forall).
    destruct w as [[] ?]; reflexivity.
  - apply NoDup_cons in Hnf as [Hx Hnf].
    cbn [remove_found]. exec.
    rewrite list_remove_nodup; [|done|apply Hsub; by left]. exec.
    rewrite IH; cbn [w_state w_trace set_newdevices newdevices].
    + f_equal. f_equal.
      rewrite filter_without_cons.
      destruct w as [[] ?]; reflexivity.
    + by apply filter_nodup.
    + done.
    + intros id Hid. apply filter_In. split; [apply Hsub; by right|].
      destruct (String.eqb_spec id x) as [->|]; [|done].
      exfalso. by apply Hx, list_elem_of_In.
Qed.

(** The three loops of a pass, from the state the refresh left. *)
Lemma resolution_run env w :
  NoDup (newdevices (w_state w)) →
  (∀ id, In id (newdevices (w_state w)) → dict_has id (deviceslist (w_state w)) = true) →
  (found <- resolve_loop (newdevices (w_state w)) [] ;;
   remove_found found ;;;
   modify (fun s =>
             let retry := decrement (retrydevices s) in
             set_retrydevices (delete_all (expired_ids retry) retry) s)) env w
  = (Ret tt, {| w_state := pass_outcome (w_state w); w_trace := w_trace w |}).
Proof.
  intros Hnd Hin. unfold bind at 1.
  rewrite resolve_loop_run by done. cbn [app].
  unfold bind at 1. rewrite remove_found_run; cbn [w_state w_trace].
  - unfold modify. destruct w as [[] ?]; reflexivity.
  - by destruct w as [[] ?].
  - by apply filter_nodup.
  - intros id [Hid _]%filter_In. destruct w as [[] ?]; exact Hid.
Qed.

Lemma main_loop_body_run env st tr :
  pass_runs env st = true →
  NoDup (newdevices st) →
  (∀ id, In id (newdevices st) → dict_has id (deviceslist st) = true) →
  main_loop_body env {| w_state := st; w_trace := tr |}
  = if dict_has wildcard (retrydevices st)
    then (Ret tt, {| w_state := pass_outcome st; w_trace := tr |})
    else
      match tuyaCloudRefresh env {| w_state := st; w_trace := tr |} with
      | (Ret _, w1) =>
          (Ret tt,
           {| w_state :=
                pass_outcome (set_retrytimer (clock_late env + RETRYTIME) (w_state w1));
              w_trace := w_trace w1 |})
      | (Raise, w1) => (Raise, w1)
      end.
Proof.
  intros Hgate Hnd Hin. unfold pass_runs in Hgate.
  apply andb_prop in Hgate as [Hg1 Hg2].
  unfold main_loop_body. unfold bind at 1, ask. unfold bind at 1, get.
  cbn [w_state]. rewrite Hg1, Hg2.
  destruct (dict_has wildcard (retrydevices st)) eqn:Hw; cbn [negb].
  - unfold bind at 1, ret. unfold bind at 1, get. cbn [w_state].
    apply (resolution_run env {| w_state := st; w_trace := tr |}); done.
  - unfold bind at 1. unfold bind at 1.
    destruct (tuyaCloudRefresh env {| w_state := st; w_trace := tr |})
      as [[r|] w1] eqn:Hrefresh; [|done].
    destruct (cloud_refresh_frame _ _ _ _ Hrefresh) as (Hd & Hn & Hr & Ht & Hc).
    cbn [w_state] in *. unfold modify at 1. unfold bind at 1, get. cbn [w_state].
    set (w2 := {| w_state := set_retrytimer _ _; w_trace := _ |}).
    change (newdevices (set_retrytimer (clock_late env + RETRYTIME) (w_state w1)))
      with (newdevices (w_state w2)).
    refine (resolution_run env w2 _ _).
    + subst w2. cbn. by rewrite Hn.
    + subst w2. cbn. rewrite Hn, Hd. done.
Qed.

(** ** The tables after a pass *)

Lemma list_has_filter (P : string → bool) id l :
  list_has id (List.filter P l) = list_has id l && P id.
Proof.
  induction l as [|y l IH]; simpl; [done|].
  destruct (String.eqb_spec y id) as [->|Hne]; simpl.
  - destruct (P id) eqn:E; simpl.
    + by rewrite String.eqb_refl.
    + rewrite IH. apply andb_false_r.
  - destruct (P y); simpl; [|done].
    destruct (String.eqb_spec y id); done.
Qed.

Lemma with_credentials_twice devs id e :
  with_credentials devs id (with_credentials devs id e) = with_credentials devs id e.
Proof.
  unfold with_credentials.
  by destruct (lookup_credentials devs id) as [[dname dkey] mac].
Qed.

Lemma attach_get devs x registry id :
  dict_get id (attach devs x registry)
  = if String.eqb x id then with_credentials devs id <$> dict_get id registry
    else dict_get id registry.
Proof.
  unfold attach. destruct (String.eqb_spec x id) as [->|Hne].
  - destruct (dict_get id registry) eqn:E; [|by rewrite E].
    by rewrite dict_get_set_eq.
  - destruct (dict_get x registry); [|done]. by rewrite dict_get_set_ne.
Qed.

Lemma fold_attach_get devs hits : ∀ registry id,
  dict_get id (fold_left (λ d x, attach devs x d) hits registry)
  = if list_has id hits then with_credentials devs id <$> dict_get id registry
    else dict_get id registry.
Proof.
  induction hits as [|x hits IH]; intros registry id; simpl; [done|].
  rewrite IH, attach_get.
  destruct (String.eqb x id); simpl; [|done].
  destruct (dict_get id registry) as [e|]; simpl.
  - rewrite with_credentials_twice. by destruct (list_has id hits).
  - by destruct (list_has id hits).
Qed.

Lemma forget_nodup x retry :
  NoDup (dict_keys retry) → NoDup (dict_keys (forget x retry)).
Proof.
  intros Hd. unfold forget. destruct (dict_has x retry); [|done].
  by apply dict_del_nodup.
Qed.

Lemma forget_get x retry id :
  NoDup (dict_keys retry) →
  dict_get id (forget x retry)
  = if String.eqb x id then None else dict_get id retry.
Proof.
  intros Hd. unfold forget. destruct (String.eqb_spec x id) as [->|Hne].
  - destruct (dict_has id retry) eqn:E; [by apply dict_get_del_eq|].
    unfold dict_has in E. by destruct (dict_get id retry).
  - destruct (dict_has x retry); [|done]. by apply dict_get_del_ne.
Qed.

Lemma fold_forget_nodup hits : ∀ retry,
  NoDup (dict_keys retry) →
  NoDup (dict_keys (fold_left (λ d x, forget x d) hits retry)).
Proof.
  induction hits as [|x hits IH]; intros retry Hd; simpl; [done|].
  by apply IH, forget_nodup.
Qed.

Lemma fold_forget_get hits : ∀ retry id,
  NoDup (dict_keys retry) →
  dict_get id (fold_left (λ d x, forget x d) hits retry)
  = if list_has id hits then None else dict_get id retry.
Proof.
  induction hits as [|x hits IH]; intros retry id Hd; simpl; [done|].
  rewrite IH by (by apply forget_nodup). rewrite forget_get by done.
  destruct (String.eqb x id); simpl; [|done]. by destruct (list_has id hits).
Qed.

(** The registry after a pass: the credentials are attached to the ids that
    awaited resolution and that the credential list resolves. *)
Lemma pass_outcome_registry st id :
  dict_get id (deviceslist (pass_outcome st))
  = if list_has id (newdevices st) && resolves (tuyadevices st) id
    then with_credentials (tuyadevices st) id <$> dict_get id (deviceslist st)
    else dict_get id (deviceslist st).
Proof.
  unfold pass_outcome. cbn [deviceslist].
  by rewrite fold_attach_get, list_has_filter.
Qed.

(** The ids that still await resolution after a pass. *)
Lemma pass_outcome_new st id :
  In id (newdevices (pass_outcome st))
  ↔ In id (newdevices st) ∧ resolves (tuyadevices st) id = false.
Proof.
  unfold pass_outcome. cbn [newdevices].
  rewrite filter_In, list_has_filter. split.
  - intros [Hin Hn]. split; [done|].
    apply list_has_In in Hin. rewrite Hin in Hn. simpl in Hn.
    by destruct (resolves (tuyadevices st) id).
  - intros [Hin Hr]. split; [done|]. rewrite Hr. by rewrite andb_false_r.
Qed.

(** The retry table after a pass: a resolved id is gone, the count of any
    other id went down by one, and it is gone when it fell below one. *)
Lemma pass_outcome_retry st id :
  NoDup (dict_keys (retrydevices st)) →
  dict_get id (retrydevices (pass_outcome st))
  = if list_has id (newdevices st) && resolves (tuyadevices st) id then None
    else match dict_get id (retrydevices st) with
         | Some n => if n - 1 <? 1 then None else Some (n - 1)
         | None => None
         end.
Proof.
  intros Hd. unfold pass_outcome. cbn [retrydevices].
  rewrite countdown_get by (by apply fold_forget_nodup).
  rewrite fold_forget_get by done. rewrite list_has_filter.
  by destruct (list_has id (newdevices st) && resolves (tuyadevices st) id).
Qed.

Lemma pass_outcome_fields st :
  tuyadevices (pass_outcome st) = tuyadevices st
  ∧ retrytimer (pass_outcome st) = retrytimer st
  ∧ cloudconfig (pass_outcome st) = cloudconfig st.
Proof. done. Qed.

(** ** What a request leaves alone *)

Lemma frame_refl st : frame st st.
Proof. unfold frame. tauto. Qed.

Lemma frame_trans st1 st2 st3 : frame st1 st2 → frame st2 st3 → frame st1 st3.
Proof.
  unfold frame. intros (Hd1 & Hn1 & Hr1) (Hd2 & Hn2 & Hr2).
  split; [congruence|]. split; [congruence|].
  destruct Hr1 as [Hr1|Hr1], Hr2 as [Hr2|Hr2]; rewrite Hr2, Hr1; auto.
  right. apply dict_set_twice.
Qed.

Lemma framed_ret {A} (a : A) : framed (ret a).
Proof. intros env w. apply frame_refl. Qed.

Lemma framed_raise {A} : framed (@raise A).
Proof. intros env w. apply frame_refl. Qed.

Lemma framed_lift {A} (r : exc A) : framed (lift r).
Proof. intros env w. apply frame_refl. Qed.

Lemma framed_ask : framed ask.
Proof. intros env w. apply frame_refl. Qed.

Lemma framed_get : framed get.
Proof. intros env w. apply frame_refl. Qed.

Lemma framed_emit e : framed (emit e).
Proof. intros env w. apply frame_refl. Qed.

Lemma framed_call c : framed (call_device c).
Proof. intros env w. apply frame_refl. Qed.

Lemma framed_bind {A B} (m : M A) (k : A → M B) :
  framed m → (∀ a, framed (k a)) → framed (bind m k).
Proof.
  intros Hm Hk env w. unfold bind. specialize (Hm env w).
  destruct (m env w) as [[a|] w1]; [|done].
  eapply frame_trans; [exact Hm|apply Hk].
Qed.

Lemma framed_try {A} (m h : M A) : framed m → framed h → framed (try_except m h).
Proof.
  intros Hm Hh env w. unfold try_except. specialize (Hm env w).
  destruct (m env w) as [[a|] w1]; [done|].
  eapply frame_trans; [exact Hm|apply Hh].
Qed.

Lemma framed_modify f : (∀ st, frame st (f st)) → framed (modify f).
Proof. intros Hf env w. apply Hf. Qed.

Create HintDb framed.
#[local] Hint Resolve framed_ret framed_raise framed_lift framed_ask framed_get
  framed_emit framed_call framed_try : framed.

Ltac framed_step :=
  first
    [ apply framed_bind; [|intros ?]
    | apply framed_try
    | apply framed_modify; intros ?; unfold frame; cbn; tauto
    | solve [auto with framed]
    | match goal with
      | |- framed (match ?x with _ => _ end) => destruct x
      | |- framed (if ?b then _ else _) => destruct b
      | |- framed (let '(_, _) := ?x in _) => destruct x
      end ].

Lemma framed_cloud_refresh : framed tuyaCloudRefresh.
Proof. unfold tuyaCloudRefresh, tuyaSaveJson. repeat framed_step. Qed.

Lemma framed_force_resolve : framed force_resolve.
Proof. unfold force_resolve. repeat framed_step. Qed.

Lemma framed_do_GET path : framed (do_GET path).
Proof.
  unfold do_GET, body, do_set, do_device, do_turnoff, do_turnon, do_delayoff,
    do_status, do_sync, do_cloudconfig, coerce_value, resolve_id,
    getDeviceIdByName, open_device, delay_seconds, split_switch.
  repeat first [apply framed_cloud_refresh | apply framed_force_resolve | framed_step].
Qed.

(** ** Consistency of the tables *)

Lemma consistent_initial devs cfg : consistent (initial devs cfg).
Proof.
  split; simpl; try done; try apply NoDup_nil_2.
Qed.

Lemma consistent_pass_outcome st : consistent st → consistent (pass_outcome st).
Proof.
  intros [Hrd Hnd Hnew Hrn Hb]. split.
  - unfold pass_outcome. cbn [retrydevices].
    by apply countdown_nodup, fold_forget_nodup.
  - unfold pass_outcome. cbn [newdevices]. by apply filter_nodup.
  - intros id [Hin Hr]%pass_outcome_new.
    rewrite pass_outcome_registry, Hr, andb_false_r. by apply Hnew.
  - intros id n Hget Hne. rewrite pass_outcome_retry in Hget by done.
    destruct (list_has id (newdevices st) && resolves (tuyadevices st) id) eqn:E;
      [done|].
    destruct (dict_get id (retrydevices st)) as [m|] eqn:Hm; [|done].
    pose proof (Hrn id m Hm Hne) as Hin.
    apply pass_outcome_new. split; [done|].
    apply list_has_In in Hin. rewrite Hin in E. done.
  - intros id n Hget. rewrite pass_outcome_retry in Hget by done.
    destruct (list_has id (newdevices st) && resolves (tuyadevices st) id); [done|].
    destruct (dict_get id (retrydevices st)) as [m|] eqn:Hm; [|done].
    pose proof (Hb id m Hm). destruct (m - 1 <? 1) eqn:E; [done|].
    injection Hget as <-. apply Z.ltb_ge in E. lia.
Qed.

(** Consistency speaks of the three tables only. *)
Lemma consistent_tables st st' :
  deviceslist st' = deviceslist st → newdevices st' = newdevices st →
  retrydevices st' = retrydevices st →
  consistent st → consistent st'.
Proof.
  intros Hd Hn Hr [Hrd Hnd Hnew Hrn Hb].
  split; rewrite ?Hd, ?Hn, ?Hr; done.
Qed.

Lemma consistent_frame st st' : frame st st' → consistent st → consistent st'.
Proof.
  intros (Hd & Hn & [Hr|Hr]) Hc; [by apply (consistent_tables st)|].
  destruct Hc as [Hrd Hnd Hnew Hrn Hb].
  split; rewrite ?Hd, ?Hn, ?Hr; try done.
  - by apply dict_set_nodup.
  - intros id n Hget Hne. rewrite dict_get_set_ne in Hget by done. by eapply Hrn.
  - intros id n Hget. destruct (String.eqb_spec wildcard id) as [<-|Hne].
    + rewrite dict_get_set_eq in Hget. injection Hget as <-. unfold RETRYCOUNT. lia.
    + rewrite dict_get_set_ne in Hget by done. by eapply Hb.
Qed.

Lemma consistent_listener addr p st :
  consistent st → consistent (tuyalisten_packet addr p st).
Proof.
  intros Hc. unfold tuyalisten_packet.
  destruct (decode_result addr p) as [result0 gwId].
  destruct (lookup_credentials (tuyadevices st) gwId) as [[dname dkey] mac].
  unfold appenddevice. cbn [e_id].
  destruct (dict_has gwId (deviceslist st)) eqn:Hknown; cbn [negb].
  { by apply (consistent_tables st). }
  destruct Hc as [Hrd Hnd Hnew Hrn Hb].
  assert (∀ id, In id (newdevices st) → id ≠ gwId) as Hfresh.
  { intros id Hin ->. destruct (Hnew _ Hin) as (e & He & _).
    unfold dict_has in Hknown. by rewrite He in Hknown. }
  cbn [newdevices set_deviceslist e_id].
  destruct (String.eqb_spec dname EmptyString) as [->|]; cbn [andb].
  2: { split; cbn; try done. intros id Hin.
       rewrite dict_get_set_ne by (intros Heq; by apply (Hfresh id Hin)). by apply Hnew. }
  destruct (String.eqb_spec dkey EmptyString) as [->|]; cbn [andb].
  2: { split; cbn; try done. intros id Hin.
       rewrite dict_get_set_ne by (intros Heq; by apply (Hfresh id Hin)). by apply Hnew. }
  destruct (list_has gwId (newdevices st)) eqn:Hhas; cbn [negb].
  { apply list_has_In in Hhas. by destruct (Hfresh gwId Hhas). }
  split; cbn.
  - by apply dict_set_nodup.
  - apply NoDup_app. split; [done|]. split; [|apply NoDup_singleton].
    intros x Hx%list_elem_of_In [->|[]]%list_elem_of_In. by apply (Hfresh x).
  - intros id [Hin|[<-|[]]]%in_app_or.
    + rewrite dict_get_set_ne by (intros Heq; by apply (Hfresh id Hin)). by apply Hnew.
    + rewrite dict_get_set_eq. by eexists.
  - intros id n Hget Hne. apply in_or_app.
    destruct (String.eqb_spec gwId id) as [<-|Hne']; [right; by left|].
    rewrite dict_get_set_ne in Hget by done. left. by eapply Hrn.
  - intros id n Hget. destruct (String.eqb_spec gwId id) as [<-|Hne'].
    + rewrite dict_get_set_eq in Hget. injection Hget as <-. unfold RETRYCOUNT. lia.
    + rewrite dict_get_set_ne in Hget by done. by eapply Hb.
Qed.

Lemma consistent_other_step st st' : other_step st st' → consistent st → consistent st'.
Proof.
  destruct 1 as [addr p st|path env st].
  - apply consistent_listener.
  - apply consistent_frame.
    apply (framed_do_GET path env {| w_state := st; w_trace := [] |}).
Qed.

(** A pass ends in the outcome of the state that the refresh left, and
    the refresh leaves the three tables alone; a pass forced by the
    wildcard starts from the state itself and calls no collaborator. *)
Lemma pass_inv env st st' :
  consistent st → pass env st st' →
  ∃ st1, st' = pass_outcome st1
         ∧ deviceslist st1 = deviceslist st
         ∧ newdevices st1 = newdevices st
         ∧ retrydevices st1 = retrydevices st
         ∧ (dict_has wildcard (retrydevices st) = true →
            st1 = st
            ∧ run main_loop_body env st = (Ret tt, {| w_state := st'; w_trace := [] |})).
Proof.
  intros Hc (Hgate & tr & Hrun). unfold run in Hrun.
  assert (∀ id, In id (newdevices st) → dict_has id (deviceslist st) = true) as Hin.
  { intros id Hid. destruct (new_unresolved st Hc id Hid) as (e & He & _).
    unfold dict_has. by rewrite He. }
  rewrite main_loop_body_run in Hrun by (try done; apply Hc).
  destruct (dict_has wildcard (retrydevices st)) eqn:Hw.
  - injection Hrun as <- <-. exists st. repeat split; try done.
    unfold run. rewrite main_loop_body_run by (try done; apply Hc).
    by rewrite Hw.
  - destruct (tuyaCloudRefresh env {| w_state := st; w_trace := [] |})
      as [[r|] w1] eqn:Hrefresh; [|done].
    destruct (cloud_refresh_frame _ _ _ _ Hrefresh) as (Hd & Hn & Hr & _).
    injection Hrun as <- <-. eexists. split; [reflexivity|]. cbn. done.
Qed.

Lemma consistent_pass env st st' : consistent st → pass env st st' → consistent st'.
Proof.
  intros Hc Hp. destruct (pass_inv env st st' Hc Hp) as (st1 & -> & Hd & Hn & Hr & _).
  apply consistent_pass_outcome. by apply (consistent_tables st).
Qed.

Lemma consistent_run n st st' : run_passes n st st' → consistent st → consistent st'.
Proof.
  induction 1 as [st|n st st1 st2 Hs Hr IH|n env st st1 st2 Hp Hr IH]; intros Hc.
  - done.
  - by apply IH, (consistent_other_step st).
  - by apply IH, (consistent_pass env st).
Qed.

(** * The claims about the retry resolver *)

Lemma dict_has_get {V} id (d : list (string * V)) :
  dict_has id d = true ↔ ∃ v, dict_get id d = Some v.
Proof.
  unfold dict_has. destruct (dict_get id d); split; try done; eauto.
  by intros [? ?].
Qed.

Lemma consistent_reachable st : reachable st → consistent st.
Proof.
  intros (devs & cfg & n & Hrun).
  apply (consistent_run n _ _ Hrun), consistent_initial.
Qed.

Lemma sync_arms_wildcard env st :
  fst (run (do_GET "/sync") env st) ≠ Raise →
  cloud_refreshes (w_trace (snd (run (do_GET "/sync") env st))) = 1%nat
  ∧ dict_get wildcard (retrydevices (w_state (snd (run (do_GET "/sync") env st))))
    = Some 1.
Proof.
  assert (do_GET "/sync" = body do_sync) as -> by reflexivity.
  unfold run, body, do_sync, force_resolve, tuyaCloudRefresh, tuyaSaveJson. exec.
  repeat (break_match; exec; simplify_eq); cbn; intros Hr; try done.
  all: split; [reflexivity|apply dict_get_set_eq].
Qed.

Lemma cloudconfig_arms_wildcard env st rest cfgstr k s g d :
  index1 (Str.split ("/cloudconfig/" +:+ rest) "/cloudconfig/") = Ret cfgstr →
  Str.split cfgstr "/" = [k; s; g; d] →
  fst (run (do_GET ("/cloudconfig/" +:+ rest)) env st) ≠ Raise →
  cloud_refreshes (w_trace (snd (run (do_GET ("/cloudconfig/" +:+ rest)) env st)))
  = 1%nat
  ∧ dict_get wildcard
      (retrydevices (w_state (snd (run (do_GET ("/cloudconfig/" +:+ rest)) env st))))
    = Some 1.
Proof.
  intros Htok Hsplit. set (path := "/cloudconfig/" +:+ rest) in *.
  assert (do_GET path = body (do_cloudconfig path)) as -> by reflexivity.
  unfold run, body, do_cloudconfig, force_resolve, tuyaCloudRefresh, tuyaSaveJson.
  exec. rewrite Htok, Hsplit. exec.
  repeat (break_match; exec; simplify_eq); cbn; intros Hr; try done.
  all: split; [reflexivity|apply dict_get_set_eq].
Qed.

(** ** Attaching credentials *)

Lemma resolves_first_record devs id :
  resolves devs id = true →
  ∃ r, first_record devs id r
       ∧ lookup_credentials devs id = (c_name r, c_key r, mac_or_empty r).
Proof.
  unfold resolves, lookup_credentials, first_record.
  induction devs as [|[x|v] devs IH]; simpl; [done| |done].
  destruct (String.eqb_spec id (c_id x)) as [Heq|Hne].
  - intros _. exists x. split; [|done]. exists [], devs. by repeat split.
  - intros H. destruct (IH H) as (r & (before & after & -> & Hb & Hid) & Hl).
    exists r. split; [|done]. exists (TDict x :: before), after.
    split; [done|]. split; [|done]. constructor; [|done]. simpl. congruence.
Qed.

Lemma with_credentials_attached devs id e :
  resolves devs id = true →
  ∃ r, first_record devs id r ∧ attached r e (with_credentials devs id e).
Proof.
  intros H. destruct (resolves_first_record devs id H) as (r & Hr & Hl).
  exists r. split; [done|]. unfold with_credentials. rewrite Hl.
  by repeat split.
Qed.

Lemma first_record_single r0 id r : first_record [TDict r0] id r → r = r0.
Proof.
  intros (before & after & Heq & _). destruct before as [|x before]; simpl in Heq.
  - by injection Heq.
  - injection Heq as _ Heq. by destruct before.
Qed.

(** C4, as amended.  Whenever the wildcard is in the retry table, the next
    iteration of the main loop (a) passes the gate whatever the timer says,
    (b) runs to its end without entering [tuyaCloudRefresh] or calling any
    collaborator, the refresh being the business of the request that armed
    the wildcard, (c) looks up every id of the list of new devices, in
    which every id of the retry table other than the wildcard is, whatever
    its count: where the credential list has a name or a key for
    the id, the registry entry gets the name, the key and the mac of the
    first record of that id (an empty mac when the record has none) and
    keeps its other fields, and the id leaves the retry table and the new
    devices; where it has none, the entry and the membership stay; and (d)
    counts the wildcard down like every entry: with the count 1 it is
    removed, a larger count is lowered by one, unless the wildcard is
    itself the id of a new device that is resolved.  [/sync], and
    [/cloudconfig] with four parts, enter [tuyaCloudRefresh] once (when it
    returns) and arm the wildcard with the count 1. *)
Theorem forced_pass env st n :
  reachable st →
  dict_get wildcard (retrydevices st) = Some n →
  pass_runs env st = true
  ∧ (∀ id m, id ≠ wildcard → dict_get id (retrydevices st) = Some m →
             In id (newdevices st))
  ∧ (∃ st',
       run main_loop_body env st = (Ret tt, {| w_state := st'; w_trace := [] |})
       ∧ tuyadevices st' = tuyadevices st
       ∧ (∀ id, In id (newdevices st) →
            ∃ e, dict_get id (deviceslist st) = Some e
                 ∧ (resolves (tuyadevices st) id = true →
                    (∃ r e', first_record (tuyadevices st) id r
                             ∧ dict_get id (deviceslist st') = Some e'
                             ∧ attached r e e')
                    ∧ dict_get id (retrydevices st') = None
                    ∧ ¬ In id (newdevices st'))
                 ∧ (resolves (tuyadevices st) id = false →
                    dict_get id (deviceslist st') = Some e
                    ∧ In id (newdevices st')))
       ∧ dict_get wildcard (retrydevices st')
         = if (n =? 1)
              || (list_has wildcard (newdevices st)
                  && resolves (tuyadevices st) wildcard)
           then None else Some (n - 1))
  ∧ (∀ env0 st0,
       fst (run (do_GET "/sync") env0 st0) ≠ Raise →
       cloud_refreshes (w_trace (snd (run (do_GET "/sync") env0 st0))) = 1%nat
       ∧ dict_get wildcard
           (retrydevices (w_state (snd (run (do_GET "/sync") env0 st0))))
         = Some 1)
  ∧ (∀ env0 st0 rest cfgstr k s g d,
       index1 (Str.split ("/cloudconfig/" +:+ rest) "/cloudconfig/") = Ret cfgstr →
       Str.split cfgstr "/" = [k; s; g; d] →
       fst (run (do_GET ("/cloudconfig/" +:+ rest)) env0 st0) ≠ Raise →
       cloud_refreshes
         (w_trace (snd (run (do_GET ("/cloudconfig/" +:+ rest)) env0 st0))) = 1%nat
       ∧ dict_get wildcard
           (retrydevices
              (w_state (snd (run (do_GET ("/cloudconfig/" +:+ rest)) env0 st0))))
         = Some 1).
Proof.
  intros Hc%consistent_reachable Hw.
  assert (dict_has wildcard (retrydevices st) = true) as Hhas.
  { unfold dict_has. by rewrite Hw. }
  assert (pass_runs env st = true) as Hgate.
  { unfold pass_runs. rewrite Hhas, orb_true_r. simpl.
    destruct (retrydevices st); [done|]. reflexivity. }
  assert (∀ id, In id (newdevices st) → dict_has id (deviceslist st) = true) as Hin.
  { intros id Hid. destruct (new_unresolved st Hc id Hid) as (e & He & _).
    unfold dict_has. by rewrite He. }
  split; [exact Hgate|].
  split; [intros id m Hne Hget; by apply (retry_is_new st Hc id m)|].
  split; [|split; [apply sync_arms_wildcard|apply cloudconfig_arms_wildcard]].
  exists (pass_outcome st). split.
  { unfold run. rewrite main_loop_body_run by (try done; apply Hc). by rewrite Hhas. }
  split; [done|]. split.
  - intros id Hnew.
    destruct (new_unresolved st Hc id Hnew) as (e & He & _).
    pose proof Hnew as Hl. apply list_has_In in Hl.
    exists e. split; [done|]. split.
    + intros Hres.
      rewrite pass_outcome_registry, pass_outcome_retry by apply Hc.
      rewrite Hl, Hres, He. simpl. split; [|split; [done|]].
      * destruct (with_credentials_attached (tuyadevices st) id e Hres)
          as (r & Hr & Ha).
        by exists r, (with_credentials (tuyadevices st) id e).
      * intros [_ Hf]%pass_outcome_new. congruence.
    + intros Hres. rewrite pass_outcome_registry, Hres, andb_false_r.
      split; [done|]. by apply pass_outcome_new.
  - pose proof (retry_bounds st Hc wildcard n Hw) as Hn.
    rewrite pass_outcome_retry by apply Hc. rewrite Hw.
    destruct (list_has wildcard (newdevices st) && resolves (tuyadevices st) wildcard);
      [by rewrite orb_true_r|].
    rewrite orb_false_r.
    destruct (Z.eqb_spec n 1), (Z.ltb_spec (n - 1) 1); try done; lia.
Qed.

(** C4, as stated, fails at (b): a device without credentials is pending
    and [/sync] has armed the wildcard; the pass that follows does not enter
    [tuyaCloudRefresh] at all. *)
Lemma forced_pass_skips_refresh :
  dict_get wildcard (retrydevices sync_requested) = Some 1
  ∧ cloud_refreshes (w_trace (snd (run main_loop_body plain_env sync_requested))) = 0%nat
  ∧ ¬ forced_pass_refreshes_once plain_env sync_requested.
Proof.
  split; [reflexivity|]. split; [reflexivity|].
  unfold forced_pass_refreshes_once. vm_compute. discriminate.
Qed.

(** ** Bounded retries *)

Lemma listener_tables addr p st id :
  dict_has id (deviceslist st) = true →
  dict_has id (deviceslist (tuyalisten_packet addr p st)) = true
  ∧ dict_get id (retrydevices (tuyalisten_packet addr p st))
    = dict_get id (retrydevices st)
  ∧ (In id (newdevices st) → In id (newdevices (tuyalisten_packet addr p st))).
Proof.
  intros Hhas. unfold tuyalisten_packet.
  destruct (decode_result addr p) as [result0 gwId].
  destruct (lookup_credentials (tuyadevices st) gwId) as [[dname dkey] mac].
  unfold appenddevice. cbn [e_id].
  destruct (dict_has gwId (deviceslist st)) eqn:Hknown; cbn [negb]; [done|].
  assert (gwId ≠ id) as Hne by (intros ->; congruence).
  assert (dict_has id (dict_set gwId
            {| e_ip := e_ip result0; e_version := e_version result0;
               e_other := e_other result0; e_name := dname; e_mac := mac;
               e_key := dkey; e_id := gwId |} (deviceslist st)) = true) as Hhas'.
  { unfold dict_has in *. by rewrite dict_get_set_ne. }
  destruct (_ && _); cbn; [|done].
  rewrite dict_get_set_ne by done. split; [done|]. split; [done|].
  intros Hin. apply in_or_app. by left.
Qed.

Lemma frame_tables st st' id :
  frame st st' → id ≠ wildcard →
  dict_has id (deviceslist st') = dict_has id (deviceslist st)
  ∧ dict_get id (retrydevices st') = dict_get id (retrydevices st)
  ∧ newdevices st' = newdevices st.
Proof.
  intros (Hd & Hn & Hr) Hne. rewrite Hd, Hn. split; [done|]. split; [|done].
  destruct Hr as [->| ->]; [done|].
  apply dict_get_set_ne. congruence.
Qed.

Lemma other_step_tables st st' id :
  other_step st st' → id ≠ wildcard → dict_has id (deviceslist st) = true →
  dict_has id (deviceslist st') = true
  ∧ dict_get id (retrydevices st') = dict_get id (retrydevices st)
  ∧ (In id (newdevices st) → In id (newdevices st')).
Proof.
  destruct 1 as [addr p st|path env st]; intros Hne Hhas.
  - by apply listener_tables.
  - pose proof (framed_do_GET path env {| w_state := st; w_trace := [] |}) as Hf.
    unfold run. destruct (frame_tables _ _ id Hf Hne) as (-> & -> & ->). done.
Qed.

Lemma pass_outcome_has st id :
  dict_has id (deviceslist (pass_outcome st)) = dict_has id (deviceslist st).
Proof.
  unfold dict_has. rewrite pass_outcome_registry.
  destruct (list_has id (newdevices st) && resolves (tuyadevices st) id); [|done].
  by destruct (dict_get id (deviceslist st)).
Qed.

(** A pass takes one retry from every id that stays in the retry table. *)
Lemma pass_budget env st st' id :
  consistent st → pass env st st' →
  budget id st' ≤ Z.max 0 (budget id st - 1)
  ∧ dict_has id (deviceslist st') = dict_has id (deviceslist st).
Proof.
  intros Hc Hp.
  destruct (pass_inv env st st' Hc Hp) as (st1 & -> & Hd & Hn & Hr & _).
  split; [|by rewrite pass_outcome_has, Hd].
  unfold budget. rewrite pass_outcome_retry by (rewrite Hr; apply Hc).
  rewrite Hr.
  destruct (list_has id (newdevices st1) && resolves (tuyadevices st1) id); [lia|].
  destruct (dict_get id (retrydevices st)) as [n|]; [|lia].
  destruct (n - 1 <? 1); lia.
Qed.

Lemma run_budget id n st st' :
  run_passes n st st' →
  consistent st → id ≠ wildcard → dict_has id (deviceslist st) = true →
  budget id st' ≤ Z.max 0 (budget id st - Z.of_nat n).
Proof.
  induction 1 as [st|n st st1 st2 Hs Hr IH|n env st st1 st2 Hp Hr IH];
    intros Hc Hne Hhas.
  - lia.
  - destruct (other_step_tables st st1 id Hs Hne Hhas) as (Hhas1 & Hget & _).
    specialize (IH (consistent_other_step _ _ Hs Hc) Hne Hhas1).
    unfold budget in *. rewrite Hget in IH. exact IH.
  - destruct (pass_budget env st st1 id Hc Hp) as [Hb Hhas1].
    rewrite Hhas in Hhas1.
    specialize (IH (consistent_pass _ _ _ Hc Hp) Hne Hhas1). lia.
Qed.

(** How an id leaves the retry table in a pass: its credentials were found
    and attached, or its last retry was used up and its entry is as it was. *)
Lemma pass_removal env st st' id :
  consistent st → pass env st st' → id ≠ wildcard →
  dict_has id (retrydevices st) = true →
  dict_has id (retrydevices st') = false →
  ∃ e, dict_get id (deviceslist st) = Some e
       ∧ e_name e = EmptyString ∧ e_key e = EmptyString
       ∧ ((resolves (tuyadevices st') id = true
           ∧ ∃ r e', first_record (tuyadevices st') id r
                     ∧ dict_get id (deviceslist st') = Some e'
                     ∧ attached r e e')
          ∨ (resolves (tuyadevices st') id = false
             ∧ dict_get id (retrydevices st) = Some 1
             ∧ dict_get id (deviceslist st') = Some e
             ∧ In id (newdevices st'))).
Proof.
  intros Hc Hp Hne [n Hget]%dict_has_get Hgone.
  pose proof (retry_is_new st Hc id n Hget Hne) as Hnew.
  destruct (new_unresolved st Hc id Hnew) as (e & He & Hname & Hkey).
  pose proof (retry_bounds st Hc id n Hget) as Hn.
  destruct (pass_inv env st st' Hc Hp) as (st1 & -> & Hd & Hnw & Hr & _).
  exists e. split; [done|]. split; [done|]. split; [done|].
  unfold dict_has in Hgone.
  rewrite pass_outcome_retry in Hgone by (rewrite Hr; apply Hc).
  rewrite pass_outcome_registry, pass_outcome_new.
  cbn [pass_outcome tuyadevices]. rewrite Hr, Hnw, Hd, Hget, He in *.
  apply list_has_In in Hnew. rewrite Hnew in *. cbn [andb] in *.
  destruct (resolves (tuyadevices st1) id) eqn:Hres.
  { left. split; [done|].
    destruct (with_credentials_attached (tuyadevices st1) id e Hres)
      as (r & Hfirst & Ha).
    by exists r, (with_credentials (tuyadevices st1) id e). }
  right.
  destruct (n - 1 <? 1) eqn:E; [|done]. apply Z.ltb_lt in E.
  assert (n = 1) as -> by lia. apply list_has_In in Hnew. done.
Qed.

(** C5.  An id other than the wildcard that is in the retry table with the
    budget [RETRYCOUNT] is out of the table after [RETRYCOUNT] resolution
    passes, whatever the listeners and the requests do in between, and it
    stays out.  Whenever a pass removes it, either the credential list
    resolved it and its registry entry now carries the name, the key and
    the mac of the first record of the id (an empty mac when the record has
    none), its other fields being what they were (Resolved), or its count
    was 1 and its registry entry is still there, with empty name and key
    (Expired). *)
Theorem pending_removed_within_budget st id :
  reachable st → id ≠ wildcard →
  dict_get id (retrydevices st) = Some RETRYCOUNT →
  (∀ n st', (Z.to_nat RETRYCOUNT ≤ n)%nat → run_passes n st st' →
            dict_get id (retrydevices st') = None)
  ∧ (∀ n st1 env st2,
       run_passes n st st1 → pass env st1 st2 →
       dict_has id (retrydevices st1) = true →
       dict_has id (retrydevices st2) = false →
       ∃ e, dict_get id (deviceslist st1) = Some e
            ∧ e_name e = EmptyString ∧ e_key e = EmptyString
            ∧ ((resolves (tuyadevices st2) id = true
                ∧ ∃ r e', first_record (tuyadevices st2) id r
                          ∧ dict_get id (deviceslist st2) = Some e'
                          ∧ attached r e e')
               ∨ (resolves (tuyadevices st2) id = false
                  ∧ dict_get id (retrydevices st1) = Some 1
                  ∧ dict_get id (deviceslist st2) = Some e
                  ∧ In id (newdevices st2)))).
Proof.
  intros Hreach Hne Hget. pose proof (consistent_reachable st Hreach) as Hc.
  split.
  - intros n st' Hn Hrun.
    pose proof (retry_is_new st Hc id _ Hget Hne) as Hnew.
    destruct (new_unresolved st Hc id Hnew) as (e & He & _).
    assert (dict_has id (deviceslist st) = true) as Hhas.
    { unfold dict_has. by rewrite He. }
    pose proof (run_budget id n st st' Hrun Hc Hne Hhas) as Hb.
    pose proof (consistent_run n st st' Hrun Hc) as Hc'.
    unfold budget in Hb. rewrite Hget in Hb.
    destruct (dict_get id (retrydevices st')) as [m|] eqn:Hm; [|done].
    pose proof (retry_bounds st' Hc' id m Hm). unfold RETRYCOUNT in *. lia.
  - intros n st1 env st2 Hrun Hp Hin Hout.
    apply (pass_removal env st1 st2 id); try done.
    by apply (consistent_run n st st1).
Qed.

(** ** Resolution after expiry *)

(** C10.  In a pass, an id that awaits resolution and that the credential
    list does not resolve stays in the list of new devices, also when its
    last retry is used up and it leaves the retry table; the listeners and
    the requests never take it out of that list.  So a later pass, which
    runs only while the retry table is not empty, still looks it up: when
    the credential list then resolves it, its registry entry gets the
    name, the key and the mac of the first record of the id (an empty mac
    when the record has none) and keeps its other fields, with or without
    a retry count, and only then it leaves the list of new devices. *)
Theorem expired_id_still_resolved env st st' id :
  reachable st → pass env st st' → In id (newdevices st) →
  (resolves (tuyadevices st') id = false →
     In id (newdevices st')
     ∧ (dict_get id (retrydevices st) = Some 1 →
        dict_get id (retrydevices st') = None))
  ∧ (∀ st2, id ≠ wildcard → other_step st st2 → In id (newdevices st2))
  ∧ (resolves (tuyadevices st') id = true →
     ∃ e, dict_get id (deviceslist st) = Some e
          ∧ e_name e = EmptyString ∧ e_key e = EmptyString
          ∧ (∃ r e', first_record (tuyadevices st') id r
                     ∧ dict_get id (deviceslist st') = Some e'
                     ∧ attached r e e')
          ∧ ¬ In id (newdevices st')).
Proof.
  intros Hreach Hp Hnew. pose proof (consistent_reachable st Hreach) as Hc.
  destruct (new_unresolved st Hc id Hnew) as (e & He & Hname & Hkey).
  destruct (pass_inv env st st' Hc Hp) as (st1 & -> & Hd & Hnw & Hr & _).
  cbn [pass_outcome tuyadevices].
  split; [|split].
  - intros Hres. split.
    + apply pass_outcome_new. by rewrite Hnw.
    + intros Hget. rewrite pass_outcome_retry by (rewrite Hr; apply Hc).
      rewrite Hres, andb_false_r, Hr, Hget. reflexivity.
  - intros st2 Hne Hs.
    assert (dict_has id (deviceslist st) = true) as Hhas.
    { unfold dict_has. by rewrite He. }
    by apply (other_step_tables st st2 id Hs Hne Hhas).
  - intros Hres. exists e. split; [done|]. split; [done|]. split; [done|].
    rewrite pass_outcome_registry, pass_outcome_new, Hnw, Hd, He, Hres.
    apply list_has_In in Hnew. rewrite Hnew. simpl. split.
    + destruct (with_credentials_attached (tuyadevices st1) id e Hres)
        as (r & Hfirst & Ha).
      by exists r, (with_credentials (tuyadevices st1) id e).
    + intros [_ Hf]. discriminate Hf.
Qed.

(** A pass that passes the gate runs to its end unless the refresh raises. *)
Lemma pass_total env st :
  consistent st → pass_runs env st = true →
  dict_has wildcard (retrydevices st) = true
  ∨ fst (run tuyaCloudRefresh env st) ≠ Raise →
  ∃ st', pass env st st'.
Proof.
  intros Hc Hgate Hok.
  assert (∀ id, In id (newdevices st) → dict_has id (deviceslist st) = true) as Hin.
  { intros id Hid. destruct (new_unresolved st Hc id Hid) as (e & He & _).
    unfold dict_has. by rewrite He. }
  unfold pass, run in *.
  rewrite main_loop_body_run by (try done; apply Hc).
  destruct (dict_has wildcard (retrydevices st)); [by eauto|].
  destruct Hok as [|Hok]; [done|].
  destruct (tuyaCloudRefresh env {| w_state := st; w_trace := [] |}) as [[r|] w1];
    [by eauto|done].
Qed.

(** ** The sample runs *)

Lemma reachable_unknown_seen : reachable unknown_seen.
Proof.
  exists [], no_cloudconfig, 0%nat.
  eapply passes_other; [apply listener_step|apply passes_done].
Qed.

Lemma reachable_sync_requested : reachable sync_requested.
Proof.
  exists [], no_cloudconfig, 0%nat.
  eapply passes_other; [apply listener_step|].
  eapply passes_other; [apply (request_step "/sync" plain_env)|apply passes_done].
Qed.

Lemma sample_pass env st :
  pass_runs env st = true →
  fst (run main_loop_body env st) = Ret tt →
  pass env st (after main_loop_body env st).
Proof.
  intros Hgate Hret. split; [done|].
  exists (w_trace (snd (run main_loop_body env st))). unfold after.
  destruct (run main_loop_body env st) as [r [s tr]]. simpl in *. by subst.
Qed.

Lemma five_passes : run_passes 5 unknown_seen zzz_expired.
Proof.
  eapply (passes_pass _ (env_at 0 [])); [by apply sample_pass|].
  eapply (passes_pass _ (env_at 30 [])); [by apply sample_pass|].
  eapply (passes_pass _ (env_at 60 [])); [by apply sample_pass|].
  eapply (passes_pass _ (env_at 90 [])); [by apply sample_pass|].
  eapply (passes_pass _ (env_at 120 [])); [by apply sample_pass|].
  apply passes_done.
Qed.

Lemma reachable_zzz_expired : reachable zzz_expired.
Proof.
  exists [], no_cloudconfig, 5%nat.
  eapply (passes_other _ _ unknown_seen); [apply listener_step|].
  apply five_passes.
Qed.

Lemma reachable_zzz_known : reachable zzz_known.
Proof.
  destruct reachable_zzz_expired as (devs & cfg & n & Hrun).
  exists devs, cfg, n.
  assert (∀ k s1 s2 s3, run_passes k s1 s2 → other_step s2 s3 → run_passes k s1 s3)
    as Hsnoc.
  { induction 1; intros Hs.
    - eapply passes_other; [exact Hs|apply passes_done].
    - eapply passes_other; eauto.
    - eapply passes_pass; eauto. }
  apply (Hsnoc _ _ _ _ Hrun).
  apply (request_step "/cloudconfig/k/s/eu/d" (env_at 200 [TDict zzz_record])).
Qed.

(** The device [zzz] is dropped from the retry table after five passes and
    stays in the list of new devices; once the cloud knows it, the pass
    forced by [/cloudconfig] attaches its name, key and mac. *)
Example expired_device_resolved_after_sync :
  dict_get "zzz" (retrydevices unknown_seen) = Some 5
  ∧ dict_get "zzz" (retrydevices zzz_expired) = None
  ∧ newdevices zzz_expired = ["zzz"]
  ∧ retrydevices zzz_known = [("*", 1)]
  ∧ (e_name <$> dict_get "zzz" (deviceslist zzz_known)) = Some EmptyString
  ∧ dict_get "zzz"
      (deviceslist (after main_loop_body (env_at 210 [TDict zzz_record]) zzz_known))
    = Some {| e_ip := "10.0.0.6"; e_version := Some "3.3";
              e_other := [("gwId", PStr "zzz")];
              e_name := "Lamp"; e_mac := "aa:bb"; e_key := "Z"; e_id := "zzz" |}
  ∧ newdevices (after main_loop_body (env_at 210 [TDict zzz_record]) zzz_known) = []
  ∧ retrydevices (after main_loop_body (env_at 210 [TDict zzz_record]) zzz_known) = [].
Proof. vm_compute. repeat split. Qed.

Lemma reachable_zzz_synced : reachable zzz_synced.
Proof.
  exists [], no_cloudconfig, 0%nat.
  eapply passes_other; [apply listener_step|].
  eapply passes_other;
    [apply (request_step "/cloudconfig/k/s/eu/d" (env_at 0 [TDict zzz_record]))|].
  apply passes_done.
Qed.

Lemma zzz_synced_pass :
  pass (env_at 2 [TDict zzz_record]) zzz_synced zzz_resolved.
Proof. apply sample_pass; vm_compute; reflexivity. Qed.

Lemma zzz_record_attached devs e e' r :
  devs = [TDict zzz_record] → first_record devs "zzz" r → attached r e e' →
  e_name e' = "Lamp" ∧ e_key e' = "Z" ∧ e_mac e' = "aa:bb"
  ∧ e_ip e' = e_ip e ∧ e_id e' = e_id e.
Proof.
  intros -> ->%first_record_single (Hn & Hk & Hm & Hip & _ & _ & Hid).
  by rewrite Hn, Hk, Hm.
Qed.

Lemma forced_pass_witness :
  reachable zzz_synced
  ∧ dict_get wildcard (retrydevices zzz_synced) = Some 1
  ∧ dict_get "zzz" (retrydevices zzz_synced) = Some 5
  ∧ pass_runs (env_at 2 [TDict zzz_record]) zzz_synced = true
  ∧ (∃ st',
       run main_loop_body (env_at 2 [TDict zzz_record]) zzz_synced
         = (Ret tt, {| w_state := st'; w_trace := [] |})
       ∧ dict_get wildcard (retrydevices st') = None
       ∧ dict_get "zzz" (retrydevices st') = None
       ∧ ∃ e', dict_get "zzz" (deviceslist st') = Some e'
               ∧ e_name e' = "Lamp" ∧ e_key e' = "Z" ∧ e_mac e' = "aa:bb"
               ∧ e_ip e' = "10.0.0.6" ∧ e_id e' = "zzz").
Proof.
  split; [exact reachable_zzz_synced|]. split; [reflexivity|].
  split; [reflexivity|].
  destruct (forced_pass (env_at 2 [TDict zzz_record]) zzz_synced 1
              reachable_zzz_synced eq_refl)
    as (Hgate & _ & (st' & Hrun & _ & Hall & Hgone) & _).
  split; [exact Hgate|]. exists st'. split; [exact Hrun|]. split; [exact Hgone|].
  destruct (Hall "zzz") as (e & He & Hres & _); [vm_compute; tauto|].
  destruct (Hres eq_refl) as ((r & e' & Hr & He' & Ha) & Hout & _).
  split; [exact Hout|]. exists e'. split; [exact He'|].
  vm_compute in He. injection He as <-.
  destruct (zzz_record_attached _ _ e' r eq_refl Hr Ha) as (? & ? & ? & ? & ?).
  done.
Defined.

Lemma pending_removed_within_budget_witness :
  reachable unknown_seen
  ∧ "zzz" ≠ wildcard
  ∧ dict_get "zzz" (retrydevices unknown_seen) = Some RETRYCOUNT
  ∧ dict_get "zzz" (retrydevices zzz_expired) = None
  ∧ dict_has "zzz" (retrydevices zzz_synced) = true
  ∧ dict_has "zzz" (retrydevices zzz_resolved) = false
  ∧ ∃ e', dict_get "zzz" (deviceslist zzz_resolved) = Some e'
          ∧ e_name e' = "Lamp" ∧ e_key e' = "Z" ∧ e_mac e' = "aa:bb"
          ∧ e_ip e' = "10.0.0.6" ∧ e_id e' = "zzz".
Proof.
  split; [exact reachable_unknown_seen|].
  assert ("zzz" ≠ wildcard) as Hne by discriminate.
  split; [exact Hne|]. split; [reflexivity|].
  destruct (pending_removed_within_budget unknown_seen "zzz"
              reachable_unknown_seen Hne eq_refl) as [Hgone Hhow].
  split; [apply (Hgone 5%nat); [vm_compute; lia|apply five_passes]|].
  split; [reflexivity|]. split; [reflexivity|].
  assert (run_passes 0 unknown_seen zzz_synced) as Hrun.
  { eapply passes_other;
      [apply (request_step "/cloudconfig/k/s/eu/d" (env_at 0 [TDict zzz_record]))|].
    apply passes_done. }
  destruct (Hhow 0%nat zzz_synced (env_at 2 [TDict zzz_record]) zzz_resolved
              Hrun zzz_synced_pass eq_refl eq_refl)
    as (e & He & _ & _ & [[_ (r & e' & Hr & He' & Ha)]|[Hno _]]).
  - exists e'. split; [exact He'|].
    vm_compute in He. injection He as <-.
    destruct (zzz_record_attached _ _ e' r eq_refl Hr Ha) as (? & ? & ? & ? & ?).
    done.
  - vm_compute in Hno. discriminate Hno.
Defined.

Lemma expired_id_still_resolved_witness :
  reachable zzz_known
  ∧ pass (env_at 210 [TDict zzz_record]) zzz_known
      (after main_loop_body (env_at 210 [TDict zzz_record]) zzz_known)
  ∧ In "zzz" (newdevices zzz_known)
  ∧ dict_get "zzz" (retrydevices zzz_known) = None
  ∧ ∃ e e', dict_get "zzz" (deviceslist zzz_known) = Some e
         ∧ e_name e = EmptyString ∧ e_key e = EmptyString
         ∧ dict_get "zzz"
             (deviceslist
                (after main_loop_body (env_at 210 [TDict zzz_record]) zzz_known))
           = Some e'
         ∧ e_name e' = "Lamp" ∧ e_key e' = "Z" ∧ e_mac e' = "aa:bb"
         ∧ e_ip e' = "10.0.0.6" ∧ e_id e' = "zzz"
         ∧ ¬ In "zzz"
               (newdevices
                  (after main_loop_body (env_at 210 [TDict zzz_record]) zzz_known)).
Proof.
  assert (pass (env_at 210 [TDict zzz_record]) zzz_known
            (after main_loop_body (env_at 210 [TDict zzz_record]) zzz_known)) as Hp.
  { apply sample_pass; vm_compute; reflexivity. }
  assert (In "zzz" (newdevices zzz_known)) as Hin by (vm_compute; tauto).
  split; [exact reachable_zzz_known|]. split; [exact Hp|]. split; [exact Hin|].
  split; [reflexivity|].
  destruct (expired_id_still_resolved _ _ _ "zzz" reachable_zzz_known Hp Hin)
    as (_ & _ & Hres).
  destruct (Hres eq_refl) as (e & He & Hname & Hkey & (r & e' & Hr & He' & Ha) & Hout).
  exists e, e'. split; [exact He|]. split; [exact Hname|]. split; [exact Hkey|].
  split; [exact He'|].
  vm_compute in He. injection He as <-.
  destruct (zzz_record_attached _ _ e' r eq_refl Hr Ha) as (? & ? & ? & ? & ?).
  done.
Defined.

(** * More about the listener and the registry *)

(** ** Looking up credentials *)

Lemma lookup_none devs id :
  Forall (other_device id) devs →
  tuyaLookup devs (PStr id) = Ret (EmptyString, EmptyString, EmptyString).
Proof.
  induction 1 as [|[x|] devs Hx Hd IH]; simpl; [done| |done].
  simpl in Hx. destruct (String.eqb_spec id (c_id x)); [congruence|done].
Qed.

Lemma lookup_first before r after id :
  Forall (other_device id) before → c_id r = id →
  tuyaLookup (before ++ TDict r :: after) (PStr id)
  = Ret (c_name r, c_key r, mac_or_empty r).
Proof.
  intros Hb Hid. induction Hb as [|[x|] before Hx Hb IH]; simpl.
  - by rewrite Hid, String.eqb_refl.
  - simpl in Hx. destruct (String.eqb_spec id (c_id x)); [congruence|done].
  - done.
Qed.

Lemma lookup_raises before v after id :
  Forall (other_device id) before →
  tuyaLookup (before ++ TOther v :: after) (PStr id) = Raise.
Proof.
  induction 1 as [|[x|] before Hx Hb IH]; simpl; [done| |done].
  simpl in Hx. destruct (String.eqb_spec id (c_id x)); [congruence|done].
Qed.

(** X1.  [tuyaLookup] scans the credential list from the front while the
    items are dicts with another id.  If it comes to the end it returns
    three empty strings; if it comes to a dict with the id it returns its
    name, key and mac (the empty string for a missing mac) and looks no
    further, whatever follows; if it comes to an item that is no dict it
    raises. *)
Theorem lookup_scans_front before id :
  Forall (other_device id) before →
  tuyaLookup before (PStr id) = Ret (EmptyString, EmptyString, EmptyString)
  ∧ (∀ r after, c_id r = id →
       tuyaLookup (before ++ TDict r :: after) (PStr id)
       = Ret (c_name r, c_key r, mac_or_empty r))
  ∧ (∀ v after, tuyaLookup (before ++ TOther v :: after) (PStr id) = Raise).
Proof.
  intros Hb. split; [by apply lookup_none|]. split.
  - intros r after Hid. by apply lookup_first.
  - intros v after. by apply lookup_raises.
Qed.

Lemma lookup_scans_front_witness :
  Forall (other_device "zzz") [TDict plug1]
  ∧ tuyaLookup [TDict plug1] (PStr "zzz")
    = Ret (EmptyString, EmptyString, EmptyString)
  ∧ tuyaLookup ([TDict plug1] ++ TDict zzz_record :: [TOther NNone]) (PStr "zzz")
    = Ret ("Lamp", "Z", "aa:bb")
  ∧ tuyaLookup ([TDict plug1] ++ TOther NNone :: [TDict zzz_record]) (PStr "zzz")
    = Raise.
Proof.
  assert (Forall (other_device "zzz") [TDict plug1]) as Hb.
  { constructor; [discriminate|constructor]. }
  split; [exact Hb|].
  destruct (lookup_scans_front [TDict plug1] "zzz" Hb) as (H1 & H2 & H3).
  split; [exact H1|]. split; [exact (H2 zzz_record [TOther NNone] eq_refl)|].
  exact (H3 NNone [TDict zzz_record]).
Defined.

(** ** The first sighting *)

Lemma listener_new addr p st :
  dict_has (snd (decode_result addr p)) (deviceslist st) = false →
  let id := snd (decode_result addr p) in
  let r0 := fst (decode_result addr p) in
  let '(dname, dkey, mac) := lookup_credentials (tuyadevices st) id in
  let st' := tuyalisten_packet addr p st in
  deviceslist st'
  = dict_set id {| e_ip := e_ip r0; e_version := e_version r0; e_other := e_other r0;
                   e_name := dname; e_mac := mac; e_key := dkey; e_id := id |}
      (deviceslist st)
  ∧ tuyadevices st' = tuyadevices st
  ∧ retrytimer st' = retrytimer st ∧ cloudconfig st' = cloudconfig st
  ∧ (if String.eqb dname EmptyString && String.eqb dkey EmptyString
        && negb (list_has id (newdevices st))
     then retrydevices st' = dict_set id RETRYCOUNT (retrydevices st)
          ∧ newdevices st' = newdevices st ++ [id]
     else retrydevices st' = retrydevices st ∧ newdevices st' = newdevices st).
Proof.
  intros Hnew. unfold tuyalisten_packet.
  destruct (decode_result addr p) as [result0 gwId]. cbn [fst snd] in *.
  destruct (lookup_credentials (tuyadevices st) gwId) as [[dname dkey] mac].
  unfold appenddevice. cbn [e_id]. rewrite Hnew. cbn [negb set_deviceslist newdevices].
  destruct (String.eqb dname EmptyString && String.eqb dkey EmptyString
            && negb (list_has gwId (newdevices st))); done.
Qed.

(** X2.  The first sighting of an announced id stores an entry with the
    announced ip, version and other fields and with the name, key and mac
    of the first credential record of that id; the entries of all other
    ids are what they were. *)
Theorem first_sighting_registers addr a st before r after :
  dict_has (a_gwId a) (deviceslist st) = false →
  tuyadevices st = before ++ TDict r :: after →
  Forall (other_device (a_gwId a)) before →
  c_id r = a_gwId a →
  let st' := tuyalisten_packet addr (Announce a) st in
  dict_get (a_gwId a) (deviceslist st')
  = Some (sighted_entry a (c_name r) (c_key r) (mac_or_empty r))
  ∧ ∀ id, id ≠ a_gwId a →
          dict_get id (deviceslist st') = dict_get id (deviceslist st).
Proof.
  intros Hnew Hdevs Hb Hid.
  pose proof (listener_new addr (Announce a) st Hnew) as H. cbn [decode_result fst snd] in H.
  unfold lookup_credentials in H. rewrite Hdevs, lookup_first in H by done.
  destruct H as (Hd & _). cbn zeta. rewrite Hd. split.
  - by rewrite dict_get_set_eq.
  - intros id Hne. by rewrite dict_get_set_ne.
Qed.

Lemma first_sighting_registers_witness :
  dict_has "abc123" (deviceslist (initial [TDict plug1] no_cloudconfig)) = false
  ∧ dict_get "abc123" (deviceslist plug1_seen)
    = Some (sighted_entry (plug1_announcement "10.0.0.5") "Plug1" "K" EmptyString).
Proof.
  split; [reflexivity|].
  refine (proj1 (first_sighting_registers "10.0.0.5" (plug1_announcement "10.0.0.5")
                   (initial [TDict plug1] no_cloudconfig) [] plug1 [] _ _ _ _));
    [reflexivity|reflexivity|constructor|reflexivity].
Defined.

(** ** Devices without credentials *)

Lemma fresh_not_pending st id :
  consistent st → dict_has id (deviceslist st) = false →
  list_has id (newdevices st) = false.
Proof.
  intros Hc Hn. destruct (list_has id (newdevices st)) eqn:E; [|done].
  apply list_has_In in E. destruct (new_unresolved st Hc id E) as (e & He & _).
  unfold dict_has in Hn. by rewrite He in Hn.
Qed.

(** X3.  At the first sighting of an id the listener decides whether the
    device awaits resolution: when the credential list has neither a name
    nor a key for the id, the id gets [RETRYCOUNT] retries and goes to the
    end of the list of new devices; when it has one, the retry table and
    the list of new devices stay as they are. *)
Theorem first_sighting_pending addr p st :
  reachable st →
  dict_has (snd (decode_result addr p)) (deviceslist st) = false →
  let id := snd (decode_result addr p) in
  let st' := tuyalisten_packet addr p st in
  (resolves (tuyadevices st) id = false →
     dict_get id (retrydevices st') = Some RETRYCOUNT
     ∧ (∀ k, k ≠ id → dict_get k (retrydevices st') = dict_get k (retrydevices st))
     ∧ newdevices st' = newdevices st ++ [id])
  ∧ (resolves (tuyadevices st) id = true →
     retrydevices st' = retrydevices st ∧ newdevices st' = newdevices st).
Proof.
  intros Hr Hnew. apply consistent_reachable in Hr.
  pose proof (listener_new addr p st Hnew) as H.
  pose proof (fresh_not_pending st _ Hr Hnew) as Hfresh.
  cbn zeta in *. unfold resolves.
  destruct (lookup_credentials (tuyadevices st) (snd (decode_result addr p)))
    as [[dname dkey] mac].
  destruct H as (_ & _ & _ & _ & H). rewrite Hfresh in H. cbn [negb] in H.
  rewrite andb_true_r in H.
  destruct (String.eqb dname EmptyString), (String.eqb dkey EmptyString);
    cbn in H |- *; destruct H as [H1 H2]; (split; [intros ?|intros ?]); try done.
  rewrite H1, H2. split; [by rewrite dict_get_set_eq|]. split; [|done].
  intros k Hk. by rewrite dict_get_set_ne.
Qed.

Lemma first_sighting_pending_witness :
  reachable (initial [] no_cloudconfig)
  ∧ dict_get "zzz" (retrydevices unknown_seen) = Some RETRYCOUNT
  ∧ newdevices unknown_seen = ["zzz"].
Proof.
  assert (reachable (initial [] no_cloudconfig)) as Hr.
  { exists [], no_cloudconfig, 0%nat. apply passes_done. }
  split; [exact Hr|].
  destruct (first_sighting_pending "10.0.0.6"
              (Announce {| a_ip := "10.0.0.6"; a_gwId := "zzz";
                           a_version := Some "3.3"; a_other := [] |})
              (initial [] no_cloudconfig) Hr eq_refl) as [H _].
  destruct (H eq_refl) as (H1 & _ & H3). split; [exact H1|exact H3].
Defined.

(** X4.  A datagram that does not decode to an object with an ip and a
    gwId is registered all the same, under the empty id, as long as the
    empty id is no key of the registry yet: with the ip of the payload when
    it has one, otherwise with the address of the sender, without a
    version.  The registry grows by one entry. *)
Theorem undecoded_datagram_registers addr p st :
  (∀ a, p ≠ Announce a) →
  dict_has EmptyString (deviceslist st) = false →
  let st' := tuyalisten_packet addr p st in
  (∃ e, dict_get EmptyString (deviceslist st') = Some e
        ∧ e_id e = EmptyString ∧ e_version e = None ∧ e_other e = []
        ∧ e_ip e = match p with OnlyIp ip => ip | _ => addr end)
  ∧ length (deviceslist st') = S (length (deviceslist st)).
Proof.
  intros Hp Hnew.
  assert (snd (decode_result addr p) = EmptyString) as Hid.
  { destruct p; [by destruct (Hp a)|done|done]. }
  pose proof (listener_new addr p st) as H. rewrite Hid in H.
  specialize (H Hnew). cbn zeta in *.
  destruct (lookup_credentials (tuyadevices st) EmptyString) as [[dname dkey] mac].
  destruct H as (Hd & _). rewrite Hd. split.
  - eexists. split; [apply dict_get_set_eq|].
    destruct p; [by destruct (Hp a)|done|done].
  - rewrite <- !(length_map fst). change (map fst) with (@dict_keys RegistryEntry).
    rewrite dict_keys_set_new by done. rewrite length_app. simpl. lia.
Qed.

Lemma undecoded_datagram_registers_witness :
  dict_has EmptyString (deviceslist plug1_seen) = false
  ∧ (e_ip <$> dict_get EmptyString
                (deviceslist (tuyalisten_packet "10.0.0.7" Undecodable plug1_seen)))
    = Some "10.0.0.7"
  ∧ length (deviceslist (tuyalisten_packet "10.0.0.7" Undecodable plug1_seen)) = 2%nat.
Proof.
  split; [reflexivity|].
  destruct (undecoded_datagram_registers "10.0.0.7" Undecodable plug1_seen)
    as [(e & He & _ & _ & _ & Hip) Hlen]; [discriminate|reflexivity|].
  split; [|exact Hlen]. rewrite He. simpl. by rewrite Hip.
Defined.

(** ** What the registry keeps *)

Lemma run_passes_trans n m st1 st2 st3 :
  run_passes n st1 st2 → run_passes m st2 st3 → run_passes (n + m) st1 st3.
Proof.
  induction 1; intros H3; simpl.
  - done.
  - eapply passes_other; eauto.
  - eapply passes_pass; eauto.
Qed.

Lemma reachable_run n st st' : reachable st → run_passes n st st' → reachable st'.
Proof.
  intros (devs & cfg & k & Hk) Hn. exists devs, cfg, (k + n)%nat.
  by eapply run_passes_trans.
Qed.

Lemma listener_registry addr p st :
  tuyalisten_packet addr p st = st
  ∨ ∃ e, dict_has (e_id e) (deviceslist st) = false
         ∧ deviceslist (tuyalisten_packet addr p st)
           = dict_set (e_id e) e (deviceslist st).
Proof.
  destruct (dict_has (snd (decode_result addr p)) (deviceslist st)) eqn:Hhas.
  - left. unfold tuyalisten_packet.
    destruct (decode_result addr p) as [result0 gwId]; simpl in Hhas.
    destruct (lookup_credentials (tuyadevices st) gwId) as [[dname dkey] mac].
    unfold appenddevice; simpl. rewrite Hhas. simpl. apply set_deviceslist_same.
  - right. pose proof (listener_new addr p st Hhas) as H. cbn zeta in H.
    destruct (lookup_credentials (tuyadevices st) (snd (decode_result addr p)))
      as [[dname dkey] mac].
    destruct H as (Hd & _).
    exists {| e_ip := e_ip (fst (decode_result addr p));
              e_version := e_version (fst (decode_result addr p));
              e_other := e_other (fst (decode_result addr p));
              e_name := dname; e_mac := mac; e_key := dkey;
              e_id := snd (decode_result addr p) |}.
    split; [exact Hhas|exact Hd].
Qed.

Lemma other_step_registry st st' :
  other_step st st' →
  deviceslist st' = deviceslist st
  ∨ ∃ e, dict_has (e_id e) (deviceslist st) = false
         ∧ deviceslist st' = dict_set (e_id e) e (deviceslist st).
Proof.
  destruct 1 as [addr p st|path env st].
  - destruct (listener_registry addr p st) as [->|H]; [by left|by right].
  - left. apply (framed_do_GET path env {| w_state := st; w_trace := [] |}).
Qed.

Lemma pass_outcome_keys st :
  dict_keys (deviceslist (pass_outcome st)) = dict_keys (deviceslist st).
Proof.
  unfold pass_outcome. cbn [deviceslist].
  generalize (List.filter (resolves (tuyadevices st)) (newdevices st)).
  intros hits. generalize (deviceslist st).
  induction hits as [|x hits IH]; intros registry; simpl; [done|].
  by rewrite IH, attach_keys.
Qed.

Lemma with_credentials_same devs id e : same_device e (with_credentials devs id e).
Proof.
  unfold with_credentials. by destruct (lookup_credentials devs id) as [[? ?] ?].
Qed.

Lemma same_device_refl e : same_device e e.
Proof. by repeat split. Qed.

Lemma same_device_trans e1 e2 e3 :
  same_device e1 e2 → same_device e2 e3 → same_device e1 e3.
Proof. unfold same_device. intros (?&?&?&?) (?&?&?&?). repeat split; congruence. Qed.

Lemma pass_outcome_same st id e :
  dict_get id (deviceslist st) = Some e →
  ∃ e', dict_get id (deviceslist (pass_outcome st)) = Some e' ∧ same_device e e'.
Proof.
  intros He. rewrite pass_outcome_registry, He.
  destruct (list_has id (newdevices st) && resolves (tuyadevices st) id).
  - eexists. split; [done|]. apply with_credentials_same.
  - eexists. split; [done|]. apply same_device_refl.
Qed.

Lemma pass_registry env st st' id e :
  consistent st → pass env st st' →
  dict_get id (deviceslist st) = Some e →
  dict_keys (deviceslist st') = dict_keys (deviceslist st)
  ∧ ∃ e', dict_get id (deviceslist st') = Some e' ∧ same_device e e'
          ∧ (e_name e ≠ EmptyString ∨ e_key e ≠ EmptyString → e' = e).
Proof.
  intros Hc Hp He.
  destruct (pass_inv env st st' Hc Hp) as (st1 & -> & Hd & Hn & _).
  rewrite pass_outcome_keys, Hd. split; [done|].
  rewrite pass_outcome_registry, Hd, Hn, He.
  destruct (list_has id (newdevices st)) eqn:Hnew; simpl.
  - apply list_has_In in Hnew.
    destruct (new_unresolved st Hc id Hnew) as (e0 & He0 & Hname & Hkey).
    assert (e0 = e) as -> by congruence.
    destruct (resolves (tuyadevices st1) id).
    + eexists. split; [done|]. split; [apply with_credentials_same|].
      intros [H|H]; congruence.
    + eexists. split; [done|]. split; [apply same_device_refl|done].
  - eexists. split; [done|]. split; [apply same_device_refl|done].
Qed.

Lemma other_step_entry st st' id e :
  other_step st st' → dict_get id (deviceslist st) = Some e →
  dict_get id (deviceslist st') = Some e.
Proof.
  intros Hs He. destruct (other_step_registry st st' Hs) as [->|(x & Hx & ->)]; [done|].
  rewrite dict_get_set_ne; [done|].
  intros Heq. rewrite Heq in Hx. unfold dict_has in Hx. by rewrite He in Hx.
Qed.

Lemma run_registry n st st' :
  run_passes n st st' → consistent st →
  ∀ id e, dict_get id (deviceslist st) = Some e →
  ∃ e', dict_get id (deviceslist st') = Some e' ∧ same_device e e'
        ∧ (e_name e ≠ EmptyString ∨ e_key e ≠ EmptyString → e' = e).
Proof.
  induction 1 as [st|n st st1 st2 Hs Hrun IH|n env st st1 st2 Hp Hrun IH];
    intros Hc id e He.
  - exists e. split; [done|]. split; [apply same_device_refl|done].
  - apply IH; [by eapply consistent_other_step|by eapply other_step_entry].
  - destruct (pass_registry env st st1 id e Hc Hp He) as (_ & e1 & He1 & Hs1 & Hf1).
    destruct (IH (consistent_pass env st st1 Hc Hp) id e1 He1) as (e2 & He2 & Hs2 & Hf2).
    exists e2. split; [done|]. split; [by eapply same_device_trans|].
    intros Hres. pose proof (Hf1 Hres) as ->. by apply Hf2.
Qed.

Lemma registry_keyed_set k e registry :
  registry_keyed registry → e_id e = k → registry_keyed (dict_set k e registry).
Proof.
  intros [Hnd Hid] He. split; [by apply dict_set_nodup|].
  intros k' e'. destruct (String.eqb_spec k k') as [<-|Hne].
  - rewrite dict_get_set_eq. by intros [= <-].
  - rewrite dict_get_set_ne by done. apply Hid.
Qed.

Lemma registry_keyed_run n st st' :
  run_passes n st st' → consistent st →
  registry_keyed (deviceslist st) → registry_keyed (deviceslist st').
Proof.
  induction 1 as [st|n st st1 st2 Hs Hrun IH|n env st st1 st2 Hp Hrun IH];
    intros Hc Hk.
  - done.
  - apply IH; [by eapply consistent_other_step|].
    destruct (other_step_registry st st1 Hs) as [->|(x & Hx & ->)]; [done|].
    by apply registry_keyed_set.
  - apply IH; [by eapply consistent_pass|].
    destruct (pass_inv env st st1 Hc Hp) as (st0 & -> & Hd & _).
    destruct Hk as [Hnd Hid]. split.
    + by rewrite pass_outcome_keys, Hd.
    + intros k e. rewrite pass_outcome_registry, Hd.
      destruct (list_has k (newdevices st0) && resolves (tuyadevices st0) k).
      * destruct (dict_get k (deviceslist st)) as [e0|] eqn:He0; [|done].
        intros [= <-]. destruct (with_credentials_same (tuyadevices st0) k e0)
          as (_ & _ & _ & ->). by apply Hid.
      * apply Hid.
Qed.

Lemma reachable_keyed st : reachable st → registry_keyed (deviceslist st).
Proof.
  intros (devs & cfg & n & Hrun).
  apply (registry_keyed_run n _ _ Hrun); [apply consistent_initial|].
  split; [constructor|done].
Qed.

(** X5.  In every state the server can be in, the entry stored under a key
    of the registry carries that key as its id. *)
Theorem registry_entry_id_is_key st k e :
  reachable st → dict_get k (deviceslist st) = Some e → e_id e = k.
Proof. intros Hr. apply (reachable_keyed st Hr). Qed.

Lemma registry_entry_id_is_key_witness :
  reachable zzz_known
  ∧ (e_id <$> dict_get "zzz" (deviceslist zzz_known)) = Some "zzz".
Proof.
  split; [exact reachable_zzz_known|].
  destruct (dict_get "zzz" (deviceslist zzz_known)) as [e|] eqn:He; [|discriminate He].
  simpl. f_equal.
  exact (registry_entry_id_is_key zzz_known "zzz" e reachable_zzz_known He).
Defined.

(** X6.  The registry never forgets a device and never updates what it
    heard: whatever datagrams, requests and resolution passes follow, an
    entry stays under its key with the ip, version, other announced fields
    and id it had; only its name, key and mac can change. *)
Theorem registered_device_kept n st st' id e :
  reachable st → run_passes n st st' →
  dict_get id (deviceslist st) = Some e →
  ∃ e', dict_get id (deviceslist st') = Some e' ∧ same_device e e'.
Proof.
  intros Hr Hrun He.
  destruct (run_registry n st st' Hrun (consistent_reachable st Hr) id e He)
    as (e' & He' & Hs & _).
  by exists e'.
Qed.

Lemma registered_device_kept_witness :
  reachable unknown_seen
  ∧ run_passes 5 unknown_seen zzz_expired
  ∧ (e_ip <$> dict_get "zzz" (deviceslist unknown_seen)) = Some "10.0.0.6"
  ∧ (e_ip <$> dict_get "zzz" (deviceslist zzz_expired)) = Some "10.0.0.6".
Proof.
  split; [exact reachable_unknown_seen|]. split; [exact five_passes|].
  split; [reflexivity|].
  destruct (registered_device_kept 5 unknown_seen zzz_expired "zzz"
              {| e_ip := "10.0.0.6"; e_version := Some "3.3";
                 e_other := [("gwId", PStr "zzz")];
                 e_name := EmptyString; e_mac := EmptyString; e_key := EmptyString;
                 e_id := "zzz" |}
              reachable_unknown_seen five_passes eq_refl)
    as (e' & -> & Hip & _).
  simpl. by rewrite Hip.
Defined.

(** X7.  Credentials are attached once: a registry entry that has a name
    or a key is never changed again, neither by a datagram, nor by a
    request, nor by a resolution pass, even when a later cloud refresh
    brings other credentials for its id. *)
Theorem resolved_entry_frozen n st st' id e :
  reachable st → run_passes n st st' →
  dict_get id (deviceslist st) = Some e →
  e_name e ≠ EmptyString ∨ e_key e ≠ EmptyString →
  dict_get id (deviceslist st') = Some e.
Proof.
  intros Hr Hrun He Hres.
  destruct (run_registry n st st' Hrun (consistent_reachable st Hr) id e He)
    as (e' & He' & _ & Hf).
  by rewrite He', (Hf Hres).
Qed.

Lemma reachable_plug1_seen : reachable plug1_seen.
Proof.
  exists [TDict plug1], no_cloudconfig, 0%nat.
  eapply passes_other; [apply listener_step|apply passes_done].
Qed.

Lemma plug1_synced_run : run_passes 1 plug1_seen plug1_resolved_again.
Proof.
  eapply passes_other;
    [apply (request_step "/cloudconfig/k/s/eu/d" (env_at 0 [TDict plug1_renamed]))|].
  eapply (passes_pass _ (env_at 2 [TDict plug1_renamed])); [by apply sample_pass|].
  apply passes_done.
Qed.

Lemma resolved_entry_frozen_witness :
  reachable plug1_seen
  ∧ run_passes 1 plug1_seen plug1_resolved_again
  ∧ tuyadevices plug1_resolved_again = [TDict plug1_renamed]
  ∧ dict_get "abc123" (deviceslist plug1_resolved_again)
    = Some (sighted_entry (plug1_announcement "10.0.0.5") "Plug1" "K" EmptyString).
Proof.
  split; [exact reachable_plug1_seen|]. split; [exact plug1_synced_run|].
  split; [reflexivity|].
  apply (resolved_entry_frozen 1 plug1_seen plug1_resolved_again "abc123"
           (sighted_entry (plug1_announcement "10.0.0.5") "Plug1" "K" EmptyString)
           reachable_plug1_seen plug1_synced_run eq_refl).
  left. discriminate.
Defined.

(** X8.  The retry table holds what it should, in every state the server
    can be in: each count lies between 1 and [RETRYCOUNT], and each id other
    than the wildcard is in the list of new devices and has a registry
    entry without name and without key. *)
Theorem retry_table_invariant st id n :
  reachable st → dict_get id (retrydevices st) = Some n →
  1 ≤ n ≤ RETRYCOUNT
  ∧ (id ≠ wildcard →
     In id (newdevices st)
     ∧ ∃ e, dict_get id (deviceslist st) = Some e
            ∧ e_name e = EmptyString ∧ e_key e = EmptyString).
Proof.
  intros Hr Hget. apply consistent_reachable in Hr.
  split; [by eapply retry_bounds|].
  intros Hne. pose proof (retry_is_new st Hr id n Hget Hne) as Hnew.
  split; [done|]. by apply new_unresolved.
Qed.

Lemma retry_table_invariant_witness :
  reachable zzz_expired
  ∧ reachable unknown_seen
  ∧ dict_get "zzz" (retrydevices unknown_seen) = Some 5
  ∧ 1 ≤ 5 ≤ RETRYCOUNT
  ∧ In "zzz" (newdevices unknown_seen).
Proof.
  split; [exact reachable_zzz_expired|]. split; [exact reachable_unknown_seen|].
  split; [reflexivity|].
  destruct (retry_table_invariant unknown_seen "zzz" 5 reachable_unknown_seen eq_refl)
    as [Hb Hn].
  split; [exact Hb|]. apply Hn. discriminate.
Defined.

(** * The cloud refresh and the timed pass *)

(** ** [tuyaCloudRefresh] *)

(** X9.  A cloud refresh is all or nothing.  Either the state is what it
    was and nothing is written to the device file (the configuration is
    incomplete, the Cloud Client reports an error or raises, or
    [getdevices] raises); or [getdevices] returned a list, and then that
    list replaces the credential list, is the one list handed to
    [tuyaSaveJson] for the device file, and is returned under
    ["devices"]. *)
Theorem cloud_refresh_all_or_nothing env st :
  let r := run tuyaCloudRefresh env st in
  (w_state (snd r) = st ∧ saves (w_trace (snd r)) = [])
  ∨ (∃ c devs,
       cloud env (cloudconfig st) = Ret c
       ∧ truthy (cloud_error c) = false
       ∧ cloud_getdevices c = Ret devs
       ∧ fst r = Ret (PDict [("devices", PList (map tuyadev_json devs))])
       ∧ w_state (snd r) = set_tuyadevices devs st
       ∧ saves (w_trace (snd r)) = [devs]).
Proof.
  unfold run, tuyaCloudRefresh, tuyaSaveJson. exec.
  destruct (String.eqb (apiKey (cloudconfig st)) EmptyString
            || String.eqb (apiSecret (cloudconfig st)) EmptyString
            || String.eqb (apiRegion (cloudconfig st)) EmptyString
            || String.eqb (apiDeviceID (cloudconfig st)) EmptyString);
    exec; [by left|].
  destruct (cloud env (cloudconfig st)) as [c|] eqn:Hc; exec; [|by left].
  destruct (truthy (cloud_error c)) eqn:Herr; exec; [by left|].
  destruct (cloud_getdevices c) as [devs|] eqn:Hg; exec; [|by left].
  right. by exists c, devs.
Qed.

Lemma cloud_refresh_counted env w :
  cloud_refreshes (w_trace (snd (tuyaCloudRefresh env w)))
  = S (cloud_refreshes (w_trace w)).
Proof.
  assert (∀ tr l, (∀ e, In e l → e ≠ EvCloudRefresh) →
                  cloud_refreshes (tr ++ EvCloudRefresh :: l) = S (cloud_refreshes tr))
    as Hcount.
  { intros tr l Hl. unfold cloud_refreshes.
    rewrite List.filter_app, length_app. simpl.
    replace (List.filter _ l) with (@nil event); [simpl; lia|].
    symmetry. induction l as [|e l IH]; simpl; [done|].
    assert (e ≠ EvCloudRefresh) as He by (apply Hl; by left).
    destruct e; try done; apply IH; intros e' He'; apply Hl; by right. }
  unfold tuyaCloudRefresh, tuyaSaveJson. exec.
  repeat (break_match; exec; simplify_eq).
  all: rewrite <- ?app_assoc; simpl.
  all: apply Hcount; intros e He; simpl in He; intuition (subst; discriminate).
Qed.

Lemma cloud_refresh_raise env w w' :
  tuyaCloudRefresh env w = (Raise, w') → w_state w' = w_state w.
Proof.
  unfold tuyaCloudRefresh, tuyaSaveJson. exec.
  repeat (break_match; exec; simplify_eq); intros; simplify_eq; done.
Qed.

(** ** The timed pass *)

Lemma reachable_pending st :
  reachable st →
  NoDup (newdevices st)
  ∧ ∀ id, In id (newdevices st) → dict_has id (deviceslist st) = true.
Proof.
  intros Hr. apply consistent_reachable in Hr. split; [apply Hr|].
  intros id Hid. destruct (new_unresolved st Hr id Hid) as (e & He & _).
  unfold dict_has. by rewrite He.
Qed.

(** X10.  A resolution pass that runs because the timer ran out, not
    because of the wildcard, enters [tuyaCloudRefresh] exactly once and
    then sets the timer to [RETRYTIME] seconds after the clock reading it
    takes at that point. *)
Theorem timed_pass_refreshes_once env st st' tr :
  reachable st →
  pass_runs env st = true →
  dict_has wildcard (retrydevices st) = false →
  run main_loop_body env st = (Ret tt, {| w_state := st'; w_trace := tr |}) →
  cloud_refreshes tr = 1%nat ∧ retrytimer st' = clock_late env + RETRYTIME.
Proof.
  intros Hr Hgate Hw Hrun. destruct (reachable_pending st Hr) as [Hnd Hin].
  unfold run in Hrun. rewrite main_loop_body_run in Hrun by done.
  rewrite Hw in Hrun.
  pose proof (cloud_refresh_counted env {| w_state := st; w_trace := [] |}) as Hcount.
  destruct (tuyaCloudRefresh env {| w_state := st; w_trace := [] |}) as [[r|] w1];
    [|done].
  injection Hrun as <- <-. split; [exact Hcount|].
  by destruct (pass_outcome_fields
                 (set_retrytimer (clock_late env + RETRYTIME) (w_state w1)))
    as (_ & -> & _).
Qed.

Lemma timed_pass_refreshes_once_witness :
  reachable unknown_seen
  ∧ pass_runs (env_at 40 []) unknown_seen = true
  ∧ dict_has wildcard (retrydevices unknown_seen) = false
  ∧ cloud_refreshes (w_trace (snd (run main_loop_body (env_at 40 []) unknown_seen)))
    = 1%nat
  ∧ retrytimer (w_state (snd (run main_loop_body (env_at 40 []) unknown_seen))) = 70.
Proof.
  split; [exact reachable_unknown_seen|]. split; [reflexivity|].
  split; [reflexivity|].
  apply (timed_pass_refreshes_once (env_at 40 []) unknown_seen
           (w_state (snd (run main_loop_body (env_at 40 []) unknown_seen)))
           (w_trace (snd (run main_loop_body (env_at 40 []) unknown_seen)))
           reachable_unknown_seen eq_refl eq_refl eq_refl).
Defined.

(** X11.  The only exception that leaves an iteration of the main loop is
    one of the cloud refresh of a timed pass: the lookups, the updates of
    the registry entries and the removals from the list of new devices
    never raise.  When the refresh raises, the state is what it was: no
    device has been resolved, no retry has been counted, and the timer has
    not been set. *)
Theorem main_loop_raises_only_in_refresh env st :
  reachable st →
  (fst (run main_loop_body env st) = Raise
   ↔ pass_runs env st = true
     ∧ dict_has wildcard (retrydevices st) = false
     ∧ fst (run tuyaCloudRefresh env st) = Raise)
  ∧ (fst (run main_loop_body env st) = Raise →
     w_state (snd (run main_loop_body env st)) = st).
Proof.
  intros Hr. destruct (reachable_pending st Hr) as [Hnd Hin].
  destruct (pass_runs env st) eqn:Hgate.
  - unfold run. rewrite main_loop_body_run by done.
    destruct (dict_has wildcard (retrydevices st)) eqn:Hw.
    + split; [|done]. split; [done|]. by intros (_ & ? & _).
    + pose proof (cloud_refresh_raise env {| w_state := st; w_trace := [] |}) as Hs.
      destruct (tuyaCloudRefresh env {| w_state := st; w_trace := [] |})
        as [[r|] w1]; cbn [fst snd].
      * split; [|done]. split; [done|]. by intros (_ & _ & ?).
      * split; [done|]. intros _. by apply (Hs w1).
  - assert (run main_loop_body env st = (Ret tt, {| w_state := st; w_trace := [] |}))
      as ->.
    { unfold pass_runs in Hgate. unfold run, main_loop_body. exec.
      destruct (retrytimer st <=? clock env); simpl in *;
        [by rewrite Hgate|].
      destruct (dict_has wildcard (retrydevices st)); simpl in *;
        [by rewrite Hgate|done]. }
    split; [|done]. split; [done|]. by intros (? & _).
Qed.

Lemma main_loop_raises_only_in_refresh_witness :
  reachable unknown_seen_configured
  ∧ pass_runs plain_env unknown_seen_configured = true
  ∧ dict_has wildcard (retrydevices unknown_seen_configured) = false
  ∧ fst (run tuyaCloudRefresh plain_env unknown_seen_configured) = Raise
  ∧ fst (run main_loop_body plain_env unknown_seen_configured) = Raise
  ∧ w_state (snd (run main_loop_body plain_env unknown_seen_configured))
    = unknown_seen_configured.
Proof.
  assert (reachable unknown_seen_configured) as Hr.
  { exists [], full_cloudconfig, 0%nat.
    eapply passes_other; [apply listener_step|apply passes_done]. }
  split; [exact Hr|]. split; [reflexivity|]. split; [reflexivity|].
  split; [reflexivity|].
  destruct (main_loop_raises_only_in_refresh plain_env unknown_seen_configured Hr)
    as [[_ Hraise] Hsame].
  pose proof (Hraise (conj eq_refl (conj eq_refl eq_refl))) as H.
  split; [exact H|exact (Hsame H)].
Defined.

(** * What the requests do and do not do *)

(** ** Computations that keep a relation *)

Section Keeps.
Variable R : world → world → Prop.
Hypothesis R_refl : ∀ w, R w w.
Hypothesis R_trans : ∀ w1 w2 w3, R w1 w2 → R w2 w3 → R w1 w3.

Lemma keeps_ret {A} (a : A) : keeps R (ret a).
Proof. intros env w. apply R_refl. Qed.

Lemma keeps_raise {A} : keeps R (@raise A).
Proof. intros env w. apply R_refl. Qed.

Lemma keeps_lift {A} (r : exc A) : keeps R (lift r).
Proof. intros env w. apply R_refl. Qed.

Lemma keeps_ask : keeps R ask.
Proof. intros env w. apply R_refl. Qed.

Lemma keeps_get : keeps R get.
Proof. intros env w. apply R_refl. Qed.

Lemma keeps_bind {A B} (m : M A) (k : A → M B) :
  keeps R m → (∀ a, keeps R (k a)) → keeps R (bind m k).
Proof.
  intros Hm Hk env w. unfold bind. specialize (Hm env w).
  destruct (m env w) as [[a|] w1]; [|done].
  eapply R_trans; [exact Hm|apply Hk].
Qed.

Lemma keeps_try {A} (m h : M A) : keeps R m → keeps R h → keeps R (try_except m h).
Proof.
  intros Hm Hh env w. unfold try_except. specialize (Hm env w).
  destruct (m env w) as [[a|] w1]; [done|].
  eapply R_trans; [exact Hm|apply Hh].
Qed.

End Keeps.

Lemma same_state_emit e : keeps same_state (emit e).
Proof. by intros env w. Qed.

Lemma same_state_call c : keeps same_state (call_device c).
Proof. by intros env w. Qed.

Lemma same_calls_emit e :
  match e with EvDevice _ => False | _ => True end → keeps same_calls (emit e).
Proof.
  intros He env w. unfold same_calls, emit, device_calls. cbn.
  rewrite flat_map_app. destruct e; try done; cbn; by rewrite app_nil_r.
Qed.

Lemma same_calls_modify f : keeps same_calls (modify f).
Proof. by intros env w. Qed.

Ltac keeps_rel := intros; unfold same_state, same_calls in *; congruence.

Ltac keeps_step :=
  first
    [ apply keeps_bind; [keeps_rel| |intros ?]
    | apply keeps_try; [keeps_rel| |]
    | apply keeps_ret; keeps_rel
    | apply keeps_raise; keeps_rel
    | apply keeps_lift; keeps_rel
    | apply keeps_ask; keeps_rel
    | apply keeps_get; keeps_rel
    | apply same_state_emit
    | apply same_state_call
    | apply same_calls_emit; exact I
    | apply same_calls_modify
    | match goal with
      | |- keeps _ (match ?x with _ => _ end) => destruct x
      | |- keeps _ (if ?b then _ else _) => destruct b
      | |- keeps _ (let '(_, _) := ?x in _) => destruct x
      end ].

Ltac keeps_all :=
  unfold body, do_set, do_device, do_turnoff, do_turnon, do_delayoff,
    do_status, do_sync, do_cloudconfig, coerce_value, resolve_id,
    getDeviceIdByName, open_device, delay_seconds, split_switch,
    tuyaCloudRefresh, tuyaSaveJson, force_resolve;
  repeat keeps_step.

(** X12.  Only [/sync] and [/cloudconfig/...] write the device state:
    every other request, whatever the devices answer and however it ends,
    leaves the credential list, the registry, the list of new devices, the
    retry table, the timer and the cloud configuration as they were.  (The
    counters of [serverstats] are no part of [state].) *)
Theorem only_sync_and_cloudconfig_write env st path :
  w_state (snd (run (do_GET path) env st)) ≠ st →
  path = "/sync" ∨ Str.startswith path "/cloudconfig/" = true.
Proof.
  intros Hchange.
  destruct (String.eqb_spec path "/sync") as [|Hsync]; [by left|].
  destruct (Str.startswith path "/cloudconfig/") eqn:Hcfg; [by right|].
  exfalso. apply Hchange.
  change (same_state {| w_state := st; w_trace := [] |}
            (snd (do_GET path env {| w_state := st; w_trace := [] |}))).
  generalize env, {| w_state := st; w_trace := [] |}.
  change (keeps same_state (do_GET path)).
  apply String.eqb_neq in Hsync. unfold do_GET. rewrite Hsync, Hcfg.
  keeps_all.
Qed.

Lemma only_sync_and_cloudconfig_write_witness :
  w_state (snd (run (do_GET "/sync") plain_env unknown_seen)) ≠ unknown_seen
  ∧ ("/sync" = "/sync" ∨ Str.startswith "/sync" "/cloudconfig/" = true).
Proof.
  assert (w_state (snd (run (do_GET "/sync") plain_env unknown_seen)) ≠ unknown_seen)
    as H by (vm_compute; discriminate).
  split; [exact H|].
  exact (only_sync_and_cloudconfig_write plain_env unknown_seen "/sync" H).
Defined.

(** X13.  Only requests whose path begins with [/set/], [/turnoff/],
    [/delayoff/], [/turnon/] or [/status/] ever call a Device Client; the
    listings, [/device/], [/sync], [/cloudconfig/] and the static assets
    never do. *)
Theorem only_device_paths_call_devices env st path :
  device_calls (w_trace (snd (run (do_GET path) env st))) ≠ [] →
  ∃ prefix, In prefix device_prefixes ∧ Str.startswith path prefix = true.
Proof.
  intros Hcalls.
  destruct (Str.startswith path "/set/") eqn:H1;
    [exists "/set/"; split; [cbn; tauto|done]|].
  destruct (Str.startswith path "/turnoff/") eqn:H2;
    [exists "/turnoff/"; split; [cbn; tauto|done]|].
  destruct (Str.startswith path "/delayoff/") eqn:H3;
    [exists "/delayoff/"; split; [cbn; tauto|done]|].
  destruct (Str.startswith path "/turnon/") eqn:H4;
    [exists "/turnon/"; split; [cbn; tauto|done]|].
  destruct (Str.startswith path "/status/") eqn:H5;
    [exists "/status/"; split; [cbn; tauto|done]|].
  exfalso. apply Hcalls.
  change (same_calls {| w_state := st; w_trace := [] |}
            (snd (do_GET path env {| w_state := st; w_trace := [] |}))).
  generalize env, {| w_state := st; w_trace := [] |}.
  change (keeps same_calls (do_GET path)).
  unfold do_GET. rewrite H1, H2, H3, H4, H5.
  keeps_all.
Qed.

Lemma only_device_paths_call_devices_witness :
  device_calls (w_trace (snd (run (do_GET "/status/abc123") plain_env plug1_seen))) ≠ []
  ∧ ∃ prefix, In prefix device_prefixes
              ∧ Str.startswith "/status/abc123" prefix = true.
Proof.
  assert (device_calls
            (w_trace (snd (run (do_GET "/status/abc123") plain_env plug1_seen))) ≠ [])
    as H by (vm_compute; discriminate).
  split; [exact H|].
  exact (only_device_paths_call_devices plain_env plug1_seen "/status/abc123" H).
Defined.

(** * The handlers, case by case *)

(** ** Tokens and names *)

Lemma split_aux_nonempty sep skip cur s : Str.split_aux sep skip cur s ≠ [].
Proof.
  revert skip cur. induction s as [|c s IH]; intros skip cur; simpl; [done|].
  destruct skip; [|apply IH]. destruct (Str.startswith (String c s) sep); [done|apply IH].
Qed.

Lemma index1_split_prefix c sep' rest :
  ∃ tok, index1 (Str.split (String c sep' +:+ rest) (String c sep')) = Ret tok.
Proof.
  unfold Str.split. rewrite StrFacts.split_aux_sep.
  pose proof (split_aux_nonempty (String c sep') 0 EmptyString rest) as Hne.
  destruct (Str.split_aux (String c sep') 0 EmptyString rest) as [|tok l]; [done|].
  by exists tok.
Qed.

Lemma name_lookup_cases name registry :
  getDeviceIdByName_loop name registry = PBool false
  ∨ ∃ k e, In (k, e) registry ∧ e_name e = name
           ∧ getDeviceIdByName_loop name registry = PStr (e_id e).
Proof.
  induction registry as [|[k e] registry IH]; simpl; [by left|].
  destruct (String.eqb_spec (e_name e) name) as [Heq|Hne].
  - right. exists k, e. split; [by left|done].
  - destruct IH as [IH|(k' & e' & Hin & Hn & IH)]; [by left|].
    right. exists k', e'. split; [by right|done].
Qed.

Lemma name_lookup_first name before k e after :
  Forall (other_name name) before → e_name e = name →
  getDeviceIdByName_loop name (before ++ (k, e) :: after) = PStr (e_id e).
Proof.
  intros Hb He. induction Hb as [|[k' e'] before Hx Hb IH]; simpl.
  - by rewrite He, String.eqb_refl.
  - unfold other_name in Hx. simpl in Hx.
    by destruct (String.eqb_spec (e_name e') name).
Qed.

Lemma dict_get_of_In {V} k (v : V) d :
  NoDup (dict_keys d) → In (k, v) d → dict_get k d = Some v.
Proof.
  induction d as [|[k' v'] d IH]; simpl; [done|].
  intros Hnd [Hin|Hin].
  - injection Hin as -> ->. by rewrite String.eqb_refl.
  - apply NoDup_cons in Hnd as [Hk Hnd].
    destruct (String.eqb_spec k' k) as [->|Hne]; [|by apply IH].
    exfalso. apply Hk. apply list_elem_of_In. apply (in_map fst) in Hin. exact Hin.
Qed.

(** X14.  [getDeviceIdByName] answers with the id of the first registry
    entry, in the order of discovery, whose name is the percent-decoded
    argument, and with [False] when no entry has that name; it changes
    nothing and calls no collaborator. *)
Theorem name_lookup_first_match env st name :
  let r := run (getDeviceIdByName name) env st in
  snd r = {| w_state := st; w_trace := [] |}
  ∧ (Forall (other_name (unquote env name)) (deviceslist st) →
     fst r = Ret (PBool false))
  ∧ (∀ before k e after,
       deviceslist st = before ++ (k, e) :: after →
       Forall (other_name (unquote env name)) before →
       e_name e = unquote env name →
       fst r = Ret (PStr (e_id e))).
Proof.
  unfold run, getDeviceIdByName. exec. split; [done|]. split.
  - intros Hall. f_equal. apply getDeviceIdByName_loop_none.
    intros k e Hin. rewrite Forall_forall in Hall. apply (Hall (k, e)).
    by apply list_elem_of_In.
  - intros before k e after -> Hb He. f_equal. by apply name_lookup_first.
Qed.

(** ** [/device/] *)

Lemma lookup_false devs :
  tuyaLookup devs (PBool false) = Ret (EmptyString, EmptyString, EmptyString)
  ∨ (tuyaLookup devs (PBool false) = Raise ∧ ¬ Forall is_record devs).
Proof.
  induction devs as [|[x|v] devs IH]; simpl.
  - by left.
  - destruct IH as [IH|[IH Hn]]; [by left|]. right. split; [done|].
    intros H. apply Hn. by inversion H.
  - right. split; [done|]. intros H. by inversion H.
Qed.

Lemma resolve_id_cases env st w tok :
  w_state w = st → registry_keyed (deviceslist st) →
  ∃ id, resolve_id tok env w = (Ret id, w)
        ∧ (id = PBool false ∧ dict_has tok (deviceslist st) = false
           ∨ ∃ k e, id = PStr k ∧ dict_get k (deviceslist st) = Some e).
Proof.
  intros <- [Hnd Hid]. unfold resolve_id, getDeviceIdByName. exec.
  destruct (dict_has tok (deviceslist (w_state w))) eqn:Hhas; cbn [negb].
  - eexists. split; [done|]. right. apply dict_has_get in Hhas as [e He].
    by exists tok, e.
  - destruct (name_lookup_cases (unquote env tok) (deviceslist (w_state w)))
      as [->|(k & e & Hin & _ & ->)].
    + eexists. split; [done|]. by left.
    + eexists. split; [done|]. right.
      pose proof (dict_get_of_In k e _ Hnd Hin) as He.
      exists (e_id e), e. split; [done|]. by rewrite (Hid k e He).
Qed.

(** X15.  [/device/...] answers from the registry only.  The answer is the
    entry of a registry key, or "Device ID not found." with the id
    [false]; the branch that would answer with the name, mac and key of the
    credential list is never taken, because an id that is no registry key
    has been replaced by [False] before the credential list is asked.
    The handler raises only when the credential list holds an item that
    is no dict. *)
Theorem device_answers_from_registry_only env st rest :
  reachable st →
  let r := fst (run (do_GET ("/device/" +:+ rest)) env st) in
  (∃ k e, dict_get k (deviceslist st) = Some e ∧ r = Ret (Body (Json (entry_json e))))
  ∨ r = Ret (Body (not_found (PBool false)))
  ∨ (r = Raise ∧ ¬ Forall is_record (tuyadevices st)).
Proof.
  intros Hr. apply reachable_keyed in Hr.
  set (path := "/device/" +:+ rest).
  assert (do_GET path = body (do_device path)) as -> by reflexivity.
  destruct (index1_split_prefix slash "device/" rest) as [tok Htok].
  change (String slash "device/" +:+ rest) with path in Htok.
  change (String slash "device/") with "/device/" in Htok.
  destruct (resolve_id_cases env st {| w_state := st; w_trace := [] |} tok eq_refl Hr)
    as (id & Hres & Hid).
  unfold run, body, do_device. exec. rewrite Htok, Hres. cbn [w_state].
  destruct Hid as [[-> _]|(k & e & -> & He)].
  - cbn [registry_entry].
    destruct (lookup_false (tuyadevices st)) as [->|[-> Hn]]; cbn.
    + right. by left.
    + right. by right.
  - cbn [registry_entry]. rewrite He. cbn. left. by exists k, e.
Qed.

Lemma device_answers_from_registry_only_witness :
  reachable plug1_seen
  ∧ dict_has "Plug2" (deviceslist plug1_seen) = false
  ∧ fst (run (do_GET ("/device/" +:+ "Plug2")) plain_env plug1_seen)
    = Ret (Body (not_found (PBool false))).
Proof.
  split; [exact reachable_plug1_seen|]. split; [reflexivity|].
  destruct (device_answers_from_registry_only plain_env plug1_seen "Plug2"
              reachable_plug1_seen) as [(k & e & _ & H)|[H|[H _]]].
  - vm_compute in H. discriminate H.
  - exact H.
  - vm_compute in H. discriminate H.
Defined.

(** ** [/turnoff/] with too many parts *)

(** X16.  A [/turnoff/...] request whose part after the prefix has a slash
    and does not split into exactly an id and a switch sets the id to the
    empty string and prepares the "Invalid syntax" answer, but goes on:
    when the empty id is no key of the registry it is looked up as a name
    (percent-decoding leaves the empty string as it is), and the first
    registry entry without a name is taken for the device.  The request
    then opens a session to that device, and once the session is set up
    sends it [turn_off] for switch 1. *)
Theorem malformed_turnoff_hits_unnamed env st rest tok before k e after :
  reachable st →
  index1 (Str.split ("/turnoff/" +:+ rest) "/turnoff/") = Ret tok →
  Str.contains_char slash tok = true →
  (∀ a b, Str.split tok "/" ≠ [a; b]) →
  unquote env EmptyString = EmptyString →
  dict_has EmptyString (deviceslist st) = false →
  deviceslist st = before ++ (k, e) :: after →
  Forall (other_name EmptyString) before →
  e_name e = EmptyString →
  ∃ calls,
    device_calls (w_trace (snd (run (do_GET ("/turnoff/" +:+ rest)) env st)))
    = Call_OutletDevice k (e_ip e) (e_key e) :: calls
    ∧ (∀ v, e_version e = Some v → float_ok env v = true →
            device env (Call_OutletDevice k (e_ip e) (e_key e)) ≠ Raise →
            device env (Call_set_version v) ≠ Raise →
            In (Call_turn_off (PInt 1)) calls).
Proof.
  intros Hr Htok Hslash Hparts Huq Hempty Hreg Hbefore Hname.
  destruct (reachable_keyed st Hr) as [Hnd Hid].
  assert (dict_get k (deviceslist st) = Some e) as He.
  { apply dict_get_of_In; [done|]. rewrite Hreg. apply in_app_iff. right. by left. }
  pose proof (Hid k e He) as Hk.
  set (path := "/turnoff/" +:+ rest) in *.
  assert (do_GET path = body (do_turnoff path)) as -> by reflexivity.
  assert (∃ msg, split_switch "turnoff" path tok = (EmptyString, PInt 1, msg))
    as [msg Hsw].
  { unfold split_switch. rewrite Hslash.
    destruct (Str.split tok "/") as [|a [|b [|c l]]] eqn:Hs; try by eexists.
    by destruct (Hparts a b). }
  unfold run, body, do_turnoff, resolve_id, getDeviceIdByName, open_device. exec.
  rewrite Htok, Hsw. exec. rewrite Hempty. cbn [negb]. rewrite Huq.
  cbn [w_state w_trace]. rewrite Hreg.
  rewrite (name_lookup_first EmptyString before k e after Hbefore Hname).
  rewrite <- Hreg, Hk. cbn [registry_entry]. rewrite He.
  destruct (device env (Call_OutletDevice k (e_ip e) (e_key e))) as [r0|] eqn:Hopen;
    exec.
  2: { eexists. split; [reflexivity|]. intros v _ _ Habs. by destruct Habs. }
  destruct (e_version e) as [v|] eqn:Hv; exec.
  2: { eexists. split; [reflexivity|]. by intros v [=]. }
  destruct (float_ok env v) eqn:Hf; exec.
  2: { eexists. split; [reflexivity|]. intros v' [= <-] Habs. congruence. }
  destruct (device env (Call_set_version v)) as [r1|] eqn:Hsv; exec.
  2: { eexists. split; [reflexivity|]. intros v' [= <-] _ _ Habs. by destruct Habs. }
  destruct (device env (Call_turn_off (PInt 1))) as [r2|]; exec.
  - destruct (device env Call_close); exec;
      eexists; (split; [reflexivity|]); intros; cbn; tauto.
  - eexists. split; [reflexivity|]. intros; cbn; tauto.
Qed.

Lemma malformed_turnoff_hits_unnamed_witness :
  reachable unknown_seen
  ∧ index1 (Str.split ("/turnoff/" +:+ "a/b/c") "/turnoff/") = Ret "a/b/c"
  ∧ Str.split "a/b/c" "/" = ["a"; "b"; "c"]
  ∧ ∃ calls,
      device_calls
        (w_trace (snd (run (do_GET ("/turnoff/" +:+ "a/b/c")) plain_env unknown_seen)))
      = Call_OutletDevice "zzz" "10.0.0.6" EmptyString :: calls
      ∧ In (Call_turn_off (PInt 1)) calls.
Proof.
  split; [exact reachable_unknown_seen|]. split; [reflexivity|].
  split; [reflexivity|].
  destruct (malformed_turnoff_hits_unnamed plain_env unknown_seen "a/b/c" "a/b/c"
              [] "zzz"
              {| e_ip := "10.0.0.6"; e_version := Some "3.3";
                 e_other := [("gwId", PStr "zzz")];
                 e_name := EmptyString; e_mac := EmptyString; e_key := EmptyString;
                 e_id := "zzz" |} [])
    as (calls & Hcalls & Hoff);
    [exact reachable_unknown_seen | reflexivity | reflexivity
    | intros a b; discriminate | reflexivity | reflexivity | reflexivity
    | constructor | reflexivity |].
  exists calls. split; [exact Hcalls|].
  apply (Hoff "3.3"); [reflexivity | reflexivity | discriminate | discriminate].
Defined.

(** ** [/delayoff/] *)

(** X17.  The handler of [/delayoff/...] only sets a session up: the calls
    it makes on the Device Client are the constructor and [set_version],
    never an operation and never [close].  It starts at most one timer,
    and only after it has opened a session.  The session is closed by the
    timer's action, and only when its [turn_off] returns. *)
Theorem delayoff_leaves_session_to_timer env st rest :
  let tr := w_trace (snd (run (do_GET ("/delayoff/" +:+ rest)) env st)) in
  Forall (λ c, is_setup c = true) (device_calls tr)
  ∧ (length (timers tr) ≤ 1)%nat
  ∧ (timers tr ≠ [] → opened tr = true)
  ∧ ∀ sw w, closed (w_trace (snd (delayoff sw env w))) = true →
            closed (w_trace w) = true ∨ device env (Call_turn_off sw) ≠ Raise.
Proof.
  set (path := "/delayoff/" +:+ rest).
  assert (do_GET path = body (do_delayoff path)) as -> by reflexivity.
  cbn zeta. split; [|split; [|split]].
  4: { intros sw w. unfold delayoff. exec.
       destruct (device env (Call_turn_off sw)); exec; [by right|].
       intros H. left. unfold closed, device_calls in *.
       rewrite flat_map_app, existsb_app in H. cbn in H.
       by rewrite orb_false_r in H. }
  all: unfold run, do_delayoff, resolve_id, getDeviceIdByName, open_device,
         delay_seconds.
  all: exec.
  all: repeat (break_match; exec; simplify_eq).
  all: cbn -[path]; try done; try lia; repeat constructor.
Qed.

(** ** [/cloudconfig/] *)

(** X18.  [/cloudconfig/...] with exactly four parts stores them as the
    cloud configuration before it refreshes, so they stay stored whatever
    becomes of the refresh, even when the Cloud Client raises; the refresh
    is entered once.  With any other number of parts nothing is stored
    and no refresh is made. *)
Theorem cloudconfig_stored_before_refresh env st rest cfgstr :
  index1 (Str.split ("/cloudconfig/" +:+ rest) "/cloudconfig/") = Ret cfgstr →
  let r := run (do_GET ("/cloudconfig/" +:+ rest)) env st in
  (∀ k s g d, Str.split cfgstr "/" = [k; s; g; d] →
     cloudconfig (w_state (snd r))
     = {| apiKey := k; apiSecret := s; apiRegion := g; apiDeviceID := d |}
     ∧ cloud_refreshes (w_trace (snd r)) = 1%nat)
  ∧ (length (Str.split cfgstr "/") ≠ 4%nat →
     r = (Ret (Body (Json (PDict [("Error",
                                   PStr "Syntax error in cloud config command URL.")]))),
          {| w_state := st; w_trace := [] |})).
Proof.
  intros Htok. set (path := "/cloudconfig/" +:+ rest) in *.
  assert (do_GET path = body (do_cloudconfig path)) as -> by reflexivity.
  cbn zeta. unfold run, body, do_cloudconfig, force_resolve. exec.
  rewrite Htok. split.
  - intros k s g d ->. cbn [w_state w_trace].
    set (w1 := {| w_state :=
                    set_cloudconfig
                      {| apiKey := k; apiSecret := s; apiRegion := g; apiDeviceID := d |}
                      st;
                  w_trace := [] |}).
    pose proof (cloud_refresh_counted env w1) as Hcount.
    pose proof (cloud_refresh_frame env w1) as Hframe.
    destruct (tuyaCloudRefresh env w1) as [[v|] w2];
      destruct (Hframe _ _ eq_refl) as (_ & _ & _ & _ & Hcfg);
      cbn in *; by rewrite Hcfg.
  - intros Hlen. destruct (Str.split cfgstr "/") as [|a [|b [|c [|d [|x l]]]]];
      try done.
Qed.

Lemma cloudconfig_stored_before_refresh_witness :
  index1 (Str.split ("/cloudconfig/" +:+ "k/s/eu/d") "/cloudconfig/") = Ret "k/s/eu/d"
  ∧ Str.split "k/s/eu/d" "/" = ["k"; "s"; "eu"; "d"]
  ∧ fst (run (do_GET ("/cloudconfig/" +:+ "k/s/eu/d")) plain_env unknown_seen) = Raise
  ∧ cloudconfig (w_state (snd (run (do_GET ("/cloudconfig/" +:+ "k/s/eu/d"))
                                 plain_env unknown_seen)))
    = full_cloudconfig.
Proof.
  split; [reflexivity|]. split; [reflexivity|]. split; [reflexivity|].
  destruct (cloudconfig_stored_before_refresh plain_env unknown_seen "k/s/eu/d"
              "k/s/eu/d" eq_refl) as [H _].
  exact (proj1 (H "k" "s" "eu" "d" eq_refl)).
Defined.

(** ** Requests that always answer *)

Lemma answers_ret {A} (a : A) : answers (ret a).
Proof. intros env w. by exists a. Qed.

Lemma answers_get : answers get.
Proof. intros env w. by eexists. Qed.

Lemma answers_ask : answers ask.
Proof. intros env w. by eexists. Qed.

Lemma answers_lift {A} (a : A) : answers (lift (Ret a)).
Proof. intros env w. by exists a. Qed.

Lemma answers_bind {A B} (m : M A) (k : A → M B) :
  answers m → (∀ a, answers (k a)) → answers (bind m k).
Proof.
  intros Hm Hk env w. unfold bind. destruct (Hm env w) as [a Ha].
  destruct (m env w) as [[a'|] w1]; [|done]. apply Hk.
Qed.

Lemma answers_try {A} (m h : M A) : answers h → answers (try_except m h).
Proof.
  intros Hh env w. unfold try_except.
  destruct (m env w) as [[a|] w1]; [by exists a|apply Hh].
Qed.

Ltac answers_step :=
  first
    [ apply answers_bind; [|intros ?]
    | apply answers_try
    | apply answers_ret
    | apply answers_get
    | apply answers_ask
    | apply answers_lift
    | match goal with
      | |- answers (match ?x with _ => _ end) => destruct x
      | |- answers (if ?b then _ else _) => destruct b
      | |- answers (let '(_, _) := ?x in _) => destruct x
      end ].

Ltac answers_all :=
  unfold body, do_set, do_turnoff, do_turnon, do_delayoff, do_status,
    resolve_id, getDeviceIdByName, split_switch;
  repeat match goal with
         | H : index1 _ = Ret _ |- _ => rewrite H
         end;
  repeat answers_step.

(** X19.  The requests that talk to a device always answer: no exception
    of the Device Client, of the parsing of the path or of the lookups
    leaves the handlers of [/set/], [/turnoff/], [/delayoff/], [/turnon/]
    and [/status/].  (The handlers of [/device/], [/sync] and
    [/cloudconfig/] have no such guard.) *)
Theorem device_requests_always_answer env st prefix rest :
  In prefix device_prefixes →
  ∃ m, fst (run (do_GET (prefix +:+ rest)) env st) = Ret (Body m).
Proof.
  intros Hin.
  assert (∃ h, do_GET (prefix +:+ rest) = body h ∧ answers h) as (h & -> & Hans).
  { destruct Hin as [<-|[<-|[<-|[<-|[<-|[]]]]]].
    - set (path := "/set/" +:+ rest).
      exists (do_set path). split; [reflexivity|]. answers_all.
    - destruct (index1_split_prefix slash "turnoff/" rest) as [tok Htok].
      set (path := "/turnoff/" +:+ rest).
      change (index1 (Str.split path "/turnoff/") = Ret tok) in Htok.
      exists (do_turnoff path). split; [reflexivity|]. answers_all.
    - destruct (index1_split_prefix slash "delayoff/" rest) as [tok Htok].
      set (path := "/delayoff/" +:+ rest).
      change (index1 (Str.split path "/delayoff/") = Ret tok) in Htok.
      exists (do_delayoff path). split; [reflexivity|]. answers_all.
    - destruct (index1_split_prefix slash "turnon/" rest) as [tok Htok].
      set (path := "/turnon/" +:+ rest).
      change (index1 (Str.split path "/turnon/") = Ret tok) in Htok.
      exists (do_turnon path). split; [reflexivity|]. answers_all.
    - destruct (index1_split_prefix slash "status/" rest) as [tok Htok].
      set (path := "/status/" +:+ rest).
      change (index1 (Str.split path "/status/") = Ret tok) in Htok.
      exists (do_status path). split; [reflexivity|]. answers_all. }
  unfold run, body, bind.
  destruct (Hans env {| w_state := st; w_trace := [] |}) as [m Hm].
  destruct (h env {| w_state := st; w_trace := [] |}) as [[m'|] w1]; [|done].
  by exists m'.
Qed.

Lemma device_requests_always_answer_witness :
  In "/turnoff/" device_prefixes
  ∧ ∃ m, fst (run (do_GET ("/turnoff/" +:+ "abc123")) silent_env plug1_seen)
         = Ret (Body m).
Proof.
  assert (In "/turnoff/" device_prefixes) as Hin by (vm_compute; tauto).
  split; [exact Hin|].
  exact (device_requests_always_answer silent_env plug1_seen "/turnoff/" "abc123" Hin).
Defined.

(** * Keys, values and files *)

(** ** [/set/] *)

(** X20.  A numeric key token of [/set/{id}/{key}/{value}] is not looked
    up in any mapping: every [set_value] call of the request carries the
    token itself as index, as a string. *)
Theorem set_numeric_key_is_index env st id key token :
  Str.contains_char slash id = false →
  Str.contains_char slash key = false →
  Str.contains_char slash token = false →
  Str.isnumeric key = true →
  ∀ c, In c (set_value_calls
               (w_trace (snd (run (do_GET (set_path id key token)) env st)))) →
       fst c = PStr key.
Proof.
  intros Hi Hk Ht Hnum c.
  rewrite do_GET_set. unfold run, do_set.
  rewrite (split_set_path id key token Hi Hk Ht).
  unfold coerce_value, resolve_id, getDeviceIdByName, open_device. exec.
  rewrite Hnum. cbn [negb].
  repeat (break_match; exec; simplify_eq; try (simpl; tauto)).
  all: simpl; intros [<-|[]]; reflexivity.
Qed.

Lemma set_numeric_key_is_index_witness :
  Str.isnumeric "1" = true
  ∧ set_value_calls
      (w_trace (snd (run (do_GET (set_path "Plug1" "1" "on")) plain_env plug1_seen)))
    = [(PStr "1", PStr "on")]
  ∧ ∀ c, In c (set_value_calls
                 (w_trace (snd (run (do_GET (set_path "Plug1" "1" "on"))
                                    plain_env plug1_seen)))) →
         fst c = PStr "1".
Proof.
  split; [reflexivity|]. split; [reflexivity|].
  apply (set_numeric_key_is_index plain_env plug1_seen "Plug1" "1" "on"); reflexivity.
Defined.

(** X21.  A [/set/...] path that does not split at its slashes into
    exactly five parts (a missing value, or a value with a slash in it) is
    answered with "Syntax error in set command URL." and the path; no
    device is called and nothing changes. *)
Theorem set_wrong_parts_is_syntax_error env st rest :
  length (Str.split ("/set/" +:+ rest) "/") ≠ 5%nat →
  run (do_GET ("/set/" +:+ rest)) env st
  = (Ret (Body (error_url "Syntax error in set command URL." ("/set/" +:+ rest))),
     {| w_state := st; w_trace := [] |}).
Proof.
  intros Hlen. set (path := "/set/" +:+ rest) in *.
  assert (do_GET path = body (do_set path)) as -> by reflexivity.
  unfold run, body, do_set. exec.
  destruct (Str.split path "/") as [|a [|b [|c [|d [|x [|y l]]]]]]; try done.
Qed.

Lemma set_wrong_parts_is_syntax_error_witness :
  Str.split ("/set/" +:+ "Plug1/1/a/b") "/"
  = [EmptyString; "set"; "Plug1"; "1"; "a"; "b"]
  ∧ run (do_GET ("/set/" +:+ "Plug1/1/a/b")) plain_env plug1_seen
    = (Ret (Body (error_url "Syntax error in set command URL." "/set/Plug1/1/a/b")),
       {| w_state := plug1_seen; w_trace := [] |}).
Proof.
  split; [reflexivity|].
  apply (set_wrong_parts_is_syntax_error plain_env plug1_seen "Plug1/1/a/b").
  vm_compute. discriminate.
Defined.

(** ** [/offline] *)

Lemma offline_loop_others devs registry id : ∀ offline,
  Forall (not_record_of id) devs →
  dict_get id (offlineDevices_loop devs registry offline) = dict_get id offline.
Proof.
  induction devs as [|[x|v] devs IH]; intros offline Hall; simpl; [done| |].
  - apply Forall_cons in Hall as [Hx Hall]. simpl in Hx.
    destruct (negb (dict_has (c_id x) registry)); rewrite IH by done; [|done].
    by rewrite dict_get_set_ne.
  - apply Forall_cons in Hall as [_ Hall]. by apply IH.
Qed.

Lemma offline_loop_last before d after registry : ∀ offline,
  Forall (not_record_of (c_id d)) after →
  dict_has (c_id d) registry = false →
  dict_get (c_id d) (offlineDevices_loop (before ++ TDict d :: after) registry offline)
  = Some (offline_entry d).
Proof.
  intros offline Ha Hreg. revert offline.
  induction before as [|[x|v] before IH]; intros offline; simpl.
  - rewrite Hreg. simpl. rewrite offline_loop_others by done.
    apply dict_get_set_eq.
  - destruct (negb (dict_has (c_id x) registry)); apply IH.
  - apply IH.
Qed.

(** X22.  For an id of the credential list that is no key of the registry,
    [/offline] reports an object with the name of the last dict of the
    credential list with that id, followed by its mac when it has one. *)
Theorem offline_reports_last_record env st before d after :
  tuyadevices st = before ++ TDict d :: after →
  Forall (not_record_of (c_id d)) after →
  dict_has (c_id d) (deviceslist st) = false →
  ∃ obj,
    fst (run (do_GET "/offline") env st) = Ret (Body (Json (PDict obj)))
    ∧ dict_get (c_id d) obj
      = Some (PDict (("name", PStr (c_name d))
                     :: match c_mac d with
                        | Some m => [("mac", PStr m)]
                        | None => []
                        end)).
Proof.
  intros Hdevs Ha Hreg. exists (offlineDevices st). split; [reflexivity|].
  unfold offlineDevices. rewrite Hdevs.
  by rewrite (offline_loop_last before d after (deviceslist st) [] Ha Hreg).
Qed.

Lemma offline_reports_last_record_witness :
  dict_has "zzz"
    (deviceslist (initial [TDict zzz_old_record; TDict zzz_record; TDict plug1]
                    no_cloudconfig))
  = false
  ∧ ∃ obj,
      fst (run (do_GET "/offline") plain_env
             (initial [TDict zzz_old_record; TDict zzz_record; TDict plug1]
                no_cloudconfig))
      = Ret (Body (Json (PDict obj)))
      ∧ dict_get "zzz" obj
        = Some (PDict [("name", PStr "Lamp"); ("mac", PStr "aa:bb")]).
Proof.
  split; [reflexivity|].
  apply (offline_reports_last_record plain_env
           (initial [TDict zzz_old_record; TDict zzz_record; TDict plug1]
              no_cloudconfig)
           [TDict zzz_old_record] zzz_record [TDict plug1]);
    [reflexivity|repeat constructor; discriminate|reflexivity].
Defined.

(** ** [/status/] *)

Lemma status_mapping_first before r after id d :
  Forall (other_device id) before → c_id r = id →
  status_mapping (before ++ TDict r :: after) id (PDict d)
  = Ret (PDict (dict_set "dps_mapping"
                  (match c_mapping r with
                   | Some mapping => mapping_json mapping
                   | None => PList []
                   end) d)).
Proof.
  intros Hb Hid. induction Hb as [|[x|] before Hx Hb IH]; simpl.
  - by rewrite Hid, String.eqb_refl.
  - simpl in Hx. by destruct (String.eqb_spec (c_id x) id).
  - done.
Qed.

(** X23.  [/status/...] for a device that answers: the answer of the
    device is returned with one member set, ["dps_mapping"], to the mapping
    of the first dict of the credential list with the id of the device, or
    to the empty list when that dict has no mapping. *)
Theorem status_reports_mapping env st rest tok s e ver d before r after :
  index1 (Str.split ("/status/" +:+ rest) "/status/") = Ret tok →
  fst (run (resolve_id tok) env st) = Ret (PStr s) →
  dict_get s (deviceslist st) = Some e →
  e_version e = Some ver → float_ok env ver = true →
  device env (Call_OutletDevice s (e_ip e) (e_key e)) ≠ Raise →
  device env (Call_set_version ver) ≠ Raise →
  device env Call_status = Ret (PDict d) →
  device env Call_close ≠ Raise →
  tuyadevices st = before ++ TDict r :: after →
  Forall (other_device s) before → c_id r = s →
  fst (run (do_GET ("/status/" +:+ rest)) env st)
  = Ret (Body (Json (PDict (dict_set "dps_mapping"
                              (match c_mapping r with
                               | Some mapping => mapping_json mapping
                               | None => PList []
                               end) d)))).
Proof.
  intros Htok Hres He Hver Hfl Hopen Hsv Hstatus Hclose Hdevs Hb Hid.
  set (path := "/status/" +:+ rest) in *.
  assert (do_GET path = body (do_status path)) as -> by reflexivity.
  unfold run, body, do_status, resolve_id, getDeviceIdByName, open_device in *. exec.
  rewrite Htok.
  assert ((if negb (dict_has tok (deviceslist st))
           then getDeviceIdByName_loop (unquote env tok) (deviceslist st)
           else PStr tok) = PStr s) as Hid'.
  { destruct (negb (dict_has tok (deviceslist st))); simpl in Hres; congruence. }
  destruct (negb (dict_has tok (deviceslist st))); simpl in Hid' |- *.
  2: injection Hid' as ->.
  1: rewrite Hid'.
  all: unfold registry_entry; rewrite He; exec; rewrite Hver, Hfl.
  all: destruct (device env (Call_OutletDevice s (e_ip e) (e_key e))); [|done].
  all: destruct (device env (Call_set_version ver)); [|done].
  all: exec; rewrite Hstatus, Hdevs.
  all: rewrite (status_mapping_first before r after s d Hb Hid).
  all: destruct (device env Call_close); [|done].
  all: reflexivity.
Qed.

Lemma status_reports_mapping_witness :
  index1 (Str.split ("/status/" +:+ "Plug1") "/status/") = Ret "Plug1"
  ∧ fst (run (resolve_id "Plug1") (env_at 0 []) plug1_seen) = Ret (PStr "abc123")
  ∧ fst (run (do_GET ("/status/" +:+ "Plug1"))
           {| unquote := fun s => s; wide_value := fun _ => None;
              float_ok := fun _ => true;
              int_of_str := fun _ => Raise;
              device := fun c => match c with
                                 | Call_status => Ret (PDict [("dps", PDict [("1", PBool true)])])
                                 | _ => Ret PNone
                                 end;
              cloud := fun _ => Raise; clock := 0; clock_late := 0;
              fs := no_files; web_root := "web"; stats := PNone |}
           plug1_seen)
    = Ret (Body (Json (PDict [("dps", PDict [("1", PBool true)]);
                              ("dps_mapping",
                               PDict [("1", PDict [("code", PStr "switch_1")])])]))).
Proof.
  split; [reflexivity|]. split; [reflexivity|].
  apply (status_reports_mapping _ plug1_seen "Plug1" "Plug1" "abc123"
           (sighted_entry (plug1_announcement "10.0.0.5") "Plug1" "K" EmptyString)
           "3.3" [("dps", PDict [("1", PBool true)])] [] plug1 []);
    try reflexivity; try discriminate; by constructor.
Defined.

(** ** The switch of [/turnoff/] *)

(** X26.  [/turnoff/{id}] switches off switch 1, the integer.  In
    [/turnoff/{id}/{switch}] the switch is not converted: [turn_off] is
    called with the text of the token. *)
Theorem turnoff_switch_is_text env st rest tok :
  index1 (Str.split ("/turnoff/" +:+ rest) "/turnoff/") = Ret tok →
  let calls :=
    device_calls (w_trace (snd (run (do_GET ("/turnoff/" +:+ rest)) env st))) in
  (Str.contains_char slash tok = false →
     ∀ sw, In (Call_turn_off sw) calls → sw = PInt 1)
  ∧ (∀ a b, Str.contains_char slash tok = true → Str.split tok "/" = [a; b] →
       ∀ sw, In (Call_turn_off sw) calls → sw = PStr b).
Proof.
  intros Htok. set (path := "/turnoff/" +:+ rest) in *.
  assert (do_GET path = body (do_turnoff path)) as -> by reflexivity.
  cbn zeta. split.
  - intros Hslash sw.
    unfold run, do_turnoff, split_switch, resolve_id, getDeviceIdByName, open_device.
    exec. rewrite Htok, Hslash. exec.
    repeat (break_match; exec; simplify_eq; try (cbn; tauto)).
    all: cbn; intuition congruence.
  - intros a b Hslash Hsplit sw.
    unfold run, do_turnoff, split_switch, resolve_id, getDeviceIdByName, open_device.
    exec. rewrite Htok, Hslash, Hsplit. exec.
    repeat (break_match; exec; simplify_eq; try (cbn; tauto)).
    all: cbn; intuition congruence.
Qed.

Lemma turnoff_switch_is_text_witness :
  index1 (Str.split ("/turnoff/" +:+ "abc123/2") "/turnoff/") = Ret "abc123/2"
  ∧ Str.split "abc123/2" "/" = ["abc123"; "2"]
  ∧ device_calls
      (w_trace (snd (run (do_GET ("/turnoff/" +:+ "abc123/2")) plain_env plug1_seen)))
    = [Call_OutletDevice "abc123" "10.0.0.5" "K"; Call_set_version "3.3";
       Call_turn_off (PStr "2"); Call_close]
  ∧ ∀ sw, In (Call_turn_off sw)
            (device_calls
               (w_trace (snd (run (do_GET ("/turnoff/" +:+ "abc123/2"))
                                  plain_env plug1_seen)))) →
          sw = PStr "2".
Proof.
  split; [reflexivity|]. split; [reflexivity|]. split; [reflexivity|].
  destruct (turnoff_switch_is_text plain_env plug1_seen "abc123/2" "abc123/2" eq_refl)
    as [_ H].
  exact (H "abc123" "2" eq_refl eq_refl).
Defined.

(** * Static assets *)

Lemma until_char_app c p q :
  Str.contains_char c p = false → until_char c (p +:+ String c q) = p.
Proof.
  induction p as [|b p IH]; simpl; intros H.
  - by rewrite Ascii.eqb_refl.
  - apply orb_false_elim in H as [Hb Hp]. rewrite Hb. by rewrite IH.
Qed.

Lemma until_char_none c p : Str.contains_char c p = false → until_char c p = p.
Proof.
  induction p as [|b p IH]; simpl; intros H; [done|].
  apply orb_false_elim in H as [Hb Hp]. rewrite Hb. by rewrite IH.
Qed.

Lemma before_query_until s : Static.before_query s = until_char "?" s.
Proof.
  unfold Static.before_query, Str.split.
  by destruct (split_aux_head "?" EmptyString s) as [tl ->].
Qed.

Lemma resolve_ignores_query web_root p q :
  Str.contains_char "?" p = false →
  Static.resolve web_root (p +:+ String "?" q) = Static.resolve web_root p.
Proof.
  intros Hp. unfold Static.resolve.
  rewrite !before_query_until, until_char_app, (until_char_none "?" p) by done.
  destruct (String.eqb p "/"); [done|].
  destruct p as [|a p]; [done|].
  assert (Str.startswith (String a p +:+ String "?" q) "/"
          = Str.startswith (String a p) "/") as -> by reflexivity.
  destruct (Str.startswith (String a p) "/").
  - simpl in Hp. apply orb_false_elim in Hp as [_ Hp]. cbn [Static.tail String.append].
    by rewrite until_char_app, (until_char_none "?" p).
  - by rewrite until_char_app, until_char_none.
Qed.

(** X24.  [get_static] does not look at the query string: a path followed
    by a question mark and anything is served like the path itself. *)
Theorem static_ignores_query fs web_root p q :
  Str.contains_char "?" p = false →
  Static.get_static fs web_root (p +:+ String "?" q)
  = Static.get_static fs web_root p.
Proof.
  intros Hp. unfold Static.get_static. by rewrite resolve_ignores_query.
Qed.

Lemma static_ignores_query_witness :
  Str.contains_char "?" "/app.js" = false
  ∧ Static.resolve "web" ("/app.js" +:+ String "?" "v=2") = "web/app.js"
  ∧ Static.get_static sample_fs "web" ("/app.js" +:+ String "?" "v=2")
    = Static.get_static sample_fs "web" "/app.js".
Proof.
  split; [reflexivity|]. split; [reflexivity|].
  apply (static_ignores_query sample_fs "web" "/app.js" "v=2"). reflexivity.
Defined.

(** X25.  [get_static] does not confine a path to the web root.  Of a
    path that begins with two slashes only the first is removed, and
    [os.path.join] then drops the web root in front of what is left: the
    file looked for, and served when it exists, is the absolute path that
    follows the first slash, whatever the web root is. *)
Theorem static_double_slash_leaves_root fs web_root rest :
  Static.resolve web_root ("//" +:+ rest) = "/" +:+ Static.before_query rest
  ∧ ∀ other_root,
      Static.get_static fs web_root ("//" +:+ rest)
      = Static.get_static fs other_root ("//" +:+ rest).
Proof.
  assert (∀ root, Static.resolve root ("//" +:+ rest) = "/" +:+ Static.before_query rest)
    as Hres.
  { intros root. unfold Static.resolve. rewrite !before_query_until.
    cbn [String.append until_char Ascii.eqb Bool.eqb String.eqb Str.startswith
           Static.tail andb].
    reflexivity. }
  split; [apply Hres|].
  intros other_root. unfold Static.get_static. by rewrite !Hres.
Qed.

(** The file [/etc/passwd] is served for the path [//etc/passwd]. *)
Example static_serves_outside_root :
  Static.get_static sample_fs "/opt/server/web" "//etc/passwd"
  = Ret (Some ("root", "text/plain")).
Proof. reflexivity. Qed.

